(** * Chip-layout geometry engine: a shallow embedding and its properties

    The development follows the Python sources module by module:
    - [visualization/styles.py]: the dimension records ([XmonDims],
      [JJChainDims], ..., [LatticeConfig]);
    - [visualization/primitives.py]: [JJChain._generate] and the tangent /
      normal computation of [Resonator.place];
    - [visualization/qubits.py]: the constructors of the two composites and
      the arm selection of [TunableTransmonCoupler.place];
    - [visualization/lattice.py]: [SquareLattice];
    - [visualization_3d/primitives.py]: [create_extruded_path] and
      [create_dolan_bridge].

    Numbers.  Python [int] is [Z].  Python [float] is idealised: code that
    only adds, multiplies, divides and truncates is written over [Q], so
    that it still computes; code that calls [math.exp], [math.hypot] or
    [np.linalg.norm] is written over [R].  Rounding, overflow of
    [math.exp] and NaN are outside both models.

    Exceptions.  A Python function that can raise returns a [result]. *)

From Stdlib Require Import ZArith QArith Qround Reals Psatz Lia.
From stdpp Require Import gmap strings list fin_maps sorting.

(** ** Python exceptions *)

Inductive exn : Type :=
  | TypeError
  | KeyError
  | IndexError
  | ZeroDivisionError.

Inductive result (A : Type) : Type :=
  | Ok (a : A)
  | Raise (e : exn).
Arguments Ok {A} a.
Arguments Raise {A} e.

#[global] Instance result_ret : MRet result := λ A a, Ok a.
#[global] Instance result_bind : MBind result := λ A B f m,
  match m with
  | Ok a => f a
  | Raise e => Raise e
  end.

Definition succeeds {A} (m : result A) : Prop := ∃ a, m = Ok a.

(** [d[k]] on a dict: [KeyError] when the key is absent. *)
Definition getitem `{Countable K} {V} (d : gmap K V) (k : K) : result V :=
  match d !! k with
  | Some v => Ok v
  | None => Raise KeyError
  end.

(** [int(x)] on a float: truncation toward zero. *)
Definition py_int (q : Q) : Z := Z.quot (Qnum q) (Z.pos (Qden q)).

(** ** styles.py: dimension presets *)

Module XmonDims.
Record t : Type := mk { arm_len : Q; arm_width : Q; pad_head_size : Q }.
Definition default : t := mk 140 30 60.
End XmonDims.

Module JJChainDims.
Record t : Type := mk
  { length : Q; width : Q; island_len : Q; gap : Q; overlap : Q }.
Definition default : t := mk 200 15 20 15 6.
End JJChainDims.

Module FluxoniumDims.
Record t : Type := mk
  { xmon : XmonDims.t;
    chain : JJChainDims.t;
    chain_separation : Q;
    chain_start_dist : Q;
    chain_angle : Q;
    connector_bar_extra : Q;
    connector_bar_height : Q }.
Definition default : t :=
  mk XmonDims.default JJChainDims.default 40 15 (-45) 6 6.
End FluxoniumDims.

Module CouplerXmonDims.
Record t : Type := mk
  { long_arm_len : Q; short_arm_len : Q; arm_width : Q; pad_head_size : Q }.
Definition default : t := mk 100 50 24 45.
End CouplerXmonDims.

Module DCSqUIDDims.
Record t : Type := mk
  { leg_length : Q; leg_separation : Q; leg_width : Q;
    u_bar_width : Q; junction_width : Q; junction_height : Q }.
Definition default : t := mk 40 20 3 3 10 8.
End DCSqUIDDims.

Module ResonatorDims.
Record t : Type := mk
  { lead_length : Q; turn_radius : Q; meander_amplitude : Q;
    num_turns : Z; width : Q }.
Definition default : t := mk 15 8 30 5 3.
End ResonatorDims.

Module FluxLineDims.
Record t : Type := mk
  { length : Q; width : Q; standoff : Q; hook_radius : Q; hook_width : Q }.
Definition default : t := mk 60 3 8 6 (5 # 2).
End FluxLineDims.

Module TunableTransmonDims.
Record t : Type := mk
  { xmon : CouplerXmonDims.t;
    dc_squid : DCSqUIDDims.t;
    resonator : ResonatorDims.t;
    flux_line : FluxLineDims.t;
    squid_arm_index : Z;
    resonator_arm_index : Z }.
Definition default : t :=
  mk CouplerXmonDims.default DCSqUIDDims.default ResonatorDims.default
     FluxLineDims.default 0 1.
End TunableTransmonDims.

Module LatticeConfig.
Record t : Type := mk { rows : Z; cols : Z; pitch : Q; pad_gap : Q }.
Definition default : t := mk 3 3 0 20.
End LatticeConfig.

(** ** primitives.py: the Josephson-junction chain *)

Module JJChain.
Import JJChainDims.
Local Open Scope Q_scope.

(** A rectangle [(x, y, w, h)]: lower-left corner, width, height. *)
Definition rect : Type := Q * Q * Q * Q.

Record t : Type := mk
  { dims : JJChainDims.t;
    _islands : list rect;
    _bridges : list rect;
    total_length : Q }.

(** The state of the loop of [_generate]: the two lists and the cursor. *)
Definition loop_state : Type := list rect * list rect * Q.

Definition loop_body (d : JJChainDims.t) (n_cells : Z)
    (st : loop_state) (i : Z) : loop_state :=
  let '(islands, bridges, x) := st in
  let unit := island_len d + gap d in
  let bridge_len := gap d + 2 * overlap d in
  let islands := islands ++ [(x, - width d / 2, island_len d, width d)] in
  let bridges :=
    if decide (i < n_cells)%Z then
      let bx := x + island_len d - overlap d in
      let bw := width d * (85 # 100) in
      bridges ++ [(bx, - bw / 2, bridge_len, bw)]
    else bridges in
  (islands, bridges, x + unit).

Definition _generate (d : JJChainDims.t) : result t :=
  let unit := island_len d + gap d in
  if Qeq_bool unit 0 then Raise ZeroDivisionError else
  let n_cells := py_int (length d / unit) in
  let '(islands, bridges, x) :=
    foldl (loop_body d n_cells) ([], [], 0) (seqZ 0 (n_cells + 1)) in
  Ok (mk d islands bridges (x - unit + island_len d)).

(** [JJChain(dims)]: [dims=None] selects the preset. *)
Definition init (dims : option JJChainDims.t) : result t :=
  _generate (match dims with Some d => d | None => default end).
End JJChain.

(** A loop whose body can raise. *)
Fixpoint foldM {A B} (f : B → A → result B) (b : B) (l : list A) : result B :=
  match l with
  | [] => Ok b
  | a :: l => b' ← f b a; foldM f b' l
  end.

(** ** primitives.py: the cross *)

Module Xmon.
Local Open Scope Q_scope.

Record t : Type := mk
  { dims : XmonDims.t + CouplerXmonDims.t;
    arm_width : Q;
    pad_head_size : Q;
    _arm_lengths : gmap Z Q;
    (* ((x, y, w, h), local_angle) *)
    _patches : list (JJChain.rect * Z) }.

Definition dims_arm_width (d : XmonDims.t + CouplerXmonDims.t) : Q :=
  match d with
  | inl d => XmonDims.arm_width d
  | inr d => CouplerXmonDims.arm_width d
  end.

Definition dims_pad_head_size (d : XmonDims.t + CouplerXmonDims.t) : Q :=
  match d with
  | inl d => XmonDims.pad_head_size d
  | inr d => CouplerXmonDims.pad_head_size d
  end.

Definition _generate (arm_width pad_head_size : Q) (_arm_lengths : gmap Z Q)
    : result (list (JJChain.rect * Z)) :=
  let c := arm_width / 2 in
  foldM (λ patches angle,
    arm_l ← getitem _arm_lengths angle;
    let pad_x := c + arm_l in
    let pad_w := pad_head_size / (3 # 2) in
    let pad_h := pad_head_size in
    Ok (patches ++ [((c, - c, arm_l, arm_width), angle);
                    ((pad_x, - pad_h / 2, pad_w, pad_h), angle)]))
    [((- c, - c, arm_width, arm_width), 0%Z)]
    [0; 90; 180; 270]%Z.

Definition init (dims : option (XmonDims.t + CouplerXmonDims.t))
    (arm_lengths : option (gmap Z Q)) : result t :=
  let dims := match dims with Some d => d | None => inl XmonDims.default end in
  let _arm_lengths : gmap Z Q :=
    match arm_lengths, dims with
    | Some al, _ => al
    | None, inr d =>
        let long_len := CouplerXmonDims.long_arm_len d in
        let short_len := CouplerXmonDims.short_arm_len d in
        <[270%Z := short_len]> (<[90%Z := short_len]>
          (<[180%Z := long_len]> (<[0%Z := long_len]> ∅)))
    | None, inl d =>
        let default_len := XmonDims.arm_len d in
        <[270%Z := default_len]> (<[180%Z := default_len]>
          (<[90%Z := default_len]> (<[0%Z := default_len]> ∅)))
    end in
  patches ← _generate (dims_arm_width dims) (dims_pad_head_size dims) _arm_lengths;
  Ok (mk dims (dims_arm_width dims) (dims_pad_head_size dims) _arm_lengths patches).
End Xmon.

(** ** qubits.py: the two composites *)

Module FluxoniumQubit.
Record t : Type := mk
  { dims : FluxoniumDims.t;
    _xmon : Xmon.t;
    _chain : JJChain.t;
    (* JosephsonJunction(width=6, height=10) *)
    _jj : Q * Q }.

Definition init (dims : option FluxoniumDims.t) : result t :=
  let dims := match dims with Some d => d | None => FluxoniumDims.default end in
  xmon ← Xmon.init (Some (inl (FluxoniumDims.xmon dims))) None;
  chain ← JJChain.init (Some (FluxoniumDims.chain dims));
  Ok (mk dims xmon chain (6, 10)%Q).
End FluxoniumQubit.

Module TunableTransmonCoupler.
Record t : Type := mk
  { dims : TunableTransmonDims.t;
    _xmon : Xmon.t;
    _squid : DCSqUIDDims.t;
    _resonator : ResonatorDims.t;
    _flux_line : FluxLineDims.t;
    _squid_angle : Z;
    _res_angle : Z }.

Definition _SHORT_ARM_ANGLES : gmap Z Z := <[1%Z := 270%Z]> (<[0%Z := 90%Z]> ∅).

Definition init (dims : option TunableTransmonDims.t) : result t :=
  let dims :=
    match dims with Some d => d | None => TunableTransmonDims.default end in
  xmon ← Xmon.init (Some (inr (TunableTransmonDims.xmon dims))) None;
  squid_angle ← getitem _SHORT_ARM_ANGLES (TunableTransmonDims.squid_arm_index dims);
  res_angle ← getitem _SHORT_ARM_ANGLES (TunableTransmonDims.resonator_arm_index dims);
  Ok (mk dims xmon (TunableTransmonDims.dc_squid dims)
        (TunableTransmonDims.resonator dims)
        (TunableTransmonDims.flux_line dims) squid_angle res_angle).

(** The first step of [place]: which short arm carries what.
    Returns [(squid_angle, res_angle)]. *)
Definition resolve_arms (self : t) (mirror : bool) : Z * Z :=
  if mirror then (_res_angle self, _squid_angle self)
  else (_squid_angle self, _res_angle self).

(** The global direction of the arm that carries the resonator, for a
    coupler placed at rotation [angle]: [place] puts the resonator at
    [rot(angle) @ arm_tip(res_angle)]. *)
Definition resonator_arm_direction (self : t) (angle : Z) (mirror : bool) : Z :=
  ((angle + (resolve_arms self mirror).2) `mod` 360)%Z.
End TunableTransmonCoupler.

(** ** lattice.py: the square-lattice layout engine *)

Module SquareLattice.
Local Open Scope Z_scope.

(** The value stored per edge: [{"xy": pos, "direction": ...}]. *)
Record edge_info : Type := mk_edge { xy : Q * Q; direction : string }.

Record t : Type := mk
  { cfg : LatticeConfig.t;
    fluxonium_dims : FluxoniumDims.t;
    coupler_dims : TunableTransmonDims.t;
    _data_qubit : FluxoniumQubit.t;
    _coupler : TunableTransmonCoupler.t;
    _site_positions : gmap (Z * Z) (Q * Q);
    _edge_positions : gmap ((Z * Z) * (Z * Z)) edge_info }.

Definition _edge_angle (direction : string) : result Z :=
  getitem (<["vertical" := 90]> (<["horizontal" := 0]> (∅ : gmap string Z)))
          direction.

Definition _compute_min_pitch (pad_gap : Q) (fluxonium_dims : FluxoniumDims.t)
    (coupler_dims : TunableTransmonDims.t) : Q :=
  let fx := FluxoniumDims.xmon fluxonium_dims in
  let fx_tip := (XmonDims.arm_width fx / 2 + XmonDims.arm_len fx
                 + XmonDims.pad_head_size fx / (3 # 2))%Q in
  let tx := TunableTransmonDims.xmon coupler_dims in
  let tx_tip := (CouplerXmonDims.arm_width tx / 2 + CouplerXmonDims.long_arm_len tx
                 + CouplerXmonDims.pad_head_size tx / (3 # 2))%Q in
  (2 * (fx_tip + tx_tip + pad_gap))%Q.

(** [(a + b) / 2] on two-component arrays. *)
Definition midpoint (a b : Q * Q) : Q * Q :=
  ((a.1 + b.1) / 2, (a.2 + b.2) / 2)%Q.

Definition site_xy (p : Q) (r c : Z) : Q * Q :=
  (inject_Z c * p, inject_Z r * p)%Q.

(** The three loops of [_build_positions], on the two dicts of [self]. *)
Definition _build_sites (cfg : LatticeConfig.t)
    (sites : gmap (Z * Z) (Q * Q)) : gmap (Z * Z) (Q * Q) :=
  let p := LatticeConfig.pitch cfg in
  foldl (λ sites r,
    foldl (λ sites c, <[(r, c) := site_xy p r c]> sites)
          sites (seqZ 0 (LatticeConfig.cols cfg)))
    sites (seqZ 0 (LatticeConfig.rows cfg)).

Definition _build_h_edges (cfg : LatticeConfig.t)
    (sites : gmap (Z * Z) (Q * Q))
    (edges : gmap ((Z * Z) * (Z * Z)) edge_info)
    : result (gmap ((Z * Z) * (Z * Z)) edge_info) :=
  foldM (λ edges r,
    foldM (λ edges c,
      a ← getitem sites (r, c);
      b ← getitem sites (r, c + 1);
      let pos := midpoint a b in
      Ok (<[((r, c), (r, c + 1)) := mk_edge pos "horizontal"]> edges))
      edges (seqZ 0 (LatticeConfig.cols cfg - 1)))
    edges (seqZ 0 (LatticeConfig.rows cfg)).

Definition _build_v_edges (cfg : LatticeConfig.t)
    (sites : gmap (Z * Z) (Q * Q))
    (edges : gmap ((Z * Z) * (Z * Z)) edge_info)
    : result (gmap ((Z * Z) * (Z * Z)) edge_info) :=
  foldM (λ edges r,
    foldM (λ edges c,
      a ← getitem sites (r, c);
      b ← getitem sites (r + 1, c);
      let pos := midpoint a b in
      Ok (<[((r, c), (r + 1, c)) := mk_edge pos "vertical"]> edges))
      edges (seqZ 0 (LatticeConfig.cols cfg)))
    edges (seqZ 0 (LatticeConfig.rows cfg - 1)).

Definition _build_positions (cfg : LatticeConfig.t)
    (sites : gmap (Z * Z) (Q * Q))
    (edges : gmap ((Z * Z) * (Z * Z)) edge_info)
    : result (gmap (Z * Z) (Q * Q) * gmap ((Z * Z) * (Z * Z)) edge_info) :=
  let sites := _build_sites cfg sites in
  edges ← _build_h_edges cfg sites edges;
  edges ← _build_v_edges cfg sites edges;
  Ok (sites, edges).

(** [SquareLattice(config, fluxonium_dims, coupler_dims)]. *)
Definition init (config : option LatticeConfig.t)
    (fluxonium_dims : option FluxoniumDims.t)
    (coupler_dims : option TunableTransmonDims.t) : result t :=
  let cfg := match config with Some c => c | None => LatticeConfig.default end in
  let fluxonium_dims :=
    match fluxonium_dims with Some d => d | None => FluxoniumDims.default end in
  let coupler_dims :=
    match coupler_dims with Some d => d | None => TunableTransmonDims.default end in
  let cfg :=
    if Qle_bool (LatticeConfig.pitch cfg) 0 then
      LatticeConfig.mk (LatticeConfig.rows cfg) (LatticeConfig.cols cfg)
        (_compute_min_pitch (LatticeConfig.pad_gap cfg) fluxonium_dims coupler_dims)
        (LatticeConfig.pad_gap cfg)
    else cfg in
  data_qubit ← FluxoniumQubit.init (Some fluxonium_dims);
  coupler ← TunableTransmonCoupler.init (Some coupler_dims);
  '(sites, edges) ← _build_positions cfg ∅ ∅;
  Ok (mk cfg fluxonium_dims coupler_dims data_qubit coupler sites edges).

(** The public accessors return a copy of the dict. *)
Definition site_positions (self : t) : gmap (Z * Z) (Q * Q) :=
  _site_positions self.
Definition edge_positions (self : t) : gmap ((Z * Z) * (Z * Z)) edge_info :=
  _edge_positions self.
Definition num_data_qubits (self : t) : Z :=
  LatticeConfig.rows (cfg self) * LatticeConfig.cols (cfg self).

(** *** Checkerboard cell logic *)

Definition _cell_type (r c : Z) (first_cell : string) : string :=
  if decide ((r + c) `mod` 2 = 0) then first_cell
  else if decide (first_cell = "resonator") then "flux_line" else "resonator".

(** [self._cell_type( *cell, first_cell)]: unpacking [None] is a
    [TypeError]. *)
Definition _cell_type_star (cell : option (Z * Z)) (first_cell : string)
    : result string :=
  match cell with
  | Some (r, c) => Ok (_cell_type r c first_cell)
  | None => Raise TypeError
  end.

Definition _mirror_for_edge (self : t) (edge_key : (Z * Z) * (Z * Z))
    (direction : string) (first_cell : string) : result bool :=
  let '((r1, c1), (r2, c2)) := edge_key in
  if decide (direction = "horizontal") then
    let r := r1 in
    let c := c1 in
    let cell_above :=
      if decide (r < LatticeConfig.rows (cfg self) - 1) then Some (r, c) else None in
    let cell_below := if decide (r > 0) then Some (r - 1, c) else None in
    if decide (cell_above ≠ None) then
      ct ← _cell_type_star cell_above first_cell;
      Ok (bool_decide (ct = "resonator"))
    else
      ct ← _cell_type_star cell_below first_cell;
      Ok (bool_decide (ct ≠ "resonator"))
  else
    let r := r1 in
    let c := c1 in
    let cell_right :=
      if decide (c < LatticeConfig.cols (cfg self) - 1) then Some (r, c) else None in
    let cell_left := if decide (c > 0) then Some (r, c - 1) else None in
    if decide (cell_right ≠ None) then
      ct ← _cell_type_star cell_right first_cell;
      Ok (bool_decide (ct ≠ "resonator"))
    else
      ct ← _cell_type_star cell_left first_cell;
      Ok (bool_decide (ct = "resonator")).

(** *** Drawing

    The calls on the host canvas ([ax.add_patch], [ax.text], the [place]
    of the two prototype components) are recorded as commands, in the
    order in which they are issued. *)

Inductive draw_cmd : Type :=
  | Rectangle (x y w h : Q) (facecolor : string) (alpha : Q)
  | PlaceDataQubit (xy : Q * Q)
  | PlaceCoupler (xy : Q * Q) (angle : Z) (mirror : bool)
  | Text (xy : Q * Q) (tag : string) (idx : nat).

Definition _draw_cell_shading (self : t) (origin : Q * Q)
    (first_cell : string) (alpha : Q) : list draw_cmd :=
  let '(ox, oy) := origin in
  let p := LatticeConfig.pitch (cfg self) in
  let half := (p * (46 # 100))%Q in
  let res_color := "#d0e0ff" in
  let flux_color := "#ffe0d0" in
  foldl (λ out r,
    foldl (λ out c,
      let cx := (inject_Z c * p + p / 2 + ox)%Q in
      let cy := (inject_Z r * p + p / 2 + oy)%Q in
      let ct := _cell_type r c first_cell in
      let color := if decide (ct = "resonator") then res_color else flux_color in
      out ++ [Rectangle (cx - half)%Q (cy - half)%Q (2 * half)%Q (2 * half)%Q
                        color alpha])
      out (seqZ 0 (LatticeConfig.cols (cfg self) - 1)))
    [] (seqZ 0 (LatticeConfig.rows (cfg self) - 1)).

(** Tuple order of Python on the dict keys; keys of a dict are distinct,
    so [sorted(d.items())] never compares two values. *)
Definition site_key_le (a b : Z * Z) : Prop :=
  a.1 < b.1 ∨ (a.1 = b.1 ∧ a.2 ≤ b.2).
Definition edge_key_le (a b : (Z * Z) * (Z * Z)) : Prop :=
  (a.1 ≠ b.1 ∧ site_key_le a.1 b.1) ∨ (a.1 = b.1 ∧ site_key_le a.2 b.2).

#[global] Instance site_key_le_dec a b : Decision (site_key_le a b).
Proof. unfold site_key_le. apply _. Defined.
#[global] Instance edge_key_le_dec a b : Decision (edge_key_le a b).
Proof. unfold edge_key_le. apply _. Defined.

Definition sorted_sites (self : t) : list ((Z * Z) * (Q * Q)) :=
  merge_sort (λ x y, site_key_le x.1 y.1) (map_to_list (_site_positions self)).
Definition sorted_edges (self : t) : list (((Z * Z) * (Z * Z)) * edge_info) :=
  merge_sort (λ x y, edge_key_le x.1 y.1) (map_to_list (_edge_positions self)).

(** The body of the coupler loop of [place], for the edge numbered [idx]. *)
Definition place_coupler (self : t) (origin : Q * Q) (labels : bool)
    (cell_pattern : option string) (first_cell : string)
    (item : nat * (((Z * Z) * (Z * Z)) * edge_info)) : result (list draw_cmd) :=
  let '(idx, (edge_key, edge_info)) := item in
  let '(ox, oy) := origin in
  let pos := xy edge_info in
  let gx := (pos.1 + ox)%Q in
  let gy := (pos.2 + oy)%Q in
  coupler_angle ← _edge_angle (direction edge_info);
  mirror ←
    (if decide (cell_pattern = Some "checkerboard") then
       _mirror_for_edge self edge_key (direction edge_info) first_cell
     else Ok false);
  Ok (PlaceCoupler (gx, gy) coupler_angle mirror ::
      (if labels then [Text (gx, gy - 30)%Q "C" idx] else [])).

Definition place (self : t) (origin : Q * Q) (labels : bool)
    (cell_pattern : option string) (first_cell : string)
    (shade_cells : bool) (shade_alpha : Q) : result (list draw_cmd) :=
  let '(ox, oy) := origin in
  let shading :=
    if shade_cells && bool_decide (cell_pattern = Some "checkerboard") then
      _draw_cell_shading self origin first_cell shade_alpha
    else [] in
  let qubits :=
    mjoin (imap (λ idx '((r, c), pos),
      let gx := (pos.1 + ox)%Q in
      let gy := (pos.2 + oy)%Q in
      PlaceDataQubit (gx, gy) ::
      (if labels then [Text (gx, gy - 40)%Q "D" idx] else []))
      (sorted_sites self)) in
  couplers ← mapM (place_coupler self origin labels cell_pattern first_cell)
                  (imap (λ idx e, (idx, e)) (sorted_edges self));
  Ok (shading ++ qubits ++ mjoin couplers).

(** [place(ax)] with the default keyword arguments. *)
Definition place_default (self : t) : result (list draw_cmd) :=
  place self (0, 0)%Q false (Some "checkerboard") "resonator" true (15 # 100).
End SquareLattice.

(** ** Sequences indexed as Python does *)

(** [l[i]]: a negative index counts from the end, [IndexError] outside. *)
Definition py_index {A} (l : list A) (i : Z) : result A :=
  let n := Z.of_nat (length l) in
  let j := if decide (i < 0)%Z then (i + n)%Z else i in
  if decide (0 ≤ j < n)%Z then
    match l !! Z.to_nat j with
    | Some a => Ok a
    | None => Raise IndexError
    end
  else Raise IndexError.

(** Vectors of the plane over [R]. *)
Module Vec.
Local Open Scope R_scope.
Abbreviation t := (R * R)%type.
Definition sub (a b : t) : t := (a.1 - b.1, a.2 - b.2).
Definition add (a b : t) : t := (a.1 + b.1, a.2 + b.2).
Definition scale (a : t) (k : R) : t := (a.1 * k, a.2 * k).
Definition div (a : t) (k : R) : t := (a.1 / k, a.2 / k).
(** [np.linalg.norm] of a row, [math.hypot]. *)
Definition norm (a : t) : R := sqrt (a.1 * a.1 + a.2 * a.2).
(** Rotation by a quarter turn counter-clockwise: [(-ty, tx)]. *)
Definition ccw (a : t) : t := (- a.2, a.1).
Definition is_unit (a : t) : Prop := a.1 * a.1 + a.2 * a.2 = 1.
End Vec.

(** ** primitives.py: the ribbon of [Resonator.place]

    The tangent and normal computation on the centreline, after the flat
    end has been appended. *)

Module Resonator.
Local Open Scope R_scope.




End Resonator.

(** ** visualization_3d/primitives.py: mesh builders

    A mesh is given by its vertices, ring by ring; the faces, which are
    tuples of these vertices, are not part of the model. *)

Module Mesh3D.
Local Open Scope R_scope.

Definition vertex : Type := R * R * R.

(** The tangent at index [i] of [create_extruded_path], before
    normalisation: one-sided at the two ends, centred inside. *)
Definition raw_tangent (pts : list Vec.t) (i : nat) : result Vec.t :=
  let n := length pts in
  p ← py_index pts (Z.of_nat i);
  if decide (i = 0%nat) then
    q ← py_index pts 1;
    Ok (Vec.sub q p)
  else if decide (i = (n - 1)%nat) then
    q ← py_index pts (Z.of_nat i - 1);
    Ok (Vec.sub p q)
  else
    a ← py_index pts (Z.of_nat i + 1);
    b ← py_index pts (Z.of_nat i - 1);
    Ok (Vec.sub a b).

(** [tlen = math.hypot(tx, ty)]; below [1e-9] the tangent is replaced
    by [(1.0, 0.0)]. *)
Definition unit_tangent (tg : Vec.t) : Vec.t :=
  let tlen := Vec.norm tg in
  if Rlt_dec tlen (1 / 10 ^ 9) then (1, 0) else Vec.div tg tlen.

(** One ring: [(v_bl, v_br, v_tr, v_tl)]. *)
Definition ring : Type := vertex * vertex * vertex * vertex.

Definition ring_at (p : Vec.t) (tg : Vec.t) (hw hh : R) : ring :=
  let '(px, py) := p in
  let '(nx, ny) := Vec.ccw (unit_tangent tg) in
  ((px + nx * hw, py + ny * hw, - hh),
   (px - nx * hw, py - ny * hw, - hh),
   (px - nx * hw, py - ny * hw, hh),
   (px + nx * hw, py + ny * hw, hh)).

(** The rings of [create_extruded_path]; [None] when there are fewer
    than two points. *)
Definition create_extruded_path (points_2d : list Vec.t) (width height : R)
    : result (option (list ring)) :=
  let pts := points_2d in
  let n := length pts in
  if decide (n < 2)%nat then Ok None else
  let hw := width / 2 in
  let hh := height / 2 in
  rings ← mapM (λ i,
    p ← py_index pts (Z.of_nat i);
    tg ← raw_tangent pts i;
    Ok (ring_at p tg hw hh)) (seq 0 n);
  Ok (Some rings).

(** [np.linspace(start, stop, num)]. *)
Definition linspace (start stop : R) (num : nat) : list R :=
  match num with
  | 1%nat => [start]
  | _ => map (λ i, start + INR i * ((stop - start) / (INR num - 1))) (seq 0 num)
  end.

(** The closure [sigmoid_z] of [create_dolan_bridge], with the variables
    it captures as parameters. *)
Definition sigmoid_z (total_length h_step overlap_len steepness x : R) : R :=
  let left_step := - total_length / 2 + overlap_len in
  let right_step := total_length / 2 - overlap_len in
  let s_left := 1 / (1 + exp (steepness * (x - left_step))) in
  let s_right := 1 / (1 + exp (- steepness * (x - right_step))) in
  h_step * (s_left + s_right).

Record bridge_mesh : Type := mk_bridge
  { bot_rows : list (vertex * vertex);     (* (v_bl, v_br) *)
    top_rows : list (vertex * vertex) }.   (* (v_tl, v_tr) *)

Definition create_dolan_bridge
    (total_length width h_step thickness overlap_len steepness : R)
    (res_x : nat) : bridge_mesh :=
  let xs := linspace (- total_length / 2) (total_length / 2) res_x in
  let hy := width / 2 in
  foldl (λ m x,
    let zb := sigmoid_z total_length h_step overlap_len steepness x in
    let zt := zb + thickness in
    mk_bridge (bot_rows m ++ [((x, - hy, zb), (x, hy, zb))])
              (top_rows m ++ [((x, - hy, zt), (x, hy, zt))]))
    (mk_bridge [] []) xs.

(** The logistic function the specification calls [sigmoid]. *)
Definition sigmoid (t : R) : R := 1 / (1 + exp (- t)).

(** The bottom height as the specification writes it. *)
Definition spec_bottom_height
    (total_length h_step overlap_len steepness x : R) : R :=
  let left_step := - total_length / 2 + overlap_len in
  let right_step := total_length / 2 - overlap_len in
  h_step * (sigmoid (steepness * (x - left_step))
            + sigmoid (- steepness * (x - right_step))).

(** The same with the two signs as the code has them. *)
Definition code_bottom_height
    (total_length h_step overlap_len steepness x : R) : R :=
  let left_step := - total_length / 2 + overlap_len in
  let right_step := total_length / 2 - overlap_len in
  h_step * (sigmoid (- steepness * (x - left_step))
            + sigmoid (steepness * (x - right_step))).
End Mesh3D.

(** ** Closed forms used to state the properties *)




(** The point and the finite-difference tangent at index [i] of a
    polyline, as total functions: one-sided at the two ends, centred
    inside. *)
Definition point_at (pts : list Vec.t) (i : nat) : Vec.t :=
  default (0%R, 0%R) (pts !! i).

Definition tangent_at (pts : list Vec.t) (i : nat) : Vec.t :=
  if decide (i = 0%nat) then Vec.sub (point_at pts 1) (point_at pts 0)
  else if decide (i = (length pts - 1)%nat)
       then Vec.sub (point_at pts i) (point_at pts (i - 1))
       else Vec.sub (point_at pts (i + 1)) (point_at pts (i - 1)).

(** The two cell types of the checkerboard. *)
Definition is_cell_kind (s : string) : Prop :=
  s = "resonator" ∨ s = "flux_line".

(** The index pairs visited by two nested [range] loops, in order. *)
Definition grid (R C : Z) : list (Z * Z) :=
  r ← seqZ 0 R; (λ c, (r, c)) <$> seqZ 0 C.

(** The items assigned by the three loops of [_build_positions]. *)
Definition site_item (p : Q) (rc : Z * Z) : (Z * Z) * (Q * Q) :=
  (rc, SquareLattice.site_xy p rc.1 rc.2).

Definition h_edge_item (p : Q) (rc : Z * Z)
    : ((Z * Z) * (Z * Z)) * SquareLattice.edge_info :=
  ((rc, (rc.1, rc.2 + 1)%Z),
   SquareLattice.mk_edge
     (SquareLattice.midpoint (SquareLattice.site_xy p rc.1 rc.2)
                             (SquareLattice.site_xy p rc.1 (rc.2 + 1)))
     "horizontal").

Definition v_edge_item (p : Q) (rc : Z * Z)
    : ((Z * Z) * (Z * Z)) * SquareLattice.edge_info :=
  ((rc, (rc.1 + 1, rc.2)%Z),
   SquareLattice.mk_edge
     (SquareLattice.midpoint (SquareLattice.site_xy p rc.1 rc.2)
                             (SquareLattice.site_xy p (rc.1 + 1) rc.2))
     "vertical").

Definition site_items (cfg : LatticeConfig.t) : list ((Z * Z) * (Q * Q)) :=
  site_item (LatticeConfig.pitch cfg)
    <$> grid (LatticeConfig.rows cfg) (LatticeConfig.cols cfg).

Definition edge_items (cfg : LatticeConfig.t)
    : list (((Z * Z) * (Z * Z)) * SquareLattice.edge_info) :=
  (h_edge_item (LatticeConfig.pitch cfg)
     <$> grid (LatticeConfig.rows cfg) (LatticeConfig.cols cfg - 1))
  ++ (v_edge_item (LatticeConfig.pitch cfg)
     <$> grid (LatticeConfig.rows cfg - 1) (LatticeConfig.cols cfg)).

(** The configuration kept by [SquareLattice.init]: the same lattice size,
    and the auto-derived pitch in place of a pitch that is not positive. *)
Definition resolved_cfg (config : option LatticeConfig.t)
    (fd : option FluxoniumDims.t) (cd : option TunableTransmonDims.t)
    : LatticeConfig.t :=
  let cfg := default LatticeConfig.default config in
  if Qle_bool (LatticeConfig.pitch cfg) 0 then
    LatticeConfig.mk (LatticeConfig.rows cfg) (LatticeConfig.cols cfg)
      (SquareLattice._compute_min_pitch (LatticeConfig.pad_gap cfg)
         (default FluxoniumDims.default fd) (default TunableTransmonDims.default cd))
      (LatticeConfig.pad_gap cfg)
  else cfg.


(** * Further parts of the sources *)

From Stdlib Require Import Qminmax Qreals.

(** ** lattice.py: view limits *)

Module LatticeLimits.
Import SquareLattice.

(** [column.min()] and [column.max()] of numpy: on an empty array they
    raise [ValueError], which is [None] here. *)
Definition col_min (l : list Q) : option Q :=
  match l with
  | [] => None
  | x :: l => Some (foldl Qmin x l)
  end.

Definition col_max (l : list Q) : option Q :=
  match l with
  | [] => None
  | x :: l => Some (foldl Qmax x l)
  end.

(** [auto_lims(margin)]: [((xmin, xmax), (ymin, ymax))].  The rows of
    [all_pos] are the dict values; minimum and maximum do not depend on
    their order. *)
Definition auto_lims (self : t) (margin : Q)
    : option ((Q * Q) * (Q * Q)) :=
  let all_pos := (map_to_list (_site_positions self)).*2 in
  xmin ← col_min (all_pos.*1);
  ymin ← col_min (all_pos.*2);
  xmax ← col_max (all_pos.*1);
  ymax ← col_max (all_pos.*2);
  Some ((xmin - margin, xmax + margin), (ymin - margin, ymax + margin))%Q.
End LatticeLimits.

(** ** visualization_3d/renderer.py: the placement loops *)

Module BlenderRenderer.
Import SquareLattice.

(** The calls [fluxonium_3d.place(...)] and [coupler_3d.place(...)],
    recorded in the order in which they are issued. *)
Inductive place_cmd : Type :=
  | PlaceFluxonium3D (location : Q * Q * Q) (angle_deg : Z) (idx : nat)
  | PlaceCoupler3D (location : Q * Q * Q) (angle_deg : Z) (mirror : bool)
      (idx : nat).

Definition _draw_data_qubits (lattice : t) : list place_cmd :=
  imap (λ idx '((r, c), pos), PlaceFluxonium3D (pos.1, pos.2, 0%Q) 0 idx)
       (sorted_sites lattice).


End BlenderRenderer.

(** The commands of the 2D drawing, by kind. *)
Definition is_shading (c : SquareLattice.draw_cmd) : bool :=
  match c with SquareLattice.Rectangle _ _ _ _ _ _ => true | _ => false end.
Definition is_qubit_cmd (c : SquareLattice.draw_cmd) : bool :=
  match c with
  | SquareLattice.PlaceDataQubit _ => true
  | SquareLattice.Text _ tag _ => bool_decide (tag = "D")
  | _ => false
  end.
Definition is_coupler_cmd (c : SquareLattice.draw_cmd) : bool :=
  match c with
  | SquareLattice.PlaceCoupler _ _ _ => true
  | SquareLattice.Text _ tag _ => bool_decide (tag = "C")
  | _ => false
  end.

(** The rotation and the mirror flag of the couplers drawn, in order. *)
Definition coupler_flags_2d (cmds : list SquareLattice.draw_cmd)
    : list (Z * bool) :=
  omap (λ c, match c with
             | SquareLattice.PlaceCoupler _ a m => Some (a, m)
             | _ => None
             end) cmds.

(** The other cell type. *)
Definition other_kind (s : string) : string :=
  if decide (s = "resonator") then "flux_line" else "resonator".

(** The commands issued by [place] for the coupler numbered [idx] on an
    edge with value [v], given its rotation [a] and mirror flag [m]. *)
Definition coupler_cmds (origin : Q * Q) (labels : bool) (idx : nat)
    (v : SquareLattice.edge_info) (a : Z) (m : bool)
    : list SquareLattice.draw_cmd :=
  let gx := ((SquareLattice.xy v).1 + origin.1)%Q in
  let gy := ((SquareLattice.xy v).2 + origin.2)%Q in
  SquareLattice.PlaceCoupler (gx, gy) a m ::
  (if labels then [SquareLattice.Text (gx, gy - 30)%Q "C" idx] else []).
Arguments coupler_cmds : simpl never.

(** The rotation of the coupler on an edge value, and the mirror flag
    where [_mirror_for_edge] returns one. *)
Definition angle_of (v : SquareLattice.edge_info) : Z :=
  if decide (SquareLattice.direction v = "horizontal") then 0%Z else 90%Z.

Definition mirror_of (self : SquareLattice.t) (k : (Z * Z) * (Z * Z))
    (v : SquareLattice.edge_info) (first_cell : string) : bool :=
  match SquareLattice._mirror_for_edge self k (SquareLattice.direction v)
          first_cell with
  | Ok b => b
  | Raise _ => false
  end.

(** ** visualization_3d/components.py: the chain in 3D *)

Module JJChain3D.
Import JJChainDims.
Local Open Scope Q_scope.

Definition LAYER_H : Q := 3.
Definition BRIDGE_W_FRAC : Q := 1.
Definition SIGMOID_STEEP : Q := 2.

(** A call of [create_cuboid]: the centre along the chain before the
    rotation by [rot_z] ([cx_local]; the centre across it is 0), and the
    half-extents [(d.island_len / 2, d.width / 2, h / 2)]. *)
Record island : Type := mk_island
  { cx_local : Q; half_x : Q; half_y : Q; half_z : Q }.

(** A call of [create_dolan_bridge]: the centre along the chain before
    the rotation ([gap_centre_x]) and the keyword arguments. *)
Record bridge : Type := mk_bridge
  { gap_centre_x : Q; total_length : Q; width : Q; h_step : Q;
    thickness : Q; overlap_len : Q; steepness : Q }.

Definition island_body (d : JJChainDims.t) (st : list island * Q) (i : Z)
    : list island * Q :=
  let '(calls, x_cursor) := st in
  let unit := island_len d + gap d in
  let h := LAYER_H in
  let cx_local := x_cursor + island_len d / 2 in
  (calls ++ [mk_island cx_local (island_len d / 2) (JJChainDims.width d / 2) (h / 2)],
   x_cursor + unit).

Definition bridge_body (d : JJChainDims.t) (st : list bridge * Q) (i : Z)
    : list bridge * Q :=
  let '(calls, x_cursor) := st in
  let unit := island_len d + gap d in
  let h := LAYER_H in
  let bridge_w := JJChainDims.width d * BRIDGE_W_FRAC in
  let bridge_len := gap d + 2 * overlap d in
  let gap_centre_x := x_cursor + island_len d + gap d / 2 in
  (calls ++ [mk_bridge gap_centre_x bridge_len bridge_w (h - (5 # 100)) h
               (overlap d) SIGMOID_STEEP],
   x_cursor + unit).

(** [JJChain3D(dims).place(...)] in the frame of the chain: the cuboids,
    the bridges and the returned [total_len]. *)
Definition place (d : JJChainDims.t) : result (list island * list bridge * Q) :=
  let unit := island_len d + gap d in
  if Qeq_bool unit 0 then Raise ZeroDivisionError else
  let n_cells := py_int (length d / unit) in
  let total_len := inject_Z n_cells * unit + island_len d in
  let '(islands, _) := foldl (island_body d) ([], 0) (seqZ 0 (n_cells + 1)) in
  let '(bridges, _) := foldl (bridge_body d) ([], 0) (seqZ 0 n_cells) in
  Ok (islands, bridges, total_len).
End JJChain3D.

(** The extent [(x_min, x_max, y_min, y_max)] of a 2D rectangle, of a
    cuboid and of a bridge of the 3D chain. *)
Definition rect_extent (r : JJChain.rect) : Q * Q * Q * Q :=
  let '(x, y, w, h) := r in (x, x + w, y, y + h)%Q.



Definition extent_eq (a b : Q * Q * Q * Q) : Prop :=
  (a.1.1.1 == b.1.1.1 ∧ a.1.1.2 == b.1.1.2 ∧ a.1.2 == b.1.2 ∧ a.2 == b.2)%Q.

(** ** primitives.py: the anchor points of the cross *)

Module XmonAnchors.
Local Open Scope R_scope.

(** [np.radians]. *)
Definition radians (angle_deg : Z) : R := IZR angle_deg * PI / 180.

(** [Xmon.arm_tip(angle_deg)]; the distance from the centre is computed
    in the rationals, as the rest of the cross is. *)
Definition arm_tip_dist (self : Xmon.t) (arm_l : Q) : Q :=
  (let pad_w := Xmon.pad_head_size self / (3 # 2) in
   Xmon.arm_width self / 2 + arm_l + pad_w)%Q.

Definition arm_tip (self : Xmon.t) (angle_deg : Z) : result Vec.t :=
  arm_l ← getitem (Xmon._arm_lengths self) angle_deg;
  let dist := Q2R (arm_tip_dist self arm_l) in
  let rad := radians angle_deg in
  Ok (dist * cos rad, dist * sin rad).

(** The direction of the arm at one of the four angles. *)
Definition arm_direction (angle_deg : Z) : Vec.t :=
  if decide (angle_deg = 0%Z) then (1, 0)
  else if decide (angle_deg = 90%Z) then (0, 1)
  else if decide (angle_deg = 180%Z) then (-1, 0)
  else (0, -1).
End XmonAnchors.

(** The nine patches of a cross with the given arm lengths, in the order
    in which [_generate] appends them. *)
Definition arm_patches (w ph : Q) (arm_l : Q) (angle : Z)
    : list (JJChain.rect * Z) :=
  [((w / 2, - (w / 2), arm_l, w), angle);
   ((w / 2 + arm_l, - ph / 2, ph / (3 # 2), ph), angle)]%Q.

Definition cross_patches (w ph : Q) (l0 l90 l180 l270 : Q)
    : list (JJChain.rect * Z) :=
  (((- (w / 2), - (w / 2), w, w)%Q, 0%Z) :: arm_patches w ph l0 0)
  ++ arm_patches w ph l90 90 ++ arm_patches w ph l180 180
  ++ arm_patches w ph l270 270.

(** ** visualization_3d/primitives.py: the half bridge *)

Module HalfBridge.
Import Mesh3D.
Local Open Scope R_scope.

(** The closure [sigmoid_z] of [create_half_bridge]. *)
Definition sigmoid_z (total_length h_step overlap_len steepness x : R) : R :=
  let step_x := total_length / 2 - overlap_len in
  let s := 1 / (1 + exp (- steepness * (x - step_x))) in
  h_step * s.

Definition create_half_bridge
    (total_length width h_step thickness overlap_len steepness : R)
    (res_x : nat) : bridge_mesh :=
  let xs := linspace (- total_length / 2) (total_length / 2) res_x in
  let hy := width / 2 in
  foldl (λ m x,
    let zb := sigmoid_z total_length h_step overlap_len steepness x in
    let zt := zb + thickness in
    mk_bridge (bot_rows m ++ [((x, - hy, zb), (x, hy, zb))])
              (top_rows m ++ [((x, - hy, zt), (x, hy, zt))]))
    (mk_bridge [] []) xs.
End HalfBridge.

(** The sample number [i] of [np.linspace(start, stop, num)]. *)
Definition sample (start stop : R) (num i : nat) : R :=
  (start + INR i * ((stop - start) / (INR num - 1)))%R.

(** The two vertices of a row at [x] with height [z]. *)
Definition row_at (w x z : R) : Mesh3D.vertex * Mesh3D.vertex :=
  ((x, - (w / 2), z), (x, w / 2, z))%R.

(** ** visualization_3d/primitives.py: the faces of the meshes

    A vertex handle is the number of the [bm.verts.new] call that made
    the vertex; [bm.faces.new] appends a face.  (bmesh itself refuses a
    face on the vertices of an existing face; the faces built here are
    shown to be on pairwise different vertex sets.) *)

Module MeshFaces.
Local Open Scope nat_scope.

Definition vert : Type := nat.
Definition face : Type := (vert * vert * vert * vert)%type.

(** The four quads that stitch one cross-section to the next. *)
Definition stitch (bl0 br0 tr0 tl0 bl1 br1 tr1 tl1 : vert) : list face :=
  [(bl0, br0, br1, bl1);    (* bottom *)
   (tl0, tl1, tr1, tr0);    (* top *)
   (bl0, bl1, tl1, tl0);    (* left wall *)
   (br0, tr0, tr1, br1)].   (* right wall *)

(** [create_extruded_path]: the handles in [rings], one tuple
    [(v_bl, v_br, v_tr, v_tl)] per point, and the faces. *)
Definition path_rings (n : nat) : list (vert * vert * vert * vert) :=
  (λ i, (4 * i, 4 * i + 1, 4 * i + 2, 4 * i + 3)%nat) <$> seq 0 n.

Definition path_faces (rings : list (vert * vert * vert * vert))
    : result (list face) :=
  let n := Z.of_nat (length rings) in
  faces ← foldM (λ faces i,
      '(bl0, br0, tr0, tl0) ← py_index rings i;
      '(bl1, br1, tr1, tl1) ← py_index rings (i + 1);
      Ok (faces ++ stitch bl0 br0 tr0 tl0 bl1 br1 tr1 tl1))
    [] (seqZ 0 (n - 1));
  '(bl, br, tr, tl) ← py_index rings 0;
  let faces := faces ++ [(bl, tl, tr, br)] in
  '(bl, br, tr, tl) ← py_index rings (-1);
  Ok (faces ++ [(bl, br, tr, tl)]).

(** [create_dolan_bridge] and [create_half_bridge]: the handles in
    [bot_rows], tuples [(v_bl, v_br)], and in [top_rows], tuples
    [(v_tl, v_tr)], and the faces. *)
Definition bridge_rows (res_x : nat)
    : list (vert * vert) * list (vert * vert) :=
  ((λ i, (4 * i, 4 * i + 1)%nat) <$> seq 0 res_x,
   (λ i, (4 * i + 2, 4 * i + 3)%nat) <$> seq 0 res_x).

Definition bridge_faces (bot_rows top_rows : list (vert * vert))
    : result (list face) :=
  let n := Z.of_nat (length bot_rows) in
  faces ← foldM (λ faces i,
      '(bl0, br0) ← py_index bot_rows i;
      '(bl1, br1) ← py_index bot_rows (i + 1);
      '(tl0, tr0) ← py_index top_rows i;
      '(tl1, tr1) ← py_index top_rows (i + 1);
      Ok (faces ++ stitch bl0 br0 tr0 tl0 bl1 br1 tr1 tl1))
    [] (seqZ 0 (n - 1));
  '(bl0, br0) ← py_index bot_rows 0;
  '(tl0, tr0) ← py_index top_rows 0;
  let faces := faces ++ [(bl0, tl0, tr0, br0)] in
  '(bl_n, br_n) ← py_index bot_rows (-1);
  '(tl_n, tr_n) ← py_index top_rows (-1);
  Ok (faces ++ [(bl_n, br_n, tr_n, tl_n)]).

(** The directed edges of a face, in the order of its vertices, and the
    set of its vertices. *)
Definition face_edges (f : face) : list (vert * vert) :=
  let '(a, b, c, d) := f in [(a, b); (b, c); (c, d); (d, a)].

Definition face_verts (f : face) : gset vert :=
  let '(a, b, c, d) := f in {[a; b; c; d]}.

Definition mesh_edges (faces : list face) : list (vert * vert) :=
  faces ≫= face_edges.

(** A closed, consistently oriented surface on the vertices [0 .. nv − 1]:
    every face is on known vertices, no two faces are on the same
    vertices, no directed edge occurs twice, and each occurs in the
    opposite direction as well. *)
Definition closed_surface (nv : nat) (faces : list face) : Prop :=
  (∀ f v, f ∈ faces → v ∈ face_verts f → (v < nv)%nat) ∧
  NoDup (face_verts <$> faces) ∧
  NoDup (mesh_edges faces) ∧
  (∀ a b, (a, b) ∈ mesh_edges faces → (b, a) ∈ mesh_edges faces).

(** The faces of a strip of [n] cross-sections whose corners are numbered
    [4·i], [4·i + 1], [4·i + tr], [4·i + tl]. *)
Definition strip_stitch (tr tl i : nat) : list face :=
  stitch (4 * i) (4 * i + 1) (4 * i + tr) (4 * i + tl)
         (4 * S i) (4 * S i + 1) (4 * S i + tr) (4 * S i + tl).

Definition strip_caps (tr tl n : nat) : list face :=
  [(0, 0 + tl, 0 + tr, 0 + 1);
   (4 * (n - 1), 4 * (n - 1) + 1, 4 * (n - 1) + tr, 4 * (n - 1) + tl)]%nat.

Definition strip_faces (tr tl n : nat) : list face :=
  (seq 0 (n - 1) ≫= strip_stitch tr tl) ++ strip_caps tr tl n.
End MeshFaces.



(** ** visualization_3d/components.py: the cross and the SQUID in 3D *)

Module Xmon3D.
Local Open Scope Q_scope.

Record t : Type := mk
  { dims : XmonDims.t + CouplerXmonDims.t;
    _arm_lengths : gmap Z Q }.

Definition init (dims : XmonDims.t + CouplerXmonDims.t) : t :=
  let _arm_lengths : gmap Z Q :=
    match dims with
    | inr d =>
        let long_len := CouplerXmonDims.long_arm_len d in
        let short_len := CouplerXmonDims.short_arm_len d in
        <[270%Z := short_len]> (<[90%Z := short_len]>
          (<[180%Z := long_len]> (<[0%Z := long_len]> ∅)))
    | inl d =>
        let default_len := XmonDims.arm_len d in
        <[270%Z := default_len]> (<[180%Z := default_len]>
          (<[90%Z := default_len]> (<[0%Z := default_len]> ∅)))
    end in
  mk dims _arm_lengths.

(** A call of [create_cuboid] in the frame of its arm: the centre along
    the arm before [_rot2d] ([arm_cx_local], [pad_cx_local]; 0 for the
    centre square), the half-extents, and the angle of the arm, which is
    added to [rot]. *)
Record cuboid : Type := mk_cuboid
  { cx_local : Q; half_x : Q; half_y : Q; half_z : Q; angle : Z }.

Definition place (self : t) : result (list cuboid) :=
  let h := JJChain3D.LAYER_H in
  let aw := Xmon.dims_arm_width (dims self) in
  let c := aw / 2 in
  let pad_h := Xmon.dims_pad_head_size (dims self) in
  foldM (λ out angle,
    arm_l ← getitem (_arm_lengths self) angle;
    let arm_cx_local := c + arm_l / 2 in
    let pad_w := pad_h / (3 # 2) in
    let pad_cx_local := c + arm_l + pad_w / 2 in
    Ok (out ++ [mk_cuboid arm_cx_local (arm_l / 2) c (h / 2) angle;
                mk_cuboid pad_cx_local (pad_w / 2) (pad_h / 2) (h / 2) angle]))
    [mk_cuboid 0 c c (h / 2) 0]
    [0; 90; 180; 270]%Z.
End Xmon3D.

Definition cuboid_extent (c : Xmon3D.cuboid) : Q * Q * Q * Q :=
  (Xmon3D.cx_local c - Xmon3D.half_x c, Xmon3D.cx_local c + Xmon3D.half_x c,
   - Xmon3D.half_y c, Xmon3D.half_y c)%Q.

(** A half bridge laid along an axis: the position of its centre on the
    axis, its length and overlap, and whether it is turned by a half turn
    ([rotation_euler = (0, 0, rot + math.pi)]), so that its local +X end
    points down the axis. *)
Record half_bridge_call : Type := mk_half_bridge
  { hb_centre : Q; hb_total_length : Q; hb_overlap_len : Q; hb_turned : bool }.

(** The positions on the axis of the two ends of a half bridge and of the
    middle of its step ([step_x] in the frame of the bridge). *)
Definition hb_low_end (b : half_bridge_call) : Q :=
  (if hb_turned b then hb_centre b + hb_total_length b / 2
   else hb_centre b - hb_total_length b / 2)%Q.
Definition hb_high_end (b : half_bridge_call) : Q :=
  (if hb_turned b then hb_centre b - hb_total_length b / 2
   else hb_centre b + hb_total_length b / 2)%Q.
Definition hb_step (b : half_bridge_call) : Q :=
  (let step_x := hb_total_length b / 2 - hb_overlap_len b in
   if hb_turned b then hb_centre b - step_x else hb_centre b + step_x)%Q.

Module DCSqUID3D.
Local Open Scope Q_scope.

(** One leg of [DCSqUID3D.place] in the frame of the SQUID, before
    [_rot2d]: the island cuboid [(island_cx, island_len / 2)] and the half
    bridge, both at [cy_l = sign * half_sep] across. *)
Record leg : Type := mk_leg
  { cy_l : Q; island_cx : Q; island_half_x : Q; island_half_y : Q;
    jj : half_bridge_call; jj_width : Q }.

Definition place_leg (d : DCSqUIDDims.t) (sign : Q) : leg :=
  let half_sep := DCSqUIDDims.leg_separation d / 2 in
  let jj_overlap := 3 # 2 in
  let mid_x := DCSqUIDDims.leg_length d / 2 in
  let cy_l := sign * half_sep in
  let island_len := mid_x + jj_overlap in
  let island_cx := island_len / 2 in
  let hb_len := DCSqUIDDims.leg_length d - mid_x in
  let hb_cx := mid_x + hb_len / 2 in
  mk_leg cy_l island_cx (island_len / 2) (DCSqUIDDims.leg_width d / 2)
    (mk_half_bridge hb_cx hb_len jj_overlap true)
    (DCSqUIDDims.leg_width d * JJChain3D.BRIDGE_W_FRAC).

(** The U-bar: [(ub_cx_l, half-extent along, half-extent across)]. *)
Definition place_u_bar (d : DCSqUIDDims.t) : Q * Q * Q :=
  let half_sep := DCSqUIDDims.leg_separation d / 2 in
  (DCSqUIDDims.leg_length d, DCSqUIDDims.u_bar_width d / 2,
   half_sep + DCSqUIDDims.leg_width d / 2).

Definition place (d : DCSqUIDDims.t) : list leg * (Q * Q * Q) :=
  ((λ sign, place_leg d sign) <$> [-1; 1], place_u_bar d).
End DCSqUID3D.

(** ** primitives.py: the SQUID in 2D *)

Module DCSqUID.
Local Open Scope Q_scope.

(** The rectangles stamped by [DCSqUID.place], in the frame of the
    SQUID: the two legs, the U-bar, the two junctions. *)
Definition place (d : DCSqUIDDims.t)
    : list JJChain.rect * JJChain.rect * list JJChain.rect :=
  let half_sep := DCSqUIDDims.leg_separation d / 2 in
  let hw := DCSqUIDDims.leg_width d / 2 in
  let legs := (λ sign : Q,
    let cy := sign * half_sep in
    (0, cy - hw, DCSqUIDDims.leg_length d, DCSqUIDDims.leg_width d)) <$> [-1; 1] in
  let u_hw := DCSqUIDDims.u_bar_width d / 2 in
  let u_bar := (DCSqUIDDims.leg_length d - u_hw, - half_sep,
                DCSqUIDDims.u_bar_width d, DCSqUIDDims.leg_separation d) in
  let jjs := (λ sign : Q,
    let jj_x := DCSqUIDDims.leg_length d / 2 - DCSqUIDDims.junction_width d / 2 in
    let jj_y := sign * half_sep - DCSqUIDDims.junction_height d / 2 in
    (jj_x, jj_y, DCSqUIDDims.junction_width d, DCSqUIDDims.junction_height d))
    <$> [-1; 1] in
  (legs, u_bar, jjs).
End DCSqUID.

(** ** visualization_3d/components.py: the connector of the fluxonium *)

Module Fluxonium3DConnector.
Local Open Scope Q_scope.

(** The connector at the far end of the two chains, along the axis of
    the bar: positions are the factors of [bar_unit] in
    [island_center = bar_center + bar_unit * (bar_len / 4 - overlap / 2)]
    and [hb_center = bar_center - bar_unit * bar_len / 4]. *)
Record t : Type := mk
  { bar_len : Q;
    island_centre : Q; island_half_x : Q; island_half_y : Q;
    bridge : half_bridge_call; bridge_w : Q }.

Definition place (d : FluxoniumDims.t) : t :=
  let bar_len := FluxoniumDims.chain_separation d + FluxoniumDims.connector_bar_extra d in
  let bar_h := FluxoniumDims.connector_bar_height d in
  let overlap := JJChainDims.overlap (FluxoniumDims.chain d) in
  let island_len := bar_len / 2 + overlap in
  let island_center := bar_len / 4 - overlap / 2 in
  let hb_len := bar_len / 2 in
  let hb_center := - (bar_len / 4) in
  let bridge_w := bar_h * JJChain3D.BRIDGE_W_FRAC in
  mk bar_len island_center (island_len / 2) (bar_h / 2)
     (mk_half_bridge hb_center hb_len overlap false) bridge_w.
End Fluxonium3DConnector.

(** ** qubits.py: the layout of the fluxonium

    Steps 2 and 3 of [FluxoniumQubit.place]; [Fluxonium3D.place] computes
    the same points from the length that [JJChain3D.place] returns. *)

Module FluxoniumPlace.
Local Open Scope R_scope.

Record t : Type := mk
  { chain_global_angle : R;
    vec_fwd : Vec.t; vec_perp : Vec.t;
    start_A : Vec.t; start_B : Vec.t;
    end_A : Vec.t; end_B : Vec.t;
    bar_center : Vec.t; bar_len : R;
    (* the rotation given to the connector bar, in degrees *)
    bar_angle : R }.

(** [np.radians] on a float. *)
Definition radians (deg : R) : R := deg * PI / 180.

Definition place (d : FluxoniumDims.t) (actual_len : R) (xy : Vec.t) (angle : R)
    : t :=
  let chain_global_angle := angle + Q2R (FluxoniumDims.chain_angle d) in
  let rad := radians chain_global_angle in
  let vec_fwd := (cos rad, sin rad) in
  let vec_perp := (- sin rad, cos rad) in
  let origin := xy in
  let center_start :=
    Vec.add origin (Vec.scale vec_fwd (Q2R (FluxoniumDims.chain_start_dist d))) in
  let start_A :=
    Vec.add center_start
      (Vec.scale vec_perp (Q2R (FluxoniumDims.chain_separation d) / 2)) in
  let start_B :=
    Vec.sub center_start
      (Vec.scale vec_perp (Q2R (FluxoniumDims.chain_separation d) / 2)) in
  let end_A := Vec.add start_A (Vec.scale vec_fwd actual_len) in
  let end_B := Vec.add start_B (Vec.scale vec_fwd actual_len) in
  let bar_center := Vec.div (Vec.add end_A end_B) 2 in
  let bar_len := Q2R (FluxoniumDims.chain_separation d)
                 + Q2R (FluxoniumDims.connector_bar_extra d) in
  mk chain_global_angle vec_fwd vec_perp start_A start_B end_A end_B
     bar_center bar_len (chain_global_angle + 90).
End FluxoniumPlace.

(** ** visualization_3d/renderer.py: the substrate and the whole scene *)

Module BlenderRender.
Import SquareLattice.
Local Open Scope Q_scope.


End BlenderRender.
(** * Properties *)

(** ** Evaluation on concrete inputs *)

Section Evaluation.
Import SquareLattice.

(** The preset chain: six islands every 35 units, five bridges. *)
Example generate_default_islands :
  match JJChain._generate JJChainDims.default with
  | Ok chain =>
      (JJChain._islands chain).*1.*1.*1 = [0; 35; 70; 105; 140; 175]%Q ∧
      (JJChain._bridges chain).*1.*1.*1 = [14; 49; 84; 119; 154]%Q ∧
      JJChain.total_length chain = 195%Q
  | Raise _ => False
  end.
Proof. vm_compute. done. Qed.

(** [int] truncates toward zero. *)
Example py_int_truncates :
  py_int (7 # 2) = 3%Z ∧ py_int (-7 # 2) = (-3)%Z ∧ Qfloor (-7 # 2) = (-4)%Z.
Proof. done. Qed.

(** A 2 × 2 lattice: the order in which [place] visits the edges, and
    the commands it issues for the four couplers after one shading
    rectangle and four data qubits. *)
Example sorted_edges_square :
  match init (Some (LatticeConfig.mk 2 2 100 20)) None None with
  | Ok self =>
      (sorted_edges self).*1
      = [((0, 0), (0, 1)); ((0, 0), (1, 0)); ((0, 1), (1, 1)); ((1, 0), (1, 1))]%Z
  | Raise _ => False
  end.
Proof. vm_compute. reflexivity. Qed.

Example place_square :
  match init (Some (LatticeConfig.mk 2 2 100 20)) None None with
  | Ok self =>
      match place_default self with
      | Ok cmds =>
          length cmds = 9%nat ∧
          drop 5 cmds = [PlaceCoupler (100 # 2, 0 # 2)%Q 0 true;
                         PlaceCoupler (0 # 2, 100 # 2)%Q 90 false;
                         PlaceCoupler (200 # 2, 100 # 2)%Q 90 true;
                         PlaceCoupler (100 # 2, 200 # 2)%Q 0 false]
      | Raise _ => False
      end
  | Raise _ => False
  end.
Proof. vm_compute. done. Qed.

(** A zero chain period and an arm index other than 0 or 1 make the
    constructor raise. *)
Example init_zero_period :
  init None (Some (FluxoniumDims.mk XmonDims.default
                     (JJChainDims.mk 200 15 0 0 6) 40 15 (-45) 6 6)) None
  = Raise ZeroDivisionError.
Proof. reflexivity. Qed.

Example init_bad_arm_index :
  init None None
    (Some (TunableTransmonDims.mk CouplerXmonDims.default DCSqUIDDims.default
             ResonatorDims.default FluxLineDims.default 2 1))
  = Raise KeyError.
Proof. reflexivity. Qed.

End Evaluation.

(** ** Checkerboard and mirror rule *)

Section Checkerboard.
Import SquareLattice.
Local Open Scope Z_scope.

Lemma cell_type_even r c fc :
  (r + c) `mod` 2 = 0 → _cell_type r c fc = fc.
Proof. intros H. unfold _cell_type. by rewrite decide_True. Qed.

Lemma cell_type_odd r c fc :
  (r + c) `mod` 2 ≠ 0 →
  _cell_type r c fc = if decide (fc = "resonator") then "flux_line" else "resonator".
Proof. intros H. unfold _cell_type. by rewrite decide_False. Qed.

Lemma cell_type_kind r c fc : is_cell_kind fc → is_cell_kind (_cell_type r c fc).
Proof.
  intros Hfc. unfold _cell_type, is_cell_kind.
  repeat case_decide; auto.
Qed.

Lemma cell_type_flip r c r' c' fc :
  is_cell_kind fc →
  (r + c) `mod` 2 ≠ (r' + c') `mod` 2 →
  _cell_type r c fc ≠ _cell_type r' c' fc.
Proof.
  intros Hfc Hpar. unfold _cell_type.
  assert (0 ≤ (r + c) `mod` 2 < 2) by (apply Z.mod_pos_bound; lia).
  assert (0 ≤ (r' + c') `mod` 2 < 2) by (apply Z.mod_pos_bound; lia).
  destruct Hfc as [-> | ->]; repeat case_decide; (done || lia).
Qed.

Lemma parity_succ n : (n + 1) `mod` 2 ≠ n `mod` 2.
Proof.
  rewrite Z.add_mod by lia.
  assert (0 ≤ n `mod` 2 < 2) by (apply Z.mod_pos_bound; lia).
  destruct (decide (n `mod` 2 = 0)) as [-> | ?]; [done |].
  replace (n `mod` 2) with 1 by lia. done.
Qed.

(** C5: for every integer pair [(r, c)] and for both choices of
    [first_cell], [_cell_type] returns [first_cell] when [r + c] is even
    and the other type when [r + c] is odd; hence cells that are
    neighbours along a row or along a column have different types. *)
Theorem cell_type_checkerboard (r c : Z) (first_cell : string) :
  is_cell_kind first_cell →
  let other :=
    if decide (first_cell = "resonator") then "flux_line" else "resonator" in
  other ≠ first_cell ∧ is_cell_kind other ∧
  _cell_type r c first_cell = (if Z.even (r + c) then first_cell else other) ∧
  _cell_type r c first_cell ≠ _cell_type r (c + 1) first_cell ∧
  _cell_type r c first_cell ≠ _cell_type (r + 1) c first_cell.
Proof.
  intros Hfc other. repeat split.
  - subst other. destruct Hfc as [-> | ->]; by case_decide.
  - subst other. unfold is_cell_kind. case_decide; auto.
  - destruct (Z.even (r + c)) eqn:Hev.
    + apply cell_type_even. apply Z.even_spec in Hev.
      destruct Hev as [k ->]. by rewrite Z.mul_comm, Z.mod_mul.
    + apply cell_type_odd. intros Hmod.
      apply Z.mod_divide in Hmod; [| lia].
      destruct Hmod as [k Hk].
      assert (Z.even (r + c) = true); [| congruence].
      apply Z.even_spec. exists k. lia.
  - apply cell_type_flip; [done |].
    replace (r + (c + 1)) with (r + c + 1) by lia.
    intros Heq. by apply (parity_succ (r + c)).
  - apply cell_type_flip; [done |].
    replace (r + 1 + c) with (r + c + 1) by lia.
    intros Heq. by apply (parity_succ (r + c)).
Qed.

Lemma cell_type_checkerboard_witness :
  is_cell_kind "flux_line" ∧
  _cell_type 2 3 "flux_line" = "resonator" ∧
  _cell_type 2 3 "flux_line" ≠ _cell_type 2 4 "flux_line".
Proof.
  assert (Hk : is_cell_kind "flux_line") by (by right).
  pose proof (cell_type_checkerboard 2 3 "flux_line" Hk) as (_ & _ & H1 & H2 & _).
  split; [exact Hk |]. split; [exact H1 | exact H2].
Defined.

Lemma bool_decide_neq (a b : string) :
  bool_decide (a ≠ b) = negb (bool_decide (a = b)).
Proof. by repeat case_bool_decide. Qed.

(** The mirror flag on the four kinds of edges that have a neighbour cell. *)

Lemma mirror_horizontal_above (self : t) r c k fc :
  r < LatticeConfig.rows (cfg self) - 1 →
  _mirror_for_edge self ((r, c), k) "horizontal" fc
  = Ok (bool_decide (_cell_type r c fc = "resonator")).
Proof.
  intros Hr. destruct k as [r2 c2]. unfold _mirror_for_edge.
  rewrite decide_True by done. rewrite (decide_True (P := r < _)) by done.
  by rewrite decide_True.
Qed.

Lemma mirror_horizontal_below (self : t) r c k fc :
  ¬ r < LatticeConfig.rows (cfg self) - 1 → r > 0 →
  _mirror_for_edge self ((r, c), k) "horizontal" fc
  = Ok (bool_decide (_cell_type (r - 1) c fc ≠ "resonator")).
Proof.
  intros Hr Hpos. destruct k as [r2 c2]. unfold _mirror_for_edge.
  rewrite decide_True by done. rewrite (decide_False (P := r < _)) by done.
  rewrite (decide_False (P := None ≠ None)) by (by intros ?).
  by rewrite decide_True.
Qed.

Lemma mirror_horizontal_none (self : t) r c k fc :
  ¬ r < LatticeConfig.rows (cfg self) - 1 → ¬ r > 0 →
  _mirror_for_edge self ((r, c), k) "horizontal" fc = Raise TypeError.
Proof.
  intros Hr Hpos. destruct k as [r2 c2]. unfold _mirror_for_edge.
  rewrite decide_True by done. rewrite (decide_False (P := r < _)) by done.
  rewrite (decide_False (P := None ≠ None)) by (by intros ?).
  by rewrite decide_False.
Qed.

Lemma mirror_vertical_right (self : t) r c k d fc :
  d ≠ "horizontal" →
  c < LatticeConfig.cols (cfg self) - 1 →
  _mirror_for_edge self ((r, c), k) d fc
  = Ok (bool_decide (_cell_type r c fc ≠ "resonator")).
Proof.
  intros Hd Hc. destruct k as [r2 c2]. unfold _mirror_for_edge.
  rewrite decide_False by done. rewrite (decide_True (P := c < _)) by done.
  by rewrite decide_True.
Qed.

Lemma mirror_vertical_left (self : t) r c k d fc :
  d ≠ "horizontal" →
  ¬ c < LatticeConfig.cols (cfg self) - 1 → c > 0 →
  _mirror_for_edge self ((r, c), k) d fc
  = Ok (bool_decide (_cell_type r (c - 1) fc = "resonator")).
Proof.
  intros Hd Hc Hpos. destruct k as [r2 c2]. unfold _mirror_for_edge.
  rewrite decide_False by done. rewrite (decide_False (P := c < _)) by done.
  rewrite (decide_False (P := None ≠ None)) by (by intros ?).
  by rewrite decide_True.
Qed.

Lemma mirror_vertical_none (self : t) r c k d fc :
  d ≠ "horizontal" →
  ¬ c < LatticeConfig.cols (cfg self) - 1 → ¬ c > 0 →
  _mirror_for_edge self ((r, c), k) d fc = Raise TypeError.
Proof.
  intros Hd Hc Hpos. destruct k as [r2 c2]. unfold _mirror_for_edge.
  rewrite decide_False by done. rewrite (decide_False (P := c < _)) by done.
  rewrite (decide_False (P := None ≠ None)) by (by intros ?).
  by rewrite decide_False.
Qed.

End Checkerboard.

(** ** Loops over index ranges and dicts *)

Section Loops.

Lemma elem_of_grid R C r c :
  (r, c) ∈ grid R C ↔ (0 ≤ r < R ∧ 0 ≤ c < C)%Z.
Proof.
  unfold grid. rewrite list_elem_of_bind. split.
  - intros (r' & Hc & Hr). apply list_elem_of_fmap in Hc as (c' & Heq & Hc).
    simplify_eq. apply elem_of_seqZ in Hr, Hc. lia.
  - intros [Hr Hc]. exists r. split.
    + apply list_elem_of_fmap. exists c. split; [done |].
      apply elem_of_seqZ. lia.
    + apply elem_of_seqZ. lia.
Qed.

Lemma NoDup_grid R C : NoDup (grid R C).
Proof.
  unfold grid. apply NoDup_bind.
  - intros r1 r2 [r c] _ _ H1 H2.
    apply list_elem_of_fmap in H1 as (? & ? & _).
    apply list_elem_of_fmap in H2 as (? & ? & _). congruence.
  - intros r _. apply NoDup_fmap_2; [| apply NoDup_seqZ].
    intros c1 c2 ?. congruence.
  - apply NoDup_seqZ.
Qed.

Lemma NoDup_reverse {A} (l : list A) : NoDup l → NoDup (reverse l).
Proof. by rewrite reverse_Permutation. Qed.

Lemma length_bind_const {A B} (f : A → list B) (n : nat) (l : list A) :
  (∀ x, length (f x) = n) → length (l ≫= f) = (length l * n)%nat.
Proof.
  intros Hf. induction l as [| x l IH]; csimpl; [done |].
  rewrite length_app, IH, Hf. lia.
Qed.

Lemma length_grid R C : length (grid R C) = (Z.to_nat R * Z.to_nat C)%nat.
Proof.
  unfold grid. rewrite (length_bind_const _ (Z.to_nat C)).
  - by rewrite length_seqZ.
  - intros r. by rewrite length_fmap, length_seqZ.
Qed.

Lemma foldl_fmap {A B C} (f : A → C → A) (g : B → C) (a : A) (l : list B) :
  foldl f a (g <$> l) = foldl (λ a x, f a (g x)) a l.
Proof. revert a. induction l as [| x l IH]; intros a; csimpl; [done | apply IH]. Qed.

Lemma foldl_nested {A} (f : A → Z → Z → A) (a : A) (R C : Z) :
  foldl (λ a r, foldl (λ a c, f a r c) a (seqZ 0 C)) a (seqZ 0 R)
  = foldl (λ a rc, f a rc.1 rc.2) a (grid R C).
Proof.
  unfold grid. generalize (seqZ 0 R) as lr. intros lr. revert a.
  induction lr as [| r lr IH]; intros a; csimpl; [done |].
  rewrite foldl_app, foldl_fmap. simpl. apply IH.
Qed.

Lemma foldM_ok {A B} (f : B → A → result B) (g : B → A → B) (l : list A) :
  (∀ b x, x ∈ l → f b x = Ok (g b x)) →
  ∀ b, foldM f b l = Ok (foldl g b l).
Proof.
  induction l as [| x l IH]; intros Hf b; simpl; [done |].
  rewrite Hf by apply list_elem_of_here. simpl.
  apply IH. intros b' y Hy. apply Hf. by apply list_elem_of_further.
Qed.

(** A loop of dict assignments is the dict of its (reversed) item list. *)
Lemma foldl_insert_list_to_map `{Countable K} {V X}
    (key : X → K) (val : X → V) (l : list X) (m : gmap K V) :
  foldl (λ m x, <[key x := val x]> m) m l
  = list_to_map (reverse ((λ x, (key x, val x)) <$> l)) ∪ m.
Proof.
  revert m. induction l as [| x l IH]; intros m; csimpl.
  - by rewrite (left_id_L ∅ (∪)).
  - rewrite IH, reverse_cons, list_to_map_app. simpl.
    rewrite <- (assoc_L (∪)). f_equal.
    by rewrite insert_union_singleton_l, insert_empty.
Qed.

End Loops.

(** ** The site and edge maps *)

Section Positions.
Import SquareLattice.
Local Open Scope Z_scope.

Variable cfg0 : LatticeConfig.t.
Abbreviation rows := (LatticeConfig.rows cfg0).
Abbreviation cols := (LatticeConfig.cols cfg0).
Abbreviation p := (LatticeConfig.pitch cfg0).

Lemma build_sites_eq :
  _build_sites cfg0 ∅ = list_to_map (reverse (site_items cfg0)).
Proof.
  unfold _build_sites.
  rewrite (foldl_nested (λ m r c, <[(r, c) := site_xy p r c]> m)).
  rewrite (foldl_insert_list_to_map (λ rc : Z * Z, (rc.1, rc.2))
             (λ rc, site_xy p rc.1 rc.2)).
  rewrite (right_id_L ∅ (∪)). unfold site_items. f_equal. f_equal.
  apply list_fmap_ext. by intros i [r c] _.
Qed.

Lemma site_items_keys : (site_items cfg0).*1 = grid rows cols.
Proof.
  unfold site_items. rewrite <- list_fmap_compose.
  rewrite <- (list_fmap_id (grid rows cols)) at 2.
  apply list_fmap_ext. by intros i [r c] _.
Qed.

Lemma build_sites_lookup r c :
  _build_sites cfg0 ∅ !! (r, c)
  = if decide (0 ≤ r < rows ∧ 0 ≤ c < cols) then Some (site_xy p r c) else None.
Proof.
  rewrite build_sites_eq. case_decide as Hin.
  - apply elem_of_list_to_map.
    + rewrite fmap_reverse, site_items_keys. apply NoDup_reverse, NoDup_grid.
    + apply elem_of_reverse. unfold site_items. apply list_elem_of_fmap.
      exists (r, c). split; [done |]. by apply elem_of_grid.
  - apply not_elem_of_list_to_map.
    rewrite fmap_reverse, site_items_keys, elem_of_reverse.
    by rewrite elem_of_grid.
Qed.

Lemma build_sites_size :
  size (_build_sites cfg0 ∅) = (Z.to_nat rows * Z.to_nat cols)%nat.
Proof.
  rewrite build_sites_eq, map_size_list_to_map.
  - unfold site_items. by rewrite length_reverse, length_fmap, length_grid.
  - rewrite fmap_reverse, site_items_keys. apply NoDup_reverse, NoDup_grid.
Qed.

Lemma build_h_edges_eq m :
  _build_h_edges cfg0 (_build_sites cfg0 ∅) m
  = Ok (list_to_map (reverse ((h_edge_item p) <$> grid rows (cols - 1))) ∪ m).
Proof.
  unfold _build_h_edges.
  rewrite (foldM_ok _ (λ m r, foldl (λ m c,
             <[((r, c), (r, c + 1)) :=
                 mk_edge (midpoint (site_xy p r c) (site_xy p r (c + 1)))
                         "horizontal"]> m) m (seqZ 0 (cols - 1)))).
  - rewrite (foldl_nested (λ m r c, <[((r, c), (r, c + 1)) :=
                 mk_edge (midpoint (site_xy p r c) (site_xy p r (c + 1)))
                         "horizontal"]> m)).
    rewrite (foldl_insert_list_to_map
               (λ rc : Z * Z, ((rc.1, rc.2), (rc.1, rc.2 + 1)))
               (λ rc, mk_edge (midpoint (site_xy p rc.1 rc.2)
                                        (site_xy p rc.1 (rc.2 + 1))) "horizontal")).
    do 4 f_equal. apply list_fmap_ext. by intros i [r c] _.
  - intros m' r Hr. apply elem_of_seqZ in Hr.
    apply foldM_ok. intros m'' c Hc. apply elem_of_seqZ in Hc.
    unfold getitem. rewrite !build_sites_lookup.
    rewrite !decide_True by lia. done.
Qed.

Lemma build_v_edges_eq m :
  _build_v_edges cfg0 (_build_sites cfg0 ∅) m
  = Ok (list_to_map (reverse ((v_edge_item p) <$> grid (rows - 1) cols)) ∪ m).
Proof.
  unfold _build_v_edges.
  rewrite (foldM_ok _ (λ m r, foldl (λ m c,
             <[((r, c), (r + 1, c)) :=
                 mk_edge (midpoint (site_xy p r c) (site_xy p (r + 1) c))
                         "vertical"]> m) m (seqZ 0 cols))).
  - rewrite (foldl_nested (λ m r c, <[((r, c), (r + 1, c)) :=
                 mk_edge (midpoint (site_xy p r c) (site_xy p (r + 1) c))
                         "vertical"]> m)).
    rewrite (foldl_insert_list_to_map
               (λ rc : Z * Z, ((rc.1, rc.2), (rc.1 + 1, rc.2)))
               (λ rc, mk_edge (midpoint (site_xy p rc.1 rc.2)
                                        (site_xy p (rc.1 + 1) rc.2)) "vertical")).
    do 4 f_equal. apply list_fmap_ext. by intros i [r c] _.
  - intros m' r Hr. apply elem_of_seqZ in Hr.
    apply foldM_ok. intros m'' c Hc. apply elem_of_seqZ in Hc.
    unfold getitem. rewrite !build_sites_lookup.
    rewrite !decide_True by lia. done.
Qed.

Lemma build_positions_eq :
  _build_positions cfg0 ∅ ∅
  = Ok (list_to_map (reverse (site_items cfg0)), list_to_map (reverse (edge_items cfg0))).
Proof.
  unfold _build_positions.
  rewrite build_h_edges_eq. simpl. rewrite build_v_edges_eq. simpl.
  rewrite build_sites_eq. do 2 f_equal.
  rewrite (right_id_L ∅ (∪)). unfold edge_items.
  by rewrite reverse_app, list_to_map_app.
Qed.

Lemma edge_items_keys_NoDup : NoDup ((edge_items cfg0).*1).
Proof.
  unfold edge_items. rewrite fmap_app. apply NoDup_app. split_and!.
  - rewrite <- list_fmap_compose. apply NoDup_fmap_2; [| apply NoDup_grid].
    intros [r1 c1] [r2 c2]. simpl. congruence.
  - intros k Hh Hv.
    rewrite <- list_fmap_compose in Hh, Hv.
    apply list_elem_of_fmap in Hh as ([r1 c1] & -> & _).
    apply list_elem_of_fmap in Hv as ([r2 c2] & Heq & _).
    simpl in Heq. simplify_eq. lia.
  - rewrite <- list_fmap_compose. apply NoDup_fmap_2; [| apply NoDup_grid].
    intros [r1 c1] [r2 c2]. simpl. congruence.
Qed.

Lemma edges_lookup k v :
  (list_to_map (reverse (edge_items cfg0)) : gmap _ _) !! k = Some v ↔ (k, v) ∈ (edge_items cfg0).
Proof.
  rewrite <- elem_of_list_to_map.
  - apply elem_of_reverse.
  - rewrite fmap_reverse. apply NoDup_reverse, edge_items_keys_NoDup.
Qed.

Lemma edges_size :
  size (list_to_map (reverse (edge_items cfg0)) : gmap _ edge_info)
  = (Z.to_nat rows * Z.to_nat (cols - 1) + Z.to_nat (rows - 1) * Z.to_nat cols)%nat.
Proof.
  rewrite map_size_list_to_map.
  - unfold edge_items.
    by rewrite length_reverse, length_app, !length_fmap, !length_grid.
  - rewrite fmap_reverse. apply NoDup_reverse, edge_items_keys_NoDup.
Qed.

Lemma elem_of_edge_items k v :
  (k, v) ∈ (edge_items cfg0) ↔
  (∃ r c, 0 ≤ r < rows ∧ 0 ≤ c < cols - 1 ∧ k = ((r, c), (r, c + 1)) ∧
          v = mk_edge (midpoint (site_xy p r c) (site_xy p r (c + 1))) "horizontal")
  ∨ (∃ r c, 0 ≤ r < rows - 1 ∧ 0 ≤ c < cols ∧ k = ((r, c), (r + 1, c)) ∧
          v = mk_edge (midpoint (site_xy p r c) (site_xy p (r + 1) c)) "vertical").
Proof.
  unfold edge_items. rewrite elem_of_app, !list_elem_of_fmap. split.
  - intros [([r c] & Heq & Hin) | ([r c] & Heq & Hin)];
      apply elem_of_grid in Hin; unfold h_edge_item, v_edge_item in Heq;
      simpl in Heq; simplify_eq; [left | right]; exists r, c; split_and!; (done || lia).
  - intros [(r & c & Hr & Hc & -> & ->) | (r & c & Hr & Hc & -> & ->)];
      [left | right]; exists (r, c); (split; [done | by apply elem_of_grid]).
Qed.

End Positions.

(** ** Construction *)

Section Construction.
Import SquareLattice.
Local Open Scope Z_scope.

Lemma xmon_init_ok (d : XmonDims.t + CouplerXmonDims.t) :
  succeeds (Xmon.init (Some d) None).
Proof.
  unfold succeeds, Xmon.init, Xmon._generate.
  destruct d as [d | d]; simpl; unfold getitem;
    repeat (rewrite ?lookup_insert_eq; try rewrite lookup_insert_ne by done; simpl);
    eauto.
Qed.

(** The chain constructor fails exactly on a zero period. *)
Lemma jjchain_generate_ok (d : JJChainDims.t) :
  ¬ (JJChainDims.island_len d + JJChainDims.gap d == 0)%Q →
  succeeds (JJChain._generate d).
Proof.
  intros Hunit. unfold succeeds, JJChain._generate.
  destruct (Qeq_bool _ 0) eqn:Hz.
  - apply Qeq_bool_eq in Hz. contradiction.
  - destruct (foldl _ _ _) as [[islands bridges] x]. eauto.
Qed.

Lemma jjchain_generate_zero (d : JJChainDims.t) :
  (JJChainDims.island_len d + JJChainDims.gap d == 0)%Q →
  JJChain._generate d = Raise ZeroDivisionError.
Proof.
  intros Hunit. unfold JJChain._generate.
  apply Qeq_eq_bool in Hunit. by rewrite Hunit.
Qed.

Lemma short_arm_angle_ok (i : Z) :
  (i = 0 ∨ i = 1) →
  getitem TunableTransmonCoupler._SHORT_ARM_ANGLES i = Ok (if decide (i = 0) then 90 else 270).
Proof. by intros [-> | ->]. Qed.

Lemma coupler_init_ok (d : TunableTransmonDims.t) :
  (TunableTransmonDims.squid_arm_index d = 0 ∨ TunableTransmonDims.squid_arm_index d = 1) →
  (TunableTransmonDims.resonator_arm_index d = 0 ∨ TunableTransmonDims.resonator_arm_index d = 1) →
  succeeds (TunableTransmonCoupler.init (Some d)).
Proof.
  intros Hs Hr. unfold succeeds, TunableTransmonCoupler.init.
  destruct (xmon_init_ok (inr (TunableTransmonDims.xmon d))) as [x ->]. simpl.
  rewrite (short_arm_angle_ok _ Hs), (short_arm_angle_ok _ Hr). simpl. eauto.
Qed.

Lemma coupler_init_angles (d : TunableTransmonDims.t) (cpl : TunableTransmonCoupler.t) :
  TunableTransmonCoupler.init (Some d) = Ok cpl →
  TunableTransmonDims.squid_arm_index d = 0 →
  TunableTransmonDims.resonator_arm_index d = 1 →
  TunableTransmonCoupler._squid_angle cpl = 90 ∧
  TunableTransmonCoupler._res_angle cpl = 270.
Proof.
  intros Hinit Hs Hr. unfold TunableTransmonCoupler.init in Hinit.
  destruct (xmon_init_ok (inr (TunableTransmonDims.xmon d))) as [x Hx].
  rewrite Hx, Hs, Hr in Hinit. simpl in Hinit.
  by injection Hinit as <-.
Qed.

Lemma resolved_cfg_size config fd cd :
  LatticeConfig.rows (resolved_cfg config fd cd)
  = LatticeConfig.rows (default LatticeConfig.default config) ∧
  LatticeConfig.cols (resolved_cfg config fd cd)
  = LatticeConfig.cols (default LatticeConfig.default config).
Proof. unfold resolved_cfg. by destruct (Qle_bool _ _). Qed.

Lemma init_eq config fd cd :
  init config fd cd =
  (data_qubit ← FluxoniumQubit.init (Some (default FluxoniumDims.default fd));
   coupler ← TunableTransmonCoupler.init (Some (default TunableTransmonDims.default cd));
   Ok (mk (resolved_cfg config fd cd)
          (default FluxoniumDims.default fd)
          (default TunableTransmonDims.default cd)
          data_qubit coupler
          (list_to_map (reverse (site_items (resolved_cfg config fd cd))))
          (list_to_map (reverse (edge_items (resolved_cfg config fd cd)))))).
Proof.
  unfold init.
  change (match config with Some c => c | None => LatticeConfig.default end)
    with (default LatticeConfig.default config).
  change (match fd with Some d => d | None => FluxoniumDims.default end)
    with (default FluxoniumDims.default fd).
  change (match cd with Some d => d | None => TunableTransmonDims.default end)
    with (default TunableTransmonDims.default cd).
  fold (resolved_cfg config fd cd).
  destruct (FluxoniumQubit.init _) as [q |]; [| done]. simpl.
  destruct (TunableTransmonCoupler.init _) as [k |]; [| done]. simpl.
  by rewrite build_positions_eq.
Qed.

Lemma init_inv config fd cd self :
  init config fd cd = Ok self →
  cfg self = resolved_cfg config fd cd ∧
  coupler_dims self = default TunableTransmonDims.default cd ∧
  TunableTransmonCoupler.init (Some (coupler_dims self)) = Ok (_coupler self) ∧
  _site_positions self = list_to_map (reverse (site_items (cfg self))) ∧
  _edge_positions self = list_to_map (reverse (edge_items (cfg self))).
Proof.
  rewrite init_eq.
  destruct (FluxoniumQubit.init _) as [q |]; [| done]. simpl.
  destruct (TunableTransmonCoupler.init _) as [k |] eqn:Hk; [| done]. simpl.
  intros [= <-]. simpl. done.
Qed.

Lemma init_ok config fd cd :
  let chain := FluxoniumDims.chain (default FluxoniumDims.default fd) in
  let d := default TunableTransmonDims.default cd in
  ¬ (JJChainDims.island_len chain + JJChainDims.gap chain == 0)%Q →
  (TunableTransmonDims.squid_arm_index d = 0 ∨ TunableTransmonDims.squid_arm_index d = 1) →
  (TunableTransmonDims.resonator_arm_index d = 0 ∨ TunableTransmonDims.resonator_arm_index d = 1) →
  succeeds (init config fd cd).
Proof.
  intros chain d Hunit Hs Hr. rewrite init_eq.
  unfold FluxoniumQubit.init.
  destruct (xmon_init_ok (inl (FluxoniumDims.xmon (default FluxoniumDims.default fd))))
    as [x ->]. simpl.
  unfold JJChain.init. cbv beta iota.
  destruct (jjchain_generate_ok chain Hunit) as [ch Hch].
  subst chain. rewrite Hch. simpl.
  destruct (coupler_init_ok d Hs Hr) as [k Hk].
  subst d. rewrite Hk. simpl.
  unfold succeeds. eauto.
Qed.

End Construction.

(** ** The lattice as built by the constructor *)

Section LatticeTheorems.
Import SquareLattice.
Local Open Scope Z_scope.




End LatticeTheorems.

Section LatticeFailures.
Import SquareLattice.
Local Open Scope Z_scope.

Lemma init_edges_lookup config fd cd self k v :
  init config fd cd = Ok self →
  edge_positions self !! k = Some v ↔ (k, v) ∈ edge_items (cfg self).
Proof.
  intros Hinit. destruct (init_inv _ _ _ _ Hinit) as (_ & _ & _ & _ & Hedges).
  unfold edge_positions. rewrite Hedges. apply edges_lookup.
Qed.





(** A loop that raises at its first element raises. *)
Lemma mapM_raise_all {A B} (f : A → result B) (e : exn) (l : list A) :
  l ≠ [] → (∀ x, x ∈ l → f x = Raise e) → mapM f l = Raise e.
Proof.
  destruct l as [| x l]; [done |]. intros _ Hf. simpl.
  rewrite (Hf x) by apply list_elem_of_here. done.
Qed.

Lemma place_raises_when_mirror_raises (self : t) origin labels first_cell
    shade_cells shade_alpha :
  _edge_positions self ≠ ∅ →
  (∀ k v, _edge_positions self !! k = Some v →
     succeeds (_edge_angle (direction v)) ∧
     _mirror_for_edge self k (direction v) first_cell = Raise TypeError) →
  place self origin labels (Some "checkerboard") first_cell shade_cells shade_alpha
  = Raise TypeError.
Proof.
  intros Hne Hall. unfold place. destruct origin as [ox oy].
  rewrite (mapM_raise_all _ TypeError); [done | |].
  - intros Himap. apply (f_equal length) in Himap.
    rewrite length_imap in Himap. unfold sorted_edges in Himap.
    rewrite merge_sort_Permutation in Himap. simpl in Himap.
    apply Hne, map_to_list_empty_iff. by apply nil_length_inv.
  - intros [idx [k v]] Hin.
    apply elem_of_lookup_imap_1 in Hin as (i & kv & Heq & Hlk).
    simplify_eq. apply list_elem_of_lookup_2 in Hlk.
    unfold sorted_edges in Hlk. rewrite merge_sort_Permutation in Hlk.
    apply elem_of_map_to_list in Hlk.
    destruct (Hall _ _ Hlk) as [[a Ha] Hm].
    unfold place_coupler. rewrite Ha. simpl. by rewrite Hm.
Qed.

(** C9: on a lattice with one row and at least two columns every edge is
    horizontal with no cell above and none below, and [_mirror_for_edge]
    raises [TypeError] on it; the same holds for one column and at least
    two rows, on the vertical edges.  Such a lattice has an edge, so
    [place] with the checkerboard pattern raises [TypeError]. *)
Theorem place_fails_on_single_line (config : LatticeConfig.t)
    (fd : option FluxoniumDims.t) (cd : option TunableTransmonDims.t) (self : t)
    (origin : Q * Q) (labels : bool) (first_cell : string)
    (shade_cells : bool) (shade_alpha : Q) :
  init (Some config) fd cd = Ok self →
  (LatticeConfig.rows config = 1 ∧ 2 ≤ LatticeConfig.cols config) ∨
  (LatticeConfig.cols config = 1 ∧ 2 ≤ LatticeConfig.rows config) →
  edge_positions self ≠ ∅ ∧
  (∀ k v, edge_positions self !! k = Some v →
     (LatticeConfig.rows config = 1 → direction v = "horizontal") ∧
     (LatticeConfig.cols config = 1 → direction v = "vertical") ∧
     _mirror_for_edge self k (direction v) first_cell = Raise TypeError) ∧
  place self origin labels (Some "checkerboard") first_cell shade_cells shade_alpha
  = Raise TypeError ∧
  place_default self = Raise TypeError.
Proof.
  intros Hinit Hline.
  destruct (init_inv _ _ _ _ Hinit) as (Hcfg & _ & _ & _ & Hedges).
  destruct (resolved_cfg_size (Some config) fd cd) as [Hrows Hcols].
  rewrite <- Hcfg in Hrows, Hcols. simpl in Hrows, Hcols.
  assert (Hall : ∀ fc k v, edge_positions self !! k = Some v →
     (LatticeConfig.rows config = 1 → direction v = "horizontal") ∧
     (LatticeConfig.cols config = 1 → direction v = "vertical") ∧
     succeeds (_edge_angle (direction v)) ∧
     _mirror_for_edge self k (direction v) fc = Raise TypeError).
  { intros fc k v Hk. apply (init_edges_lookup _ _ _ _ _ _ Hinit) in Hk.
    apply elem_of_edge_items in Hk.
    destruct Hk as [(r & c & Hr & Hc & -> & ->) | (r & c & Hr & Hc & -> & ->)];
      cbn [direction].
    - split_and!; [done | lia | by eexists |].
      apply mirror_horizontal_none; lia.
    - split_and!; [lia | done | by eexists |].
      apply mirror_vertical_none; [done | lia | lia]. }
  assert (Hne : edge_positions self ≠ ∅).
  { destruct Hline as [[H1 H2] | [H1 H2]].
    - intros Hem.
      assert (Hk : edge_positions self !! ((0, 0), (0, 0 + 1))
                   = Some (mk_edge (midpoint (site_xy (LatticeConfig.pitch (cfg self)) 0 0)
                                             (site_xy (LatticeConfig.pitch (cfg self)) 0 (0 + 1)))
                                   "horizontal")).
      { apply (init_edges_lookup _ _ _ _ _ _ Hinit), elem_of_edge_items.
        left. exists 0, 0. split_and!; (done || lia). }
      by rewrite Hem, lookup_empty in Hk.
    - intros Hem.
      assert (Hk : edge_positions self !! ((0, 0), (0 + 1, 0))
                   = Some (mk_edge (midpoint (site_xy (LatticeConfig.pitch (cfg self)) 0 0)
                                             (site_xy (LatticeConfig.pitch (cfg self)) (0 + 1) 0))
                                   "vertical")).
      { apply (init_edges_lookup _ _ _ _ _ _ Hinit), elem_of_edge_items.
        right. exists 0, 0. split_and!; (done || lia). }
      by rewrite Hem, lookup_empty in Hk. }
  split_and!.
  - exact Hne.
  - intros k v Hk. destruct (Hall first_cell k v Hk) as (? & ? & _ & ?). done.
  - apply place_raises_when_mirror_raises; [exact Hne |].
    intros k v Hk. destruct (Hall first_cell k v Hk) as (_ & _ & Ha & Hm).
    split; [exact Ha | exact Hm].
  - apply place_raises_when_mirror_raises; [exact Hne |].
    intros k v Hk. destruct (Hall "resonator" k v Hk) as (_ & _ & Ha & Hm).
    split; [exact Ha | exact Hm].
Qed.

Lemma place_fails_on_single_line_witness :
  ∃ self, init (Some (LatticeConfig.mk 1 3 0 20)) None None = Ok self ∧
    _mirror_for_edge self ((0, 1), (0, 2)) "horizontal" "resonator" = Raise TypeError ∧
    place_default self = Raise TypeError.
Proof.
  destruct (init_ok (Some (LatticeConfig.mk 1 3 0 20)) None None)
    as [self Hinit]; [by vm_compute | by left | by right |].
  exists self. split; [exact Hinit |].
  destruct (place_fails_on_single_line _ None None self (0, 0)%Q false "resonator"
              true (15 # 100) Hinit) as (_ & Hm & _ & Hp);
    [left; simpl; lia |].
  split; [| exact Hp].
  destruct (init_inv _ _ _ _ Hinit) as (Hcfg & _).
  destruct (resolved_cfg_size (Some (LatticeConfig.mk 1 3 0 20)) None None)
    as [Hrows Hcols].
  rewrite <- Hcfg in Hrows, Hcols. simpl in Hrows, Hcols.
  set (v := mk_edge (midpoint (site_xy (LatticeConfig.pitch (cfg self)) 0 1)
                              (site_xy (LatticeConfig.pitch (cfg self)) 0 (1 + 1)))
                    "horizontal").
  assert (Hk : edge_positions self !! ((0, 1), (0, 2)) = Some v).
  { apply (init_edges_lookup _ _ _ _ _ _ Hinit), elem_of_edge_items.
    rewrite Hrows, Hcols. left. exists 0, 1. split_and!; (done || lia). }
  by destruct (Hm _ _ Hk) as (_ & _ & ?).
Defined.

End LatticeFailures.

(** ** The Josephson-junction chain *)

Section ChainFacts.
Import JJChainDims JJChain.
Local Open Scope Q_scope.



Variable d : JJChainDims.t.
Variable n_cells : Z.


End ChainFacts.

Section ChainTheorems.
Import JJChainDims JJChain.
Local Open Scope Q_scope.










End ChainTheorems.

(** ** The sigmoid bridge *)

Section BridgeFacts.
Import Mesh3D.
Local Open Scope R_scope.

Lemma logistic_pos t : 0 < 1 / (1 + exp t).
Proof.
  pose proof (exp_pos t). apply Rdiv_lt_0_compat; lra.
Qed.

Lemma logistic_lt_1 t : 1 / (1 + exp t) < 1.
Proof.
  pose proof (exp_pos t) as He.
  apply (Rmult_lt_reg_r (1 + exp t)); [lra |].
  unfold Rdiv. rewrite Rmult_assoc, Rinv_l by lra. lra.
Qed.

(** [1 / (1 + e^t) ≤ e^(−t)]. *)
Lemma logistic_le_exp t : 1 / (1 + exp t) <= exp (- t).
Proof.
  pose proof (exp_pos t) as He. rewrite exp_Ropp.
  unfold Rdiv. rewrite Rmult_1_l.
  apply Rinv_le_contravar; lra.
Qed.

(** [1 − 1 / (1 + e^t) = 1 / (1 + e^(−t))]. *)
Lemma logistic_compl t : 1 - 1 / (1 + exp t) = 1 / (1 + exp (- t)).
Proof.
  pose proof (exp_pos t) as He. rewrite exp_Ropp. field. lra.
Qed.

Lemma logistic_decreasing s t : s < t → 1 / (1 + exp t) < 1 / (1 + exp s).
Proof.
  intros Hst. pose proof (exp_pos s). pose proof (exp_increasing _ _ Hst).
  unfold Rdiv. rewrite !Rmult_1_l.
  apply Rinv_lt_contravar; [| lra].
  apply Rmult_lt_0_compat; lra.
Qed.

Lemma sigmoid_z_code L h ov k x :
  sigmoid_z L h ov k x = code_bottom_height L h ov k x.
Proof.
  unfold sigmoid_z, code_bottom_height, sigmoid. cbv zeta.
  replace (- (- k * (x - (- L / 2 + ov)))) with (k * (x - (- L / 2 + ov))) by ring.
  replace (- (k * (x - (L / 2 - ov)))) with (- k * (x - (L / 2 - ov))) by ring.
  reflexivity.
Qed.

(** The code's height and the height written in the specification are
    mirror images of each other about [h_step]. *)
Lemma sigmoid_z_plus_spec L h ov k x :
  sigmoid_z L h ov k x + spec_bottom_height L h ov k x = 2 * h.
Proof.
  unfold sigmoid_z, spec_bottom_height, sigmoid. cbv zeta.
  set (a := k * (x - (- L / 2 + ov))).
  set (b := k * (x - (L / 2 - ov))).
  replace (- k * (x - (L / 2 - ov))) with (- b) by (subst b; ring).
  rewrite Ropp_involutive.
  rewrite <- (logistic_compl a), <- (logistic_compl b). ring.
Qed.

(** Distance to [h_step] (small to the left of the left step). *)
Lemma sigmoid_z_near_left L h ov k x :
  Rabs (sigmoid_z L h ov k x - h)
  <= Rabs h * (exp (- (k * ((- L / 2 + ov) - x))) + exp (- (k * ((L / 2 - ov) - x)))).
Proof.
  unfold sigmoid_z. cbv zeta.
  set (a := k * (x - (- L / 2 + ov))).
  replace (k * (- L / 2 + ov - x)) with (- a) by (subst a; ring).
  replace (- k * (x - (L / 2 - ov))) with (k * (L / 2 - ov - x)) by ring.
  set (b := k * (L / 2 - ov - x)).
  replace (h * (1 / (1 + exp a) + 1 / (1 + exp b)) - h)
    with (h * (1 / (1 + exp b) - 1 / (1 + exp (- a))))
    by (rewrite <- (logistic_compl a); ring).
  rewrite Rabs_mult. apply Rmult_le_compat_l; [apply Rabs_pos |].
  pose proof (logistic_pos b). pose proof (logistic_le_exp b).
  pose proof (logistic_pos (- a)). pose proof (logistic_le_exp (- a)).
  apply Rabs_le. lra.
Qed.

(** Distance to [h_step] (small to the right of the right step). *)
Lemma sigmoid_z_near_right L h ov k x :
  Rabs (sigmoid_z L h ov k x - h)
  <= Rabs h * (exp (- (k * (x - (- L / 2 + ov)))) + exp (- (k * (x - (L / 2 - ov))))).
Proof.
  unfold sigmoid_z. cbv zeta.
  set (a := k * (x - (- L / 2 + ov))).
  replace (- k * (x - (L / 2 - ov))) with (- (k * (x - (L / 2 - ov)))) by ring.
  set (b := k * (x - (L / 2 - ov))).
  replace (h * (1 / (1 + exp a) + 1 / (1 + exp (- b))) - h)
    with (h * (1 / (1 + exp a) - 1 / (1 + exp b)))
    by (rewrite <- (logistic_compl b); ring).
  rewrite Rabs_mult. apply Rmult_le_compat_l; [apply Rabs_pos |].
  pose proof (logistic_pos b). pose proof (logistic_le_exp b).
  pose proof (logistic_pos a). pose proof (logistic_le_exp a).
  apply Rabs_le. lra.
Qed.

(** Distance to 0 (small between the two steps). *)
Lemma sigmoid_z_middle L h ov k x :
  Rabs (sigmoid_z L h ov k x)
  <= Rabs h * (exp (- (k * (x - (- L / 2 + ov)))) + exp (- (k * ((L / 2 - ov) - x)))).
Proof.
  unfold sigmoid_z. cbv zeta.
  set (a := k * (x - (- L / 2 + ov))).
  replace (- k * (x - (L / 2 - ov))) with (k * (L / 2 - ov - x)) by ring.
  set (b := k * (L / 2 - ov - x)).
  rewrite Rabs_mult. apply Rmult_le_compat_l; [apply Rabs_pos |].
  pose proof (logistic_pos b). pose proof (logistic_le_exp b).
  pose proof (logistic_pos a). pose proof (logistic_le_exp a).
  apply Rabs_le. lra.
Qed.

End BridgeFacts.

Section BridgeTheorems.
Import Mesh3D.
Local Open Scope R_scope.

Lemma length_linspace a b n : List.length (linspace a b n) = n.
Proof.
  unfold linspace. destruct n as [| [| n]]; [reflexivity | reflexivity |].
  rewrite length_map. apply length_seq.
Qed.

Lemma bridge_rows_fold (L w h t ov k : R) (xs : list R) (m0 : bridge_mesh) :
  foldl (λ m x,
    let zb := sigmoid_z L h ov k x in
    let zt := zb + t in
    mk_bridge (bot_rows m ++ [((x, - (w / 2), zb), (x, w / 2, zb))])
              (top_rows m ++ [((x, - (w / 2), zt), (x, w / 2, zt))])) m0 xs
  = mk_bridge
      (bot_rows m0 ++
       ((λ x, ((x, - (w / 2), sigmoid_z L h ov k x),
               (x, w / 2, sigmoid_z L h ov k x))) <$> xs))
      (top_rows m0 ++
       ((λ x, ((x, - (w / 2), sigmoid_z L h ov k x + t),
               (x, w / 2, sigmoid_z L h ov k x + t))) <$> xs)).
Proof.
  revert m0. induction xs as [| x xs IH]; intros m0; simpl.
  - destruct m0. by rewrite !app_nil_r.
  - rewrite IH. simpl. by rewrite <- !app_assoc.
Qed.

(** C2 (as the code has it): the bottom height at every sample [x] is
    [h_step · (sigmoid(−steepness·(x − left_step)) +
    sigmoid(steepness·(x − right_step)))]; its distance to [h_step] is at
    most [|h_step| · (e^(−steepness·(left_step − x)) +
    e^(−steepness·(right_step − x)))], and symmetrically on the right; its
    distance to 0 is at most [|h_step| · (e^(−steepness·(x − left_step)) +
    e^(−steepness·(right_step − x)))]; every top vertex is [thickness]
    above the bottom vertex at the same [(x, y)]. *)
Theorem dolan_bridge_profile (L w h t ov k : R) (res_x : nat) :
  let m := create_dolan_bridge L w h t ov k res_x in
  let xs := linspace (- L / 2) (L / 2) res_x in
  let left_step := - L / 2 + ov in
  let right_step := L / 2 - ov in
  let z := code_bottom_height L h ov k in
  List.length xs = res_x ∧
  bot_rows m = (λ x, ((x, - (w / 2), z x), (x, w / 2, z x))) <$> xs ∧
  top_rows m = (λ x, ((x, - (w / 2), z x + t), (x, w / 2, z x + t))) <$> xs ∧
  (∀ x, Rabs (z x - h)
        <= Rabs h * (exp (- (k * (left_step - x))) + exp (- (k * (right_step - x))))) ∧
  (∀ x, Rabs (z x - h)
        <= Rabs h * (exp (- (k * (x - left_step))) + exp (- (k * (x - right_step))))) ∧
  (∀ x, Rabs (z x)
        <= Rabs h * (exp (- (k * (x - left_step))) + exp (- (k * (right_step - x))))).
Proof.
  intros m xs left_step right_step z. split_and!.
  - apply length_linspace.
  - subst m z. unfold create_dolan_bridge. fold xs.
    rewrite bridge_rows_fold. simpl.
    apply list_fmap_ext. intros i x _. by rewrite sigmoid_z_code.
  - subst m z. unfold create_dolan_bridge. fold xs.
    rewrite bridge_rows_fold. simpl.
    apply list_fmap_ext. intros i x _. by rewrite sigmoid_z_code.
  - intros x. subst z. cbv beta. rewrite <- sigmoid_z_code.
    apply sigmoid_z_near_left.
  - intros x. subst z. cbv beta. rewrite <- sigmoid_z_code.
    apply sigmoid_z_near_right.
  - intros x. subst z. cbv beta. rewrite <- sigmoid_z_code.
    apply sigmoid_z_middle.
Qed.

(** With a positive step height and steepness and the left step left of
    the right one, the code's height is below [h_step] everywhere and the
    height of the specification's formula is above it. *)
Lemma sigmoid_z_below_spec L h ov k x :
  0 < h → 0 < k → 2 * ov < L →
  sigmoid_z L h ov k x < h ∧ h < spec_bottom_height L h ov k x.
Proof.
  intros Hh Hk Hov.
  assert (Hlt : sigmoid_z L h ov k x < h).
  { unfold sigmoid_z. cbv zeta.
    set (a := k * (x - (- L / 2 + ov))).
    set (b := - k * (x - (L / 2 - ov))).
    assert (Hab : - a < b) by (subst a b; nra).
    pose proof (logistic_decreasing _ _ Hab) as Hdec.
    rewrite <- (logistic_compl a) in Hdec. nra. }
  split; [exact Hlt |].
  pose proof (sigmoid_z_plus_spec L h ov k x). lra.
Qed.

(** C2 fails as stated: on the mesh with [total_length = 20],
    [h_step = 3], [overlap_len = 1.5], [steepness = 2] and three samples,
    the first bottom vertex, at [x = −10], is not at the height the
    formula of the specification gives. *)
Lemma dolan_bridge_differs_from_spec_formula :
  let m := create_dolan_bridge 20 4 3 1 (3 / 2) 2 3 in
  ∃ x y zb v, bot_rows m !! 0%nat = Some ((x, y, zb), v) ∧
    x = -10 ∧ zb < 3 ∧ 3 < spec_bottom_height 20 3 (3 / 2) 2 x ∧
    zb ≠ spec_bottom_height 20 3 (3 / 2) 2 x.
Proof.
  intros m. subst m. unfold create_dolan_bridge.
  rewrite bridge_rows_fold.
  do 4 eexists. split; [reflexivity |].
  destruct (sigmoid_z_below_spec 20 3 (3 / 2) 2
              (- (20) / 2 + INR 0 * ((20 / 2 - - (20) / 2) / (INR 3 - 1))))
    as [Hlo Hhi]; [lra | lra | lra |].
  split_and!; [simpl; lra | exact Hlo | exact Hhi | apply Rlt_not_eq; lra].
Qed.

Lemma exp_INR_mult (x : R) (n : nat) : exp (INR n * x) = exp x ^ n.
Proof.
  induction n as [| n IH].
  - simpl. rewrite Rmult_0_l. apply exp_0.
  - rewrite S_INR, Rmult_plus_distr_r, Rmult_1_l, exp_plus, IH. simpl. ring.
Qed.

Lemma exp_3_lower : 19 < exp 3.
Proof.
  replace 3 with (INR 96 * (1 / 32)) by (simpl; lra).
  rewrite exp_INR_mult.
  apply Rlt_le_trans with ((33 / 32) ^ 96); [lra |].
  apply pow_incr. split; [lra |].
  left. replace (33 / 32) with (1 + 1 / 32) by lra.
  apply exp_ineq1. lra.
Qed.

Lemma exp_17_lower : 131072 <= exp 17.
Proof.
  replace 17 with (INR 17 * 1) by (simpl; lra).
  rewrite exp_INR_mult. replace 131072 with (2 ^ 17) by lra.
  apply pow_incr. split; [lra |].
  left. replace 2 with (1 + 1) by lra. apply exp_ineq1. lra.
Qed.

(** At a point left of both steps the distance to [h_step] is at most
    [h_step / (1 + e^(steepness·(left_step − x)))]. *)
Lemma sigmoid_z_left_tight L h ov k x :
  0 <= h → 0 <= k → 2 * ov <= L →
  Rabs (sigmoid_z L h ov k x - h) <= h / (1 + exp (k * ((- L / 2 + ov) - x))).
Proof.
  intros Hh Hk Hov. unfold sigmoid_z. cbv zeta.
  set (a := k * (x - (- L / 2 + ov))).
  replace (k * (- L / 2 + ov - x)) with (- a) by (subst a; ring).
  set (b := - k * (x - (L / 2 - ov))).
  assert (Hab : - a <= b) by (subst a b; nra).
  assert (Hdec : 1 / (1 + exp b) <= 1 / (1 + exp (- a))).
  { destruct Hab as [Hab | <-]; [left; by apply logistic_decreasing | right; done]. }
  pose proof (logistic_pos b) as Hb.
  replace (h * (1 / (1 + exp a) + 1 / (1 + exp b)) - h)
    with (- (h * (1 / (1 + exp (- a)) - 1 / (1 + exp b))))
    by (rewrite <- (logistic_compl a); ring).
  rewrite Rabs_Ropp, Rabs_pos_eq by nra.
  unfold Rdiv in *. nra.
Qed.

(** The profile is symmetric about [x = 0]. *)
Lemma sigmoid_z_even L h ov k x :
  sigmoid_z L h ov k (- x) = sigmoid_z L h ov k x.
Proof.
  unfold sigmoid_z. cbv zeta.
  replace (k * (- x - (- L / 2 + ov))) with (- k * (x - (L / 2 - ov))) by lra.
  replace (- k * (- x - (L / 2 - ov))) with (k * (x - (- L / 2 + ov))) by lra.
  ring.
Qed.

(** C6: with [h_step = 3], [steepness = 2], [overlap_len = 1.5] and
    [total_length = 20] the bottom height is within
    [3 / (1 + e^(steepness · overlap_len))], less than 0.15, of 3 at
    [x = −10] and at [x = 10], and within 0.0001 of 0 at [x = 0]; at the
    two ends the tolerance [3 / (1 + e^(1.5 · steepness))] holds for every
    steepness that is not negative. *)
Theorem dolan_bridge_endpoint_values :
  let z := sigmoid_z 20 3 (3 / 2) 2 in
  Rabs (z (-10) - 3) <= 3 / (1 + exp (2 * (3 / 2))) ∧
  Rabs (z (-10) - 3) < 3 / 20 ∧
  Rabs (z 10 - 3) < 3 / 20 ∧
  0 < z 0 ∧ z 0 < 1 / 10000 ∧
  (∀ k, 0 <= k →
     Rabs (sigmoid_z 20 3 (3 / 2) k (-10) - 3) <= 3 / (1 + exp (k * (3 / 2))) ∧
     Rabs (sigmoid_z 20 3 (3 / 2) k 10 - 3) <= 3 / (1 + exp (k * (3 / 2)))).
Proof.
  intros z.
  assert (Hgen : ∀ k, 0 <= k →
     Rabs (sigmoid_z 20 3 (3 / 2) k (-10) - 3) <= 3 / (1 + exp (k * (3 / 2)))).
  { intros k Hk.
    pose proof (sigmoid_z_left_tight 20 3 (3 / 2) k (-10)) as H.
    replace (k * (- (20) / 2 + 3 / 2 - -10)) with (k * (3 / 2)) in H by lra.
    apply H; lra. }
  assert (Hend : Rabs (z (-10) - 3) < 3 / 20).
  { apply Rle_lt_trans with (3 / (1 + exp (2 * (3 / 2)))).
    - apply Hgen. lra.
    - replace (2 * (3 / 2)) with 3 by lra.
      pose proof exp_3_lower as He.
      apply (Rmult_lt_reg_r (1 + exp 3)); [lra |].
      unfold Rdiv. rewrite Rmult_assoc, Rinv_l by lra. lra. }
  split_and!.
  - apply Hgen. lra.
  - exact Hend.
  - subst z. cbv beta. replace 10 with (- -10) by lra.
    rewrite sigmoid_z_even. exact Hend.
  - subst z. unfold sigmoid_z. cbv zeta.
    pose proof (logistic_pos (2 * (0 - (- (20) / 2 + 3 / 2)))).
    pose proof (logistic_pos (- (2) * (0 - (20 / 2 - 3 / 2)))). lra.
  - subst z. unfold sigmoid_z. cbv zeta.
    replace (2 * (0 - (- (20) / 2 + 3 / 2))) with 17 by lra.
    replace (- (2) * (0 - (20 / 2 - 3 / 2))) with 17 by lra.
    pose proof exp_17_lower as He.
    assert (Hs : 1 / (1 + exp 17) < 1 / 131072).
    { unfold Rdiv. rewrite !Rmult_1_l. apply Rinv_lt_contravar; lra. }
    lra.
  - intros k Hk. split; [by apply Hgen |].
    replace 10 with (- -10) by lra. rewrite sigmoid_z_even. by apply Hgen.
Qed.

Lemma dolan_bridge_endpoint_values_witness :
  Rabs (sigmoid_z 20 3 (3 / 2) 4 (-10) - 3) <= 3 / (1 + exp (4 * (3 / 2))).
Proof.
  destruct dolan_bridge_endpoint_values as (_ & _ & _ & _ & _ & Hk).
  apply Hk. lra.
Defined.

End BridgeTheorems.

(** ** Tangents and normals of a polyline *)

Section PathFacts.
Local Open Scope R_scope.

Lemma py_index_nat {A} (l : list A) (i : nat) (x : A) :
  l !! i = Some x → py_index l (Z.of_nat i) = Ok x.
Proof.
  intros Hx. unfold py_index.
  pose proof (lookup_lt_Some _ _ _ Hx) as Hlt.
  destruct (decide (Z.of_nat i < 0)%Z) as [? | _]; [lia |].
  rewrite decide_True by lia.
  by rewrite Nat2Z.id, Hx.
Qed.

Lemma py_index_neg {A} (l : list A) (j : nat) (x : A) :
  (0 < j <= length l)%nat → l !! (length l - j)%nat = Some x →
  py_index l (- Z.of_nat j) = Ok x.
Proof.
  intros Hj Hx. unfold py_index.
  pose proof (lookup_lt_Some _ _ _ Hx) as Hlt.
  destruct (decide (- Z.of_nat j < 0)%Z) as [_ | ?]; [| lia].
  rewrite decide_True by lia.
  replace (Z.to_nat (- Z.of_nat j + Z.of_nat (length l)))
    with (length l - j)%nat by lia.
  by rewrite Hx.
Qed.

Lemma lookup_point_at (pts : list Vec.t) (i : nat) :
  (i < length pts)%nat → pts !! i = Some (point_at pts i).
Proof.
  intros Hi. unfold point_at.
  destruct (lookup_lt_is_Some_2 pts i Hi) as [p Hp]. by rewrite Hp.
Qed.

Lemma py_index_point (pts : list Vec.t) (i : nat) :
  (i < length pts)%nat → py_index pts (Z.of_nat i) = Ok (point_at pts i).
Proof. intros Hi. by apply py_index_nat, lookup_point_at. Qed.

Lemma raw_tangent_ok (pts : list Vec.t) (i : nat) :
  (2 <= length pts)%nat → (i < length pts)%nat →
  Mesh3D.raw_tangent pts i = Ok (tangent_at pts i).
Proof.
  intros Hn Hi. unfold Mesh3D.raw_tangent, tangent_at.
  rewrite (py_index_point pts i Hi). simpl.
  destruct (decide (i = 0%nat)) as [-> | Hi0].
  - change (py_index pts 1) with (py_index pts (Z.of_nat 1)).
    rewrite py_index_point by lia. done.
  - destruct (decide (i = (length pts - 1)%nat)) as [Hlast | Hmid].
    + replace (Z.of_nat i - 1)%Z with (Z.of_nat (i - 1)) by lia.
      rewrite py_index_point by lia. done.
    + replace (Z.of_nat i + 1)%Z with (Z.of_nat (i + 1)) by lia.
      replace (Z.of_nat i - 1)%Z with (Z.of_nat (i - 1)) by lia.
      rewrite !py_index_point by lia. done.
Qed.

Lemma mapM_ok {A B} (f : A → result B) (g : A → B) (l : list A) :
  (∀ x, x ∈ l → f x = Ok (g x)) → mapM f l = Ok (g <$> l).
Proof.
  induction l as [| x l IH]; intros Hf; simpl; [done |].
  rewrite Hf by apply list_elem_of_here. simpl.
  rewrite IH; [done |]. intros y Hy. apply Hf. by apply list_elem_of_further.
Qed.

Lemma extruded_path_ok (pts : list Vec.t) (w h : R) :
  (2 <= length pts)%nat →
  Mesh3D.create_extruded_path pts w h
  = Ok (Some ((λ i, Mesh3D.ring_at (point_at pts i) (tangent_at pts i) (w / 2) (h / 2))
              <$> seq 0 (length pts))).
Proof.
  intros Hn. unfold Mesh3D.create_extruded_path.
  rewrite decide_False by lia.
  rewrite (mapM_ok _ (λ i, Mesh3D.ring_at (point_at pts i) (tangent_at pts i)
                             (w / 2) (h / 2))); [done |].
  intros i Hi. apply elem_of_seq in Hi.
  rewrite py_index_point by lia. simpl.
  rewrite raw_tangent_ok by lia. done.
Qed.



Lemma norm_sqr (v : Vec.t) : Vec.norm v * Vec.norm v = v.1 * v.1 + v.2 * v.2.
Proof. unfold Vec.norm. apply sqrt_sqrt. nra. Qed.

Lemma div_norm_unit (v : Vec.t) :
  Vec.norm v ≠ 0 → Vec.is_unit (Vec.div v (Vec.norm v)).
Proof.
  intros Hne. unfold Vec.is_unit, Vec.div. simpl.
  pose proof (norm_sqr v) as Hs.
  replace (v.1 / Vec.norm v * (v.1 / Vec.norm v) + v.2 / Vec.norm v * (v.2 / Vec.norm v))
    with ((v.1 * v.1 + v.2 * v.2) / (Vec.norm v * Vec.norm v)) by (field; done).
  rewrite <- Hs. field. done.
Qed.

Lemma ccw_unit (v : Vec.t) : Vec.is_unit v → Vec.is_unit (Vec.ccw v).
Proof. unfold Vec.is_unit, Vec.ccw. simpl. nra. Qed.



(** [create_extruded_path]: the tangent used is always a unit vector,
    and it is [(1, 0)] when the raw tangent is shorter than [1e-9]. *)
Lemma unit_tangent_unit (tg : Vec.t) : Vec.is_unit (Mesh3D.unit_tangent tg).
Proof.
  unfold Mesh3D.unit_tangent. destruct (Rlt_dec _ _) as [Hlt | Hge].
  - unfold Vec.is_unit. simpl. lra.
  - apply div_norm_unit. intros Hz. apply Hge. rewrite Hz.
    apply Rdiv_lt_0_compat; [lra |]. apply pow_lt. lra.
Qed.



End PathFacts.

Section PathTheorems.
Local Open Scope R_scope.







End PathTheorems.

(** * Further properties *)

(** ** View limits *)

Section LimitsFacts.
Import SquareLattice LatticeLimits.
Local Open Scope Q_scope.

Lemma foldl_Qmin_spec (x : Q) (l : list Q) :
  foldl Qmin x l ∈ x :: l ∧ ∀ y, y ∈ x :: l → foldl Qmin x l <= y.
Proof.
  revert x. induction l as [| z l IH]; intros x; simpl.
  - split; [apply list_elem_of_here |].
    intros y Hy. apply list_elem_of_singleton in Hy as ->. apply Qle_refl.
  - destruct (IH (Qmin x z)) as [Hin Hle]. split.
    + apply elem_of_cons in Hin as [Heq | Hin].
      * rewrite Heq. unfold Qmin, GenericMinMax.gmin.
        destruct (x ?= z);
          [apply list_elem_of_here | apply list_elem_of_here
          | apply list_elem_of_further, list_elem_of_here].
      * by do 2 apply list_elem_of_further.
    + intros y Hy.
      assert (Hm : foldl Qmin (Qmin x z) l <= Qmin x z)
        by (apply Hle, list_elem_of_here).
      apply elem_of_cons in Hy as [-> | Hy].
      * eapply Qle_trans; [exact Hm | apply Q.le_min_l].
      * apply elem_of_cons in Hy as [-> | Hy].
        -- eapply Qle_trans; [exact Hm | apply Q.le_min_r].
        -- apply Hle. by apply list_elem_of_further.
Qed.

Lemma foldl_Qmax_spec (x : Q) (l : list Q) :
  foldl Qmax x l ∈ x :: l ∧ ∀ y, y ∈ x :: l → y <= foldl Qmax x l.
Proof.
  revert x. induction l as [| z l IH]; intros x; simpl.
  - split; [apply list_elem_of_here |].
    intros y Hy. apply list_elem_of_singleton in Hy as ->. apply Qle_refl.
  - destruct (IH (Qmax x z)) as [Hin Hle]. split.
    + apply elem_of_cons in Hin as [Heq | Hin].
      * rewrite Heq. unfold Qmax, GenericMinMax.gmax.
        destruct (x ?= z);
          [apply list_elem_of_here
          | apply list_elem_of_further, list_elem_of_here
          | apply list_elem_of_here].
      * by do 2 apply list_elem_of_further.
    + intros y Hy.
      assert (Hm : Qmax x z <= foldl Qmax (Qmax x z) l)
        by (apply Hle, list_elem_of_here).
      apply elem_of_cons in Hy as [-> | Hy].
      * eapply Qle_trans; [apply Q.le_max_l | exact Hm].
      * apply elem_of_cons in Hy as [-> | Hy].
        -- eapply Qle_trans; [apply Q.le_max_r | exact Hm].
        -- apply Hle. by apply list_elem_of_further.
Qed.

Lemma col_min_spec (l : list Q) :
  l ≠ [] → ∃ m, col_min l = Some m ∧ m ∈ l ∧ ∀ y, y ∈ l → m <= y.
Proof.
  destruct l as [| x l]; [done |]. intros _. eexists. split; [done |].
  apply foldl_Qmin_spec.
Qed.

Lemma col_max_spec (l : list Q) :
  l ≠ [] → ∃ m, col_max l = Some m ∧ m ∈ l ∧ ∀ y, y ∈ l → y <= m.
Proof.
  destruct l as [| x l]; [done |]. intros _. eexists. split; [done |].
  apply foldl_Qmax_spec.
Qed.

Lemma init_sites_lookup config fd cd self r c :
  init config fd cd = Ok self →
  _site_positions self !! (r, c)
  = if decide (0 ≤ r < LatticeConfig.rows (cfg self)
               ∧ 0 ≤ c < LatticeConfig.cols (cfg self))%Z
    then Some (site_xy (LatticeConfig.pitch (cfg self)) r c) else None.
Proof.
  intros Hinit. destruct (init_inv _ _ _ _ Hinit) as (_ & _ & _ & Hs & _).
  rewrite Hs, <- build_sites_eq. apply build_sites_lookup.
Qed.

Lemma init_size config fd cd self :
  init (Some config) fd cd = Ok self →
  LatticeConfig.rows (cfg self) = LatticeConfig.rows config ∧
  LatticeConfig.cols (cfg self) = LatticeConfig.cols config.
Proof.
  intros Hinit. destruct (init_inv _ _ _ _ Hinit) as (Hcfg & _).
  destruct (resolved_cfg_size (Some config) fd cd) as [Hr Hc].
  rewrite <- Hcfg in Hr, Hc. done.
Qed.

(** The coordinates that [auto_lims] reduces over. *)
Lemma all_pos_elem (self : t) (f : Q * Q → Q) (x : Q) :
  x ∈ f <$> (map_to_list (_site_positions self)).*2 ↔
  ∃ k pos, _site_positions self !! k = Some pos ∧ x = f pos.
Proof.
  rewrite list_elem_of_fmap. split.
  - intros (pos & -> & Hpos). apply list_elem_of_fmap in Hpos as ([k pos'] & -> & Hin).
    apply elem_of_map_to_list in Hin. eauto.
  - intros (k & pos & Hk & ->). exists pos. split; [done |].
    apply list_elem_of_fmap. exists (k, pos). split; [done |].
    by apply elem_of_map_to_list.
Qed.

Lemma inject_Z_nonneg (z : Z) : (0 ≤ z)%Z → 0 <= inject_Z z.
Proof. intros Hz. change 0 with (inject_Z 0). by rewrite <- Zle_Qle. Qed.

Lemma inject_Z_scale_le (a b : Z) (p : Q) :
  (a ≤ b)%Z → 0 <= p → inject_Z a * p <= inject_Z b * p.
Proof. intros Hab Hp. apply Qmult_le_compat_r; [by rewrite <- Zle_Qle | done]. Qed.

(** X1: on a constructed lattice with at least one row and one column,
    [auto_lims] returns a box that contains every site with [margin] to
    spare on each side; for a pitch that is not negative the box is
    [((−margin, (cols−1)·pitch + margin), (−margin, (rows−1)·pitch +
    margin))]. *)
Theorem auto_lims_box (config : LatticeConfig.t)
    (fd : option FluxoniumDims.t) (cd : option TunableTransmonDims.t)
    (self : t) (margin : Q) :
  init (Some config) fd cd = Ok self →
  (1 ≤ LatticeConfig.rows config)%Z → (1 ≤ LatticeConfig.cols config)%Z →
  let p := LatticeConfig.pitch (cfg self) in
  ∃ xmin xmax ymin ymax,
    auto_lims self margin = Some ((xmin, xmax), (ymin, ymax)) ∧
    (∀ k pos, site_positions self !! k = Some pos →
       xmin + margin <= pos.1 ∧ pos.1 <= xmax - margin ∧
       ymin + margin <= pos.2 ∧ pos.2 <= ymax - margin) ∧
    (0 <= p →
       xmin == - margin ∧
       xmax == inject_Z (LatticeConfig.cols config - 1) * p + margin ∧
       ymin == - margin ∧
       ymax == inject_Z (LatticeConfig.rows config - 1) * p + margin).
Proof.
  intros Hinit Hrows Hcols p.
  destruct (init_size _ _ _ _ Hinit) as [Hr Hc].
  pose proof (λ r c, init_sites_lookup _ _ _ _ r c Hinit) as Hlk.
  rewrite Hr, Hc in Hlk. fold p in Hlk.
  set (all_pos := (map_to_list (_site_positions self)).*2).
  assert (Hne : ∀ f : Q * Q → Q, f <$> all_pos ≠ []).
  { intros f Hnil.
    assert (Hin : f (site_xy p 0 0) ∈ f <$> all_pos).
    { apply all_pos_elem. exists (0, 0)%Z, (site_xy p 0 0). split; [| done].
      rewrite Hlk. rewrite decide_True by lia. done. }
    rewrite Hnil in Hin. by apply elem_of_nil in Hin. }
  destruct (col_min_spec (all_pos.*1) (Hne fst)) as (xm & Hxm & Hxmin & Hxmle).
  destruct (col_min_spec (all_pos.*2) (Hne snd)) as (ym & Hym & Hymin & Hymle).
  destruct (col_max_spec (all_pos.*1) (Hne fst)) as (xM & HxM & HxMin & HxMle).
  destruct (col_max_spec (all_pos.*2) (Hne snd)) as (yM & HyM & HyMin & HyMle).
  exists (xm - margin), (xM + margin), (ym - margin), (yM + margin).
  split_and!.
  - unfold auto_lims. fold all_pos. rewrite Hxm, Hym, HxM, HyM. done.
  - intros k pos Hk. unfold site_positions in Hk.
    assert (H1 : pos.1 ∈ all_pos.*1) by (apply all_pos_elem; eauto).
    assert (H2 : pos.2 ∈ all_pos.*2) by (apply all_pos_elem; eauto).
    pose proof (Hxmle _ H1). pose proof (HxMle _ H1).
    pose proof (Hymle _ H2). pose proof (HyMle _ H2).
    split_and!; lra.
  - intros Hp.
    assert (Hsite : ∀ (f : Q * Q → Q) x, x ∈ f <$> all_pos →
              ∃ r c, (0 ≤ r < LatticeConfig.rows config)%Z ∧
                     (0 ≤ c < LatticeConfig.cols config)%Z ∧
                     x = f (site_xy p r c)).
    { intros f x Hx. apply all_pos_elem in Hx as ([r c] & pos & Hk & ->).
      rewrite Hlk in Hk. case_decide as Hin; [| done].
      injection Hk as <-. exists r, c. split_and!; (done || lia). }
    assert (Hhas : ∀ (f : Q * Q → Q) r c,
              (0 ≤ r < LatticeConfig.rows config)%Z →
              (0 ≤ c < LatticeConfig.cols config)%Z →
              f (site_xy p r c) ∈ f <$> all_pos).
    { intros f r c Hr' Hc'. apply all_pos_elem. exists (r, c), (site_xy p r c).
      split; [| done]. rewrite Hlk. rewrite decide_True by lia. done. }
    destruct (Hsite _ _ Hxmin) as (r1 & c1 & Hr1 & Hc1 & Ex1).
    destruct (Hsite _ _ Hymin) as (r2 & c2 & Hr2 & Hc2 & Ex2).
    destruct (Hsite _ _ HxMin) as (r3 & c3 & Hr3 & Hc3 & Ex3).
    destruct (Hsite _ _ HyMin) as (r4 & c4 & Hr4 & Hc4 & Ex4).
    pose proof (Hxmle _ (Hhas fst 0%Z 0%Z ltac:(lia) ltac:(lia))) as B1.
    pose proof (Hymle _ (Hhas snd 0%Z 0%Z ltac:(lia) ltac:(lia))) as B2.
    pose proof (HxMle _ (Hhas fst 0%Z (LatticeConfig.cols config - 1)%Z
                           ltac:(lia) ltac:(lia))) as B3.
    pose proof (HyMle _ (Hhas snd (LatticeConfig.rows config - 1)%Z 0%Z
                           ltac:(lia) ltac:(lia))) as B4.
    simpl in Ex1, Ex2, Ex3, Ex4, B1, B2, B3, B4.
    pose proof (inject_Z_scale_le 0 c1 p ltac:(lia) Hp) as C1.
    pose proof (inject_Z_scale_le 0 r2 p ltac:(lia) Hp) as C2.
    pose proof (inject_Z_scale_le c3 (LatticeConfig.cols config - 1) p
                  ltac:(lia) Hp) as C3.
    pose proof (inject_Z_scale_le r4 (LatticeConfig.rows config - 1) p
                  ltac:(lia) Hp) as C4.
    rewrite <- Ex1 in C1. rewrite <- Ex2 in C2.
    rewrite <- Ex3 in C3. rewrite <- Ex4 in C4.
    assert (Hz : inject_Z 0 * p == 0) by (unfold inject_Z; ring).
    rewrite Hz in B1, B2, C1, C2.
    split_and!; lra.
Qed.

Lemma auto_lims_box_witness :
  ∃ self, init (Some (LatticeConfig.mk 2 3 100 20)) None None = Ok self ∧
    ∃ xmin xmax ymin ymax,
      auto_lims self 350 = Some ((xmin, xmax), (ymin, ymax)) ∧
      xmin == -350 ∧ xmax == 550 ∧ ymin == -350 ∧ ymax == 450.
Proof.
  destruct (init_ok (Some (LatticeConfig.mk 2 3 100 20)) None None)
    as [self Hinit]; [by vm_compute | by left | by right |].
  exists self. split; [exact Hinit |].
  destruct (auto_lims_box _ _ _ _ 350 Hinit)
    as (xmin & xmax & ymin & ymax & Hl & _ & Hbox); [simpl; lia | simpl; lia |].
  exists xmin, xmax, ymin, ymax. split; [exact Hl |].
  destruct (init_inv _ _ _ _ Hinit) as (Hcfg & _).
  rewrite Hcfg in Hbox. simpl in Hbox.
  destruct Hbox as (H1 & H2 & H3 & H4); [discriminate |].
  split_and!; [exact H1 | rewrite H2; reflexivity | exact H3 | rewrite H4; reflexivity].
Defined.

End LimitsFacts.

(** ** Drawing a constructed lattice *)

Section PlaceFacts.
Import SquareLattice LatticeLimits.
Local Open Scope Z_scope.

Lemma foldl_snoc_fmap {A B} (f : A → B) (l0 : list B) (l : list A) :
  foldl (λ out x, out ++ [f x]) l0 l = l0 ++ (f <$> l).
Proof.
  revert l0. induction l as [| x l IH]; intros l0; simpl.
  - by rewrite app_nil_r.
  - rewrite IH. by rewrite <- app_assoc.
Qed.

Lemma length_join_imap {A B} (h : nat → A → list B) (k : nat) (l : list A) :
  (∀ i x, length (h i x) = k) → length (mjoin (imap h l)) = (k * length l)%nat.
Proof.
  revert h. induction l as [| x l IH]; intros h Hh; simpl; [lia |].
  rewrite length_app, Hh, IH by (intros; apply Hh). lia.
Qed.

Lemma forallb_elem {A} (f : A → bool) (l : list A) :
  (∀ x, x ∈ l → f x = true) → forallb f l = true.
Proof.
  intros Hf. apply forallb_forall. intros x Hx. by apply Hf, list_elem_of_In.
Qed.

Lemma Forall_join_imap {A B} (P : B → Prop) (h : nat → A → list B) (l : list A) :
  (∀ i x, Forall P (h i x)) → Forall P (mjoin (imap h l)).
Proof.
  revert h. induction l as [| x l IH]; intros h Hh; simpl; [constructor |].
  apply Forall_app. split; [apply Hh | apply IH; intros; apply Hh].
Qed.

Lemma shading_eq (self : t) (origin : Q * Q) fc alpha :
  ∃ f, _draw_cell_shading self origin fc alpha
       = f <$> grid (LatticeConfig.rows (cfg self) - 1)
                    (LatticeConfig.cols (cfg self) - 1)
       ∧ ∀ rc, is_shading (f rc) = true.
Proof.
  destruct origin as [ox oy]. unfold _draw_cell_shading.
  eexists (λ rc : Z * Z, Rectangle _ _ _ _ _ _). split; [| done].
  rewrite (foldl_nested (λ out r c, out ++ [Rectangle _ _ _ _ _ _])).
  by rewrite (foldl_snoc_fmap (λ rc : Z * Z, Rectangle _ _ _ _ _ _)).
Qed.

Lemma length_sorted_sites (self : t) :
  length (sorted_sites self) = size (_site_positions self).
Proof.
  unfold sorted_sites. rewrite merge_sort_Permutation. apply length_map_to_list.
Qed.

Lemma length_sorted_edges (self : t) :
  length (sorted_edges self) = size (_edge_positions self).
Proof.
  unfold sorted_edges. rewrite merge_sort_Permutation. apply length_map_to_list.
Qed.

Lemma elem_of_sorted_edges (self : t) k v :
  (k, v) ∈ sorted_edges self ↔ _edge_positions self !! k = Some v.
Proof.
  unfold sorted_edges. rewrite merge_sort_Permutation. apply elem_of_map_to_list.
Qed.

(** [place] once every coupler of the loop is known to be drawn. *)
Lemma place_structure (self : t) origin labels cp fc shade alpha couplers :
  mapM (place_coupler self origin labels cp fc)
       (imap (λ idx e, (idx, e)) (sorted_edges self)) = Ok couplers →
  ∃ shading qubits,
    place self origin labels cp fc shade alpha
    = Ok (shading ++ qubits ++ mjoin couplers) ∧
    forallb is_shading shading = true ∧
    forallb is_qubit_cmd qubits = true ∧
    length shading
    = (if shade && bool_decide (cp = Some "checkerboard")
       then Z.to_nat (LatticeConfig.rows (cfg self) - 1)
            * Z.to_nat (LatticeConfig.cols (cfg self) - 1)
       else 0)%nat ∧
    length qubits
    = ((if labels then 2 else 1) * size (_site_positions self))%nat.
Proof.
  intros Hc. unfold place. destruct origin as [ox oy]. rewrite Hc.
  unfold mbind, result_bind.
  eexists _, _. split; [reflexivity |]. split_and!.
  - destruct (shade && _); [| done].
    destruct (shading_eq self (ox, oy) fc alpha) as (f & -> & Hf).
    apply forallb_elem. intros x Hx.
    apply list_elem_of_fmap in Hx as (rc & -> & _). apply Hf.
  - apply forallb_elem. intros x Hx. revert x Hx. apply Forall_forall.
    apply Forall_join_imap. intros i [[r c] pos].
    destruct labels; repeat constructor.
  - destruct (shade && _); [| done].
    destruct (shading_eq self (ox, oy) fc alpha) as (f & -> & _).
    by rewrite length_fmap, length_grid.
  - rewrite (length_join_imap _ (if labels then 2 else 1)%nat).
    + by rewrite length_sorted_sites.
    + intros i [[r c] pos]. by destruct labels.
Qed.

Lemma edge_angle_of (v : edge_info) :
  direction v = "horizontal" ∨ direction v = "vertical" →
  _edge_angle (direction v) = Ok (angle_of v).
Proof. unfold angle_of. by intros [-> | ->]. Qed.

Lemma place_coupler_ok (self : t) origin labels cp fc idx k v m :
  direction v = "horizontal" ∨ direction v = "vertical" →
  (if decide (cp = Some "checkerboard")
   then _mirror_for_edge self k (direction v) fc else Ok false) = Ok m →
  place_coupler self origin labels cp fc (idx, (k, v))
  = Ok (coupler_cmds origin labels idx v (angle_of v) m).
Proof.
  intros Hd Hm. unfold place_coupler. destruct origin as [ox oy].
  rewrite (edge_angle_of v Hd). simpl. rewrite Hm. done.
Qed.

(** The edges of a constructed lattice, by direction and position. *)
Lemma init_edge_cases config fd cd self k v :
  init config fd cd = Ok self →
  _edge_positions self !! k = Some v →
  ∃ r c, k.1 = (r, c) ∧
    ((direction v = "horizontal" ∧
      0 ≤ r < LatticeConfig.rows (cfg self) ∧
      0 ≤ c < LatticeConfig.cols (cfg self) - 1) ∨
     (direction v = "vertical" ∧
      0 ≤ r < LatticeConfig.rows (cfg self) - 1 ∧
      0 ≤ c < LatticeConfig.cols (cfg self))).
Proof.
  intros Hinit Hk.
  apply (init_edges_lookup _ _ _ _ _ _ Hinit), elem_of_edge_items in Hk.
  destruct Hk as [(r & c & Hr & Hc & -> & ->) | (r & c & Hr & Hc & -> & ->)];
    exists r, c; (split; [done |]); [left | right]; done.
Qed.

Lemma init_edge_direction config fd cd self k v :
  init config fd cd = Ok self →
  _edge_positions self !! k = Some v →
  direction v = "horizontal" ∨ direction v = "vertical".
Proof.
  intros Hinit Hk.
  destruct (init_edge_cases _ _ _ _ _ _ Hinit Hk) as (r & c & _ & [[? _] | [? _]]);
    auto.
Qed.

(** With at least two rows and two columns every edge has a neighbour
    cell, so [_mirror_for_edge] returns a flag. *)
Lemma mirror_ok_on_grid config fd cd self fc k v :
  init config fd cd = Ok self →
  2 ≤ LatticeConfig.rows (cfg self) → 2 ≤ LatticeConfig.cols (cfg self) →
  _edge_positions self !! k = Some v →
  _mirror_for_edge self k (direction v) fc = Ok (mirror_of self k v fc).
Proof.
  intros Hinit Hrows Hcols Hk. unfold mirror_of.
  destruct (init_edge_cases _ _ _ _ _ _ Hinit Hk)
    as (r & c & Hk1 & [(Hd & Hr & Hc) | (Hd & Hr & Hc)]);
    destruct k as [k1 k2]; simpl in Hk1; subst k1; rewrite Hd.
  - destruct (decide (r < LatticeConfig.rows (cfg self) - 1)).
    + by rewrite mirror_horizontal_above.
    + by rewrite mirror_horizontal_below by lia.
  - destruct (decide (c < LatticeConfig.cols (cfg self) - 1)).
    + by rewrite mirror_vertical_right.
    + by rewrite mirror_vertical_left by (done || lia).
Qed.

Lemma init_sizes config fd cd self :
  init config fd cd = Ok self →
  size (_site_positions self)
  = (Z.to_nat (LatticeConfig.rows (cfg self))
     * Z.to_nat (LatticeConfig.cols (cfg self)))%nat ∧
  size (_edge_positions self)
  = (Z.to_nat (LatticeConfig.rows (cfg self))
     * Z.to_nat (LatticeConfig.cols (cfg self) - 1)
     + Z.to_nat (LatticeConfig.rows (cfg self) - 1)
       * Z.to_nat (LatticeConfig.cols (cfg self)))%nat.
Proof.
  intros Hinit. destruct (init_inv _ _ _ _ Hinit) as (_ & _ & _ & Hs & He).
  rewrite Hs, He, <- build_sites_eq. split.
  - apply build_sites_size.
  - apply edges_size.
Qed.

Lemma mapM_place_coupler (self : t) origin labels cp fc (m : _ → _ → bool) :
  (∀ k v, _edge_positions self !! k = Some v →
     (direction v = "horizontal" ∨ direction v = "vertical") ∧
     (if decide (cp = Some "checkerboard")
      then _mirror_for_edge self k (direction v) fc else Ok false)
     = Ok (m k v)) →
  mapM (place_coupler self origin labels cp fc)
       (imap (λ idx e, (idx, e)) (sorted_edges self))
  = Ok ((λ item : nat * (((Z * Z) * (Z * Z)) * edge_info),
           coupler_cmds origin labels item.1 item.2.2 (angle_of item.2.2)
                        (m item.2.1 item.2.2))
        <$> imap (λ idx e, (idx, e)) (sorted_edges self)).
Proof.
  intros Hall. apply mapM_ok. intros [idx [k v]] Hin.
  apply elem_of_lookup_imap_1 in Hin as (i & kv & Heq & Hlk). simplify_eq.
  apply list_elem_of_lookup_2, elem_of_sorted_edges in Hlk.
  destruct (Hall _ _ Hlk) as [Hd Hm]. simpl.
  by apply place_coupler_ok.
Qed.

Lemma coupler_cmds_app origin labels idx v a m rest :
  forallb is_coupler_cmd (coupler_cmds origin labels idx v a m ++ rest)
  = forallb is_coupler_cmd rest ∧
  length (coupler_cmds origin labels idx v a m ++ rest)
  = ((if labels then 2 else 1) + length rest)%nat ∧
  coupler_flags_2d (coupler_cmds origin labels idx v a m ++ rest)
  = (a, m) :: coupler_flags_2d rest.
Proof. unfold coupler_cmds. by destruct labels. Qed.

Lemma coupler_cmds_join origin labels (l : list (((Z * Z) * (Z * Z)) * edge_info))
    (m : _ → _ → bool) :
  let cs := mjoin ((λ item : nat * (((Z * Z) * (Z * Z)) * edge_info),
                      coupler_cmds origin labels item.1 item.2.2 (angle_of item.2.2)
                                   (m item.2.1 item.2.2))
                   <$> imap (λ idx e, (idx, e)) l) in
  forallb is_coupler_cmd cs = true ∧
  length cs = ((if labels then 2 else 1) * length l)%nat ∧
  coupler_flags_2d cs = (λ kv, (angle_of kv.2, m kv.1 kv.2)) <$> l.
Proof.
  intros cs. subst cs. rewrite fmap_imap.
  assert (Hgen : ∀ (h : nat → nat),
    forallb is_coupler_cmd
      (mjoin (imap (λ n e, coupler_cmds origin labels (h n) e.2 (angle_of e.2)
                              (m e.1 e.2)) l)) = true ∧
    length (mjoin (imap (λ n e, coupler_cmds origin labels (h n) e.2 (angle_of e.2)
                                  (m e.1 e.2)) l))
    = ((if labels then 2 else 1) * length l)%nat ∧
    coupler_flags_2d
      (mjoin (imap (λ n e, coupler_cmds origin labels (h n) e.2 (angle_of e.2)
                              (m e.1 e.2)) l))
    = (λ kv, (angle_of kv.2, m kv.1 kv.2)) <$> l).
  { induction l as [| [k v] l IH]; intros h; [done |].
    rewrite imap_cons, fmap_cons, length_cons.
    match goal with
    | |- context [mjoin (?a :: ?b)] => change (mjoin (a :: b)) with (a ++ mjoin b)
    end.
    cbn [fst snd].
    destruct (IH (h ∘ S)) as (H1 & H2 & H3).
    unfold compose in *. cbv beta in *.
    destruct (coupler_cmds_app origin labels (h 0%nat) v (angle_of v) (m k v)
                (mjoin (imap (λ n e, coupler_cmds origin labels (h (S n)) e.2
                                       (angle_of e.2) (m e.1 e.2)) l)))
      as (E1 & E2 & E3).
    rewrite E1, E2, E3, H1, H2, H3. split_and!; [done | lia | done]. }
  exact (Hgen (λ n, n)).
Qed.

End PlaceFacts.

Section PlaceTheorems.
Import SquareLattice LatticeLimits.
Local Open Scope Z_scope.

Lemma init_no_edges config fd cd self :
  init config fd cd = Ok self →
  LatticeConfig.rows (cfg self) < 1 ∨ LatticeConfig.cols (cfg self) < 1 →
  _site_positions self = ∅ ∧ _edge_positions self = ∅.
Proof.
  intros Hinit Hsmall. destruct (init_sizes _ _ _ _ Hinit) as [Hs He].
  split; apply map_size_empty_inv; [rewrite Hs | rewrite He]; lia.
Qed.

Lemma sorted_edges_empty (self : t) :
  _edge_positions self = ∅ → sorted_edges self = [].
Proof.
  intros He. apply nil_length_inv.
  by rewrite length_sorted_edges, He, map_size_empty.
Qed.

(** X2: a lattice constructed with [rows < 1] or [cols < 1] is drawn
    without any command and without error, whatever the arguments of
    [place], and [auto_lims] then fails on the empty array of positions
    ([ValueError] of numpy). *)
Theorem empty_lattice_draws_nothing (config : LatticeConfig.t)
    (fd : option FluxoniumDims.t) (cd : option TunableTransmonDims.t)
    (self : t) (origin : Q * Q) (labels : bool) (cell_pattern : option string)
    (first_cell : string) (shade_cells : bool) (shade_alpha margin : Q) :
  init (Some config) fd cd = Ok self →
  LatticeConfig.rows config < 1 ∨ LatticeConfig.cols config < 1 →
  place self origin labels cell_pattern first_cell shade_cells shade_alpha = Ok [] ∧
  auto_lims self margin = None.
Proof.
  intros Hinit Hsmall.
  destruct (init_size _ _ _ _ Hinit) as [Hr Hc].
  destruct (init_no_edges _ _ _ _ Hinit) as [Hs He]; [lia |].
  split.
  - destruct (place_structure self origin labels cell_pattern first_cell
                shade_cells shade_alpha [])
      as (shading & qubits & Hp & _ & _ & Hls & Hlq).
    { by rewrite (sorted_edges_empty self He). }
    rewrite Hp.
    assert (shading = []) as ->.
    { apply nil_length_inv. rewrite Hls. destruct (_ && _); lia. }
    assert (qubits = []) as ->.
    { apply nil_length_inv. rewrite Hlq, Hs, map_size_empty. lia. }
    done.
  - unfold auto_lims. by rewrite Hs, map_to_list_empty.
Qed.

Lemma empty_lattice_draws_nothing_witness :
  ∃ self, init (Some (LatticeConfig.mk 0 3 0 20)) None None = Ok self ∧
    place_default self = Ok [] ∧ auto_lims self 350 = None.
Proof.
  destruct (init_ok (Some (LatticeConfig.mk 0 3 0 20)) None None)
    as [self Hinit]; [by vm_compute | by left | by right |].
  exists self. split; [exact Hinit |].
  apply (empty_lattice_draws_nothing _ _ _ _ _ _ _ _ _ _ _ Hinit).
  left. simpl. lia.
Defined.

(** X3: on a lattice constructed with at least two rows and two columns,
    [place] with the checkerboard pattern succeeds.  It issues first the
    shading rectangles ([(rows−1)·(cols−1)] of them when [shade_cells]),
    then the data qubits ([rows·cols], each followed by its label when
    [labels]), then the couplers (one per edge, in sorted key order, each
    followed by its label when [labels]); the coupler of an edge is drawn
    at rotation 0 (horizontal) or 90 (vertical) with the flag that
    [_mirror_for_edge] returns. *)
Theorem place_on_grid (config : LatticeConfig.t)
    (fd : option FluxoniumDims.t) (cd : option TunableTransmonDims.t)
    (self : t) (origin : Q * Q) (labels : bool) (first_cell : string)
    (shade_cells : bool) (shade_alpha : Q) :
  init (Some config) fd cd = Ok self →
  2 ≤ LatticeConfig.rows config → 2 ≤ LatticeConfig.cols config →
  let rows := Z.to_nat (LatticeConfig.rows config) in
  let cols := Z.to_nat (LatticeConfig.cols config) in
  let per := if labels then 2%nat else 1%nat in
  ∃ shading qubits couplers,
    place self origin labels (Some "checkerboard") first_cell
          shade_cells shade_alpha
    = Ok (shading ++ qubits ++ couplers) ∧
    forallb is_shading shading = true ∧
    forallb is_qubit_cmd qubits = true ∧
    forallb is_coupler_cmd couplers = true ∧
    length shading = (if shade_cells then (rows - 1) * (cols - 1) else 0)%nat ∧
    length qubits = (per * (rows * cols))%nat ∧
    length couplers = (per * (rows * (cols - 1) + (rows - 1) * cols))%nat ∧
    coupler_flags_2d couplers
    = (λ kv, (angle_of kv.2, mirror_of self kv.1 kv.2 first_cell))
      <$> sorted_edges self ∧
    (∀ k v, edge_positions self !! k = Some v →
       _mirror_for_edge self k (direction v) first_cell
       = Ok (mirror_of self k v first_cell)).
Proof.
  intros Hinit Hrows Hcols rows cols per.
  destruct (init_size _ _ _ _ Hinit) as [Hr Hc].
  destruct (init_sizes _ _ _ _ Hinit) as [Hs He].
  assert (Hm : ∀ k v, _edge_positions self !! k = Some v →
     (direction v = "horizontal" ∨ direction v = "vertical") ∧
     (if decide (Some "checkerboard" = Some "checkerboard")
      then _mirror_for_edge self k (direction v) first_cell else Ok false)
     = Ok (mirror_of self k v first_cell)).
  { intros k v Hk. split; [by eapply init_edge_direction |].
    rewrite decide_True by done.
    eapply mirror_ok_on_grid; [exact Hinit | lia | lia | exact Hk]. }
  pose proof (mapM_place_coupler self origin labels (Some "checkerboard")
                first_cell (λ k v, mirror_of self k v first_cell) Hm) as Hmap.
  destruct (place_structure _ _ _ _ _ shade_cells shade_alpha _ Hmap)
    as (shading & qubits & Hp & Hfs & Hfq & Hls & Hlq).
  destruct (coupler_cmds_join origin labels (sorted_edges self)
              (λ k v, mirror_of self k v first_cell)) as (Hfc & Hlc & Hflags).
  eexists shading, qubits, _. split; [exact Hp |].
  split_and!; [exact Hfs | exact Hfq | exact Hfc | | | | exact Hflags |].
  - rewrite Hls, Hr, Hc, bool_decide_eq_true_2, andb_true_r by done.
    destruct shade_cells; [| done]. subst rows cols. lia.
  - rewrite Hlq, Hs, Hr, Hc. done.
  - rewrite Hlc, length_sorted_edges, He, Hr, Hc. subst rows cols per.
    f_equal. lia.
  - intros k v Hk. by apply Hm.
Qed.

Lemma place_on_grid_witness :
  ∃ self, init (Some (LatticeConfig.mk 3 4 0 20)) None None = Ok self ∧
    ∃ cmds, place_default self = Ok cmds ∧ length cmds = (6 + 12 + 17)%nat.
Proof.
  destruct (init_ok (Some (LatticeConfig.mk 3 4 0 20)) None None)
    as [self Hinit]; [by vm_compute | by left | by right |].
  exists self. split; [exact Hinit |].
  destruct (place_on_grid _ _ _ _ (0, 0)%Q false "resonator" true (15 # 100) Hinit)
    as (sh & qs & cs & Hp & _ & _ & _ & H1 & H2 & H3 & _); [simpl; lia .. |].
  eexists. split; [exact Hp |].
  rewrite !length_app, H1, H2, H3. reflexivity.
Defined.

(** X4: with a cell pattern other than ['checkerboard'] (for instance
    [None]) [place] succeeds on every constructed lattice, single rows and
    single columns included: it draws no shading, and every coupler is
    drawn unmirrored. *)
Theorem place_without_pattern (config : LatticeConfig.t)
    (fd : option FluxoniumDims.t) (cd : option TunableTransmonDims.t)
    (self : t) (origin : Q * Q) (labels : bool) (cell_pattern : option string)
    (first_cell : string) (shade_cells : bool) (shade_alpha : Q) :
  init (Some config) fd cd = Ok self →
  cell_pattern ≠ Some "checkerboard" →
  ∃ qubits couplers,
    place self origin labels cell_pattern first_cell shade_cells shade_alpha
    = Ok (qubits ++ couplers) ∧
    forallb is_qubit_cmd qubits = true ∧
    forallb is_coupler_cmd couplers = true ∧
    coupler_flags_2d couplers
    = (λ kv, (angle_of kv.2, false)) <$> sorted_edges self.
Proof.
  intros Hinit Hcp.
  assert (Hm : ∀ k v, _edge_positions self !! k = Some v →
     (direction v = "horizontal" ∨ direction v = "vertical") ∧
     (if decide (cell_pattern = Some "checkerboard")
      then _mirror_for_edge self k (direction v) first_cell else Ok false)
     = Ok false).
  { intros k v Hk. split; [by eapply init_edge_direction |].
    by rewrite decide_False. }
  pose proof (mapM_place_coupler self origin labels cell_pattern
                first_cell (λ _ _, false) Hm) as Hmap.
  destruct (place_structure _ _ _ _ _ shade_cells shade_alpha _ Hmap)
    as (shading & qubits & Hp & _ & Hfq & Hls & _).
  destruct (coupler_cmds_join origin labels (sorted_edges self)
              (λ _ _, false)) as (Hfc & _ & Hflags).
  assert (shading = []) as ->.
  { apply nil_length_inv. rewrite Hls.
    rewrite bool_decide_eq_false_2, andb_false_r by done. done. }
  eexists qubits, _. split; [exact Hp |]. done.
Qed.

Lemma place_without_pattern_witness :
  ∃ self, init (Some (LatticeConfig.mk 1 3 0 20)) None None = Ok self ∧
    ∃ cmds, place self (0, 0)%Q false None "resonator" true (15 # 100) = Ok cmds.
Proof.
  destruct (init_ok (Some (LatticeConfig.mk 1 3 0 20)) None None)
    as [self Hinit]; [by vm_compute | by left | by right |].
  exists self. split; [exact Hinit |].
  destruct (place_without_pattern _ _ _ _ (0, 0)%Q false None "resonator" true
              (15 # 100) Hinit) as (qs & cs & Hp & _); [done |].
  eexists. exact Hp.
Defined.

End PlaceTheorems.

(** ** Mirror flags: symmetry, unit cells, and the 3D renderer *)

Section MirrorTheorems.
Import SquareLattice.
Local Open Scope Z_scope.

Lemma other_kind_kind fc : is_cell_kind fc → is_cell_kind (other_kind fc).
Proof. unfold other_kind, is_cell_kind. intros [-> | ->]; case_decide; auto. Qed.

Lemma cell_type_other_kind r c fc :
  is_cell_kind fc → _cell_type r c (other_kind fc) = other_kind (_cell_type r c fc).
Proof. unfold _cell_type, other_kind. intros [-> | ->]; repeat case_decide; done. Qed.

Lemma is_resonator_other_kind s :
  is_cell_kind s →
  bool_decide (other_kind s = "resonator") = negb (bool_decide (s = "resonator")).
Proof. unfold other_kind. by intros [-> | ->]. Qed.

(** X5: exchanging the two values of [first_cell] negates the mirror flag
    of every edge on which [_mirror_for_edge] returns one, and leaves the
    error where it raises. *)
Theorem mirror_first_cell_swap (self : t) (edge_key : (Z * Z) * (Z * Z))
    (direction first_cell : string) :
  is_cell_kind first_cell →
  _mirror_for_edge self edge_key direction (other_kind first_cell)
  = match _mirror_for_edge self edge_key direction first_cell with
    | Ok m => Ok (negb m)
    | Raise e => Raise e
    end.
Proof.
  intros Hfc. destruct edge_key as [[r c] k].
  assert (Hres : ∀ a b,
    bool_decide (_cell_type a b (other_kind first_cell) = "resonator")
    = negb (bool_decide (_cell_type a b first_cell = "resonator"))).
  { intros a b. rewrite cell_type_other_kind by done.
    apply is_resonator_other_kind. by apply cell_type_kind. }
  destruct (decide (direction = "horizontal")) as [-> | Hd].
  - destruct (decide (r < LatticeConfig.rows (cfg self) - 1)).
    + rewrite !mirror_horizontal_above by done. by rewrite Hres.
    + destruct (decide (r > 0)).
      * rewrite !mirror_horizontal_below by done.
        by rewrite !bool_decide_neq, Hres.
      * by rewrite !mirror_horizontal_none.
  - destruct (decide (c < LatticeConfig.cols (cfg self) - 1)).
    + rewrite !mirror_vertical_right by done.
      by rewrite !bool_decide_neq, Hres.
    + destruct (decide (c > 0)).
      * rewrite !mirror_vertical_left by done. by rewrite Hres.
      * by rewrite !mirror_vertical_none.
Qed.

Lemma mirror_first_cell_swap_witness :
  ∃ self, init (Some (LatticeConfig.mk 3 3 100 20)) None None = Ok self ∧
    _mirror_for_edge self ((1, 0), (1, 1)) "horizontal" "flux_line"
    = match _mirror_for_edge self ((1, 0), (1, 1)) "horizontal" "resonator" with
      | Ok m => Ok (negb m)
      | Raise e => Raise e
      end.
Proof.
  destruct (init_ok (Some (LatticeConfig.mk 3 3 100 20)) None None)
    as [self Hinit]; [by vm_compute | by left | by right |].
  exists self. split; [exact Hinit |].
  apply (mirror_first_cell_swap self ((1, 0), (1, 1)) "horizontal" "resonator").
  by left.
Defined.

Lemma is_resonator_neighbour r c r' c' fc :
  is_cell_kind fc →
  (r + c) `mod` 2 ≠ (r' + c') `mod` 2 →
  bool_decide (_cell_type r' c' fc = "resonator")
  = negb (bool_decide (_cell_type r c fc = "resonator")).
Proof.
  intros Hfc Hpar.
  pose proof (cell_type_flip r c r' c' fc Hfc Hpar) as Hne.
  destruct (cell_type_kind r c fc Hfc) as [Ha | Ha];
    destruct (cell_type_kind r' c' fc Hfc) as [Hb | Hb];
    rewrite Ha, Hb in *; done.
Qed.

(** X6: around every unit cell [(r, c)] of a constructed lattice (default
    arm indices) the four couplers agree: when the cell is resonator-typed
    the resonator arm of the coupler below points up (90), of the coupler
    above points down (270), of the coupler on the left points right (0)
    and of the coupler on the right points left (180), all into the cell;
    when the cell is flux-line-typed all four resonator arms point away
    from it.  This holds on the boundary of the lattice as well. *)
Theorem cell_couplers_consistent (config : LatticeConfig.t)
    (fd : option FluxoniumDims.t) (cd : option TunableTransmonDims.t)
    (self : t) (first_cell : string) (r c : Z) :
  init (Some config) fd cd = Ok self →
  is_cell_kind first_cell →
  TunableTransmonDims.squid_arm_index (coupler_dims self) = 0 →
  TunableTransmonDims.resonator_arm_index (coupler_dims self) = 1 →
  0 ≤ r < LatticeConfig.rows config - 1 →
  0 ≤ c < LatticeConfig.cols config - 1 →
  let inward := bool_decide (_cell_type r c first_cell = "resonator") in
  let dir := TunableTransmonCoupler.resonator_arm_direction (_coupler self) in
  ∃ m_below m_above m_left m_right,
    _mirror_for_edge self ((r, c), (r, c + 1)) "horizontal" first_cell = Ok m_below ∧
    _mirror_for_edge self ((r + 1, c), (r + 1, c + 1)) "horizontal" first_cell
    = Ok m_above ∧
    _mirror_for_edge self ((r, c), (r + 1, c)) "vertical" first_cell = Ok m_left ∧
    _mirror_for_edge self ((r, c + 1), (r + 1, c + 1)) "vertical" first_cell
    = Ok m_right ∧
    dir 0 m_below = (if inward then 90 else 270) ∧
    dir 0 m_above = (if inward then 270 else 90) ∧
    dir 90 m_left = (if inward then 0 else 180) ∧
    dir 90 m_right = (if inward then 180 else 0).
Proof.
  intros Hinit Hfc Hs Hr Hrr Hcc inward dir.
  destruct (init_size _ _ _ _ Hinit) as [Hrows Hcols].
  destruct (init_inv _ _ _ _ Hinit) as (_ & _ & Hcpl & _).
  destruct (coupler_init_angles _ _ Hcpl Hs Hr) as [Hsq Hre].
  assert (Hup : bool_decide (_cell_type (r + 1) c first_cell = "resonator")
                = negb inward).
  { apply is_resonator_neighbour; [done |].
    replace (r + 1 + c) with (r + c + 1) by lia.
    intros Heq. by apply (parity_succ (r + c)). }
  assert (Hright : bool_decide (_cell_type r (c + 1) first_cell = "resonator")
                = negb inward).
  { apply is_resonator_neighbour; [done |].
    replace (r + (c + 1)) with (r + c + 1) by lia.
    intros Heq. by apply (parity_succ (r + c)). }
  assert (Hdir : ∀ a m, dir a m
            = (a + if m then 90 else 270) `mod` 360).
  { intros a m. subst dir.
    unfold TunableTransmonCoupler.resonator_arm_direction,
      TunableTransmonCoupler.resolve_arms.
    destruct m; simpl; by rewrite ?Hsq, ?Hre. }
  exists inward, (negb inward), (negb inward), inward.
  split_and!.
  - apply mirror_horizontal_above. lia.
  - destruct (decide (r + 1 < LatticeConfig.rows (cfg self) - 1)) as [Hlt | Hge].
    + rewrite (mirror_horizontal_above _ _ _ _ _ Hlt). by rewrite Hup.
    + rewrite (mirror_horizontal_below _ _ _ _ _ Hge) by lia.
      replace (r + 1 - 1) with r by lia. by rewrite bool_decide_neq.
  - rewrite mirror_vertical_right by (done || lia). by rewrite bool_decide_neq.
  - destruct (decide (c + 1 < LatticeConfig.cols (cfg self) - 1)) as [Hlt | Hge].
    + rewrite mirror_vertical_right by done.
      by rewrite bool_decide_neq, Hright, negb_involutive.
    + rewrite mirror_vertical_left by (done || lia).
      by replace (c + 1 - 1) with c by lia.
  - rewrite Hdir. by destruct inward.
  - rewrite Hdir. by destruct inward.
  - rewrite Hdir. by destruct inward.
  - rewrite Hdir. by destruct inward.
Qed.

Lemma cell_couplers_consistent_witness :
  ∃ self, init (Some (LatticeConfig.mk 2 2 100 20)) None None = Ok self ∧
    ∃ m_above m_right,
      _mirror_for_edge self ((1, 0), (1, 1)) "horizontal" "resonator" = Ok m_above ∧
      _mirror_for_edge self ((0, 1), (1, 1)) "vertical" "resonator" = Ok m_right ∧
      TunableTransmonCoupler.resonator_arm_direction (_coupler self) 0 m_above = 270 ∧
      TunableTransmonCoupler.resonator_arm_direction (_coupler self) 90 m_right = 180.
Proof.
  destruct (init_ok (Some (LatticeConfig.mk 2 2 100 20)) None None)
    as [self Hinit]; [by vm_compute | by left | by right |].
  exists self. split; [exact Hinit |].
  destruct (init_inv _ _ _ _ Hinit) as (_ & Hcd & _).
  destruct (cell_couplers_consistent _ _ _ _ "resonator" 0 0 Hinit)
    as (mb & ma & ml & mr & _ & Ha & _ & Hr & _ & Hda & _ & Hdr);
    [by left | by rewrite Hcd | by rewrite Hcd | simpl; lia | simpl; lia |].
  exists ma, mr. split_and!; [exact Ha | exact Hr | exact Hda | exact Hdr].
Defined.

End MirrorTheorems.

Section RendererTheorems.
Import SquareLattice.
Local Open Scope Z_scope.









End RendererTheorems.

Section Chain3DTheorems.
Import JJChainDims.
Local Open Scope Q_scope.






(** Both chains divide by the period. *)
Lemma chain_zero_period (d : JJChainDims.t) :
  island_len d + gap d == 0 →
  JJChain._generate d = Raise ZeroDivisionError ∧
  JJChain3D.place d = Raise ZeroDivisionError.
Proof.
  intros Hz. unfold JJChain._generate, JJChain3D.place.
  by rewrite (proj2 (Qeq_bool_iff _ _) Hz).
Qed.

End Chain3DTheorems.

Section XmonTheorems.

Lemma xmon_generate_cases (w ph : Q) (al : gmap Z Q) :
  match Xmon._generate w ph al with
  | Ok patches =>
      ∃ l0 l90 l180 l270,
        al !! 0%Z = Some l0 ∧ al !! 90%Z = Some l90 ∧
        al !! 180%Z = Some l180 ∧ al !! 270%Z = Some l270 ∧
        patches = cross_patches w ph l0 l90 l180 l270
  | Raise e =>
      e = KeyError ∧ ∃ a, a ∈ [0; 90; 180; 270]%Z ∧ al !! a = None
  end.
Proof.
  unfold Xmon._generate, getitem. cbn [foldM].
  destruct (al !! 0%Z) as [l0 |] eqn:H0; cbn [mbind result_bind];
    [| split; [done | exists 0%Z; split; [set_solver | done]]].
  destruct (al !! 90%Z) as [l90 |] eqn:H90; cbn [mbind result_bind];
    [| split; [done | exists 90%Z; split; [set_solver | done]]].
  destruct (al !! 180%Z) as [l180 |] eqn:H180; cbn [mbind result_bind];
    [| split; [done | exists 180%Z; split; [set_solver | done]]].
  destruct (al !! 270%Z) as [l270 |] eqn:H270; cbn [mbind result_bind];
    [| split; [done | exists 270%Z; split; [set_solver | done]]].
  exists l0, l90, l180, l270. split_and!; done.
Qed.

(** X9: the constructor of the cross with explicit arm lengths.  It
    raises [KeyError] exactly when one of the keys 0, 90, 180, 270 is
    missing from [arm_lengths], and nothing else; otherwise the cross
    keeps the dict as given (further keys are ignored) and has nine
    patches: the centre square, then for each angle in the order 0, 90,
    180, 270 an arm of that length and a pad that starts where the arm
    ends. *)
Theorem xmon_init_arm_lengths (dims : option (XmonDims.t + CouplerXmonDims.t))
    (al : gmap Z Q) :
  match Xmon.init dims (Some al) with
  | Ok self =>
      Xmon._arm_lengths self = al ∧
      ∃ l0 l90 l180 l270,
        al !! 0%Z = Some l0 ∧ al !! 90%Z = Some l90 ∧
        al !! 180%Z = Some l180 ∧ al !! 270%Z = Some l270 ∧
        Xmon._patches self
        = cross_patches (Xmon.arm_width self) (Xmon.pad_head_size self)
            l0 l90 l180 l270 ∧
        length (Xmon._patches self) = 9%nat
  | Raise e =>
      e = KeyError ∧ ∃ a, a ∈ [0; 90; 180; 270]%Z ∧ al !! a = None
  end.
Proof.
  unfold Xmon.init.
  set (d := match dims with Some d => d | None => inl XmonDims.default end).
  pose proof (xmon_generate_cases (Xmon.dims_arm_width d)
                (Xmon.dims_pad_head_size d) al) as Hg.
  destruct (Xmon._generate _ _ al) as [patches | e]; cbn [mbind result_bind].
  - destruct Hg as (l0 & l90 & l180 & l270 & H0 & H90 & H180 & H270 & ->).
    split; [done |]. exists l0, l90, l180, l270. split_and!; done.
  - exact Hg.
Qed.

Lemma xmon_init_patches dims arm_lengths self :
  Xmon.init dims arm_lengths = Ok self →
  ∃ l0 l90 l180 l270,
    Xmon._arm_lengths self !! 0%Z = Some l0 ∧
    Xmon._arm_lengths self !! 90%Z = Some l90 ∧
    Xmon._arm_lengths self !! 180%Z = Some l180 ∧
    Xmon._arm_lengths self !! 270%Z = Some l270 ∧
    Xmon._patches self
    = cross_patches (Xmon.arm_width self) (Xmon.pad_head_size self)
        l0 l90 l180 l270.
Proof.
  unfold Xmon.init.
  set (d := match dims with Some d => d | None => inl XmonDims.default end).
  set (al := match arm_lengths, d with
             | Some al, _ => al | None, inr d => _ | None, inl d => _ end).
  pose proof (xmon_generate_cases (Xmon.dims_arm_width d)
                (Xmon.dims_pad_head_size d) al) as Hg.
  destruct (Xmon._generate _ _ al) as [patches | e]; cbn [mbind result_bind];
    [| done].
  intros [= <-]. exact Hg.
Qed.

Lemma cos_sin_quarter_turns (a : Z) :
  a ∈ [0; 90; 180; 270]%Z →
  (cos (XmonAnchors.radians a), sin (XmonAnchors.radians a))
  = XmonAnchors.arm_direction a.
Proof.
  intros Ha. unfold XmonAnchors.radians, XmonAnchors.arm_direction.
  set_unfold. destruct Ha as [-> | [-> | [-> | [-> | []]]]]; simpl.
  - replace (0 * PI / 180)%R with 0%R by lra. by rewrite cos_0, sin_0.
  - replace (90 * PI / 180)%R with (PI / 2)%R by lra.
    by rewrite cos_PI2, sin_PI2.
  - replace (180 * PI / 180)%R with PI by lra. by rewrite cos_PI, sin_PI.
  - replace (270 * PI / 180)%R with (3 * (PI / 2))%R by lra.
    by rewrite cos_3PI2, sin_3PI2.
Qed.

(** X10: the anchor of an arm is the outer edge of its pad.  On every
    constructed cross and for each of the angles 0, 90, 180, 270 (number
    [k] in this order), [arm_tip] succeeds; in exact arithmetic it is the
    point at distance [x + w] from the centre in the direction of the arm,
    where [(x, _, w, _)] is the pad of this arm, the patch number
    [2·k + 2]; the arm, patch number [2·k + 1], ends where the pad
    starts. *)
Theorem arm_tip_on_pad_edge dims arm_lengths (self : Xmon.t) (k : nat) (a : Z) :
  Xmon.init dims arm_lengths = Ok self →
  [0; 90; 180; 270]%Z !! k = Some a →
  ∃ arm pad,
    Xmon._patches self !! (2 * k + 1)%nat = Some (arm, a) ∧
    Xmon._patches self !! (2 * k + 2)%nat = Some (pad, a) ∧
    (arm.1.1.1 + arm.1.2 == pad.1.1.1)%Q ∧
    XmonAnchors.arm_tip self a
    = Ok (Vec.scale (XmonAnchors.arm_direction a) (Q2R (pad.1.1.1 + pad.1.2))).
Proof.
  intros Hinit Hk.
  destruct (xmon_init_patches _ _ _ Hinit)
    as (l0 & l90 & l180 & l270 & H0 & H90 & H180 & H270 & Hp).
  assert (Ha : a ∈ [0; 90; 180; 270]%Z) by (by eapply list_elem_of_lookup_2).
  pose proof (cos_sin_quarter_turns a Ha) as Hcs.
  unfold XmonAnchors.arm_tip, getitem. rewrite Hp.
  assert (Hgoal : ∀ arm_l,
    @Ok Vec.t
      ((Q2R (XmonAnchors.arm_tip_dist self arm_l)
        * cos (XmonAnchors.radians a))%R,
       (Q2R (XmonAnchors.arm_tip_dist self arm_l)
        * sin (XmonAnchors.radians a))%R)
    = Ok (Vec.scale (XmonAnchors.arm_direction a)
            (Q2R (Xmon.arm_width self / 2 + arm_l
                  + Xmon.pad_head_size self / (3 # 2))))).
  { intros arm_l. rewrite <- Hcs. unfold Vec.scale, XmonAnchors.arm_tip_dist.
    cbn [fst snd]. do 2 f_equal; apply Rmult_comm. }
  destruct k as [| [| [| [| k]]]]; simpl in Hk; simplify_eq.
  - rewrite H0. cbn [mbind result_bind]. do 2 eexists.
    split_and!; [reflexivity | reflexivity | simpl; ring | apply Hgoal].
  - rewrite H90. cbn [mbind result_bind]. do 2 eexists.
    split_and!; [reflexivity | reflexivity | simpl; ring | apply Hgoal].
  - rewrite H180. cbn [mbind result_bind]. do 2 eexists.
    split_and!; [reflexivity | reflexivity | simpl; ring | apply Hgoal].
  - rewrite H270. cbn [mbind result_bind]. do 2 eexists.
    split_and!; [reflexivity | reflexivity | simpl; ring | apply Hgoal].
Qed.

Lemma arm_tip_on_pad_edge_witness :
  ∃ self pad, Xmon.init (Some (inl XmonDims.default)) None = Ok self ∧
    Xmon._patches self !! 4%nat = Some (pad, 90%Z) ∧
    XmonAnchors.arm_tip self 90
    = Ok (Vec.scale (XmonAnchors.arm_direction 90) (Q2R (pad.1.1.1 + pad.1.2))).
Proof.
  destruct (xmon_init_ok (inl XmonDims.default)) as [self Hinit].
  destruct (arm_tip_on_pad_edge (Some (inl XmonDims.default)) None self 1 90 Hinit)
    as (arm & pad & _ & Hpad & _ & Htip); [reflexivity |].
  by exists self, pad.
Defined.

End XmonTheorems.

Section BridgeShape.
Import Mesh3D.
Local Open Scope R_scope.

Lemma linspace_lookup a b n i :
  (i < n)%nat → linspace a b n !! i = Some (sample a b n i).
Proof.
  intros Hi. unfold linspace, sample.
  destruct n as [| [| n]]; [lia | |].
  - replace i with 0%nat by lia. simpl. f_equal. lra.
  - change (map ?f ?l) with (f <$> l).
    by rewrite list_lookup_fmap, lookup_seq_lt.
Qed.

Lemma sample_first a b n : sample a b n 0 = a.
Proof. unfold sample. simpl. lra. Qed.

Lemma sample_last a b n : (2 <= n)%nat → sample a b n (n - 1) = b.
Proof.
  intros Hn. unfold sample. rewrite minus_INR by lia. simpl.
  assert (Hn' : 2 <= INR n) by (apply (le_INR 2); lia).
  field. lra.
Qed.

Lemma sample_mirror L n i :
  (2 <= n)%nat → (i < n)%nat →
  sample (- L / 2) (L / 2) n (n - 1 - i) = - sample (- L / 2) (L / 2) n i.
Proof.
  intros Hn Hi. unfold sample. rewrite !minus_INR by lia. simpl.
  assert (Hn' : 2 <= INR n) by (apply (le_INR 2); lia).
  field. lra.
Qed.

Lemma sample_increasing a b n i j :
  a < b → (i < j)%nat → (j < n)%nat → sample a b n i < sample a b n j.
Proof.
  intros Hab Hij Hj. unfold sample.
  assert (Hn' : INR j + 1 <= INR n).
  { rewrite <- S_INR. apply le_INR. lia. }
  assert (Hi' : INR i < INR j) by (by apply lt_INR).
  pose proof (pos_INR i).
  assert (Hstep : 0 < (b - a) / (INR n - 1)) by (apply Rdiv_lt_0_compat; lra).
  nra.
Qed.

Lemma dolan_rows (L w h t ov k : R) (res_x : nat) :
  let m := create_dolan_bridge L w h t ov k res_x in
  bot_rows m = (λ x, row_at w x (sigmoid_z L h ov k x))
                 <$> linspace (- L / 2) (L / 2) res_x ∧
  top_rows m = (λ x, row_at w x (sigmoid_z L h ov k x + t))
                 <$> linspace (- L / 2) (L / 2) res_x.
Proof.
  unfold create_dolan_bridge. cbv zeta. rewrite bridge_rows_fold. done.
Qed.

(** The profile takes its least value in the middle of the gap. *)
Lemma sigmoid_z_centre_least L h ov k x :
  0 <= h → 0 <= k → 2 * ov <= L →
  sigmoid_z L h ov k 0 <= sigmoid_z L h ov k x.
Proof.
  intros Hh Hk Hov. unfold sigmoid_z. cbv zeta.
  set (r := L / 2 - ov).
  replace (- L / 2 + ov) with (- r) by (subst r; lra).
  replace (k * (0 - - r)) with (k * r) by lra.
  replace (- k * (0 - r)) with (k * r) by lra.
  set (A := exp (k * (x - - r))). set (B := exp (- k * (x - r))).
  set (c := exp (k * r)).
  assert (HA : 0 < A) by apply exp_pos.
  assert (HB : 0 < B) by apply exp_pos.
  assert (Hc : 1 <= c).
  { subst c. rewrite <- exp_0.
    destruct (Req_dec (k * r) 0) as [-> | Hne]; [lra |].
    left. apply exp_increasing. subst r. nra. }
  assert (HAB : A * B = c * c).
  { subst A B c. rewrite <- !exp_plus. f_equal. lra. }
  apply Rmult_le_compat_l; [exact Hh |].
  assert (Hs : 2 * c <= A + B).
  { destruct (Rle_or_lt (2 * c) (A + B)) as [Hle | Hlt]; [exact Hle |].
    exfalso.
    assert (H1 : 0 < (2 * c - (A + B)) * (A + B)) by (apply Rmult_lt_0_compat; lra).
    assert (H2 : 0 < (2 * c - (A + B)) * (2 * c)) by (apply Rmult_lt_0_compat; lra).
    pose proof (Rle_0_sqr (A - B)) as H3. unfold Rsqr in H3. nra. }
  assert (Heq : 1 / (1 + A) + 1 / (1 + B) - (1 / (1 + c) + 1 / (1 + c))
                = ((2 + A + B) * (1 + c) - 2 * ((1 + A) * (1 + B)))
                  / ((1 + A) * (1 + B) * (1 + c))) by (field; lra).
  assert (Hnum : 0 <= (2 + A + B) * (1 + c) - 2 * ((1 + A) * (1 + B))) by nra.
  assert (Hden : 0 < (1 + A) * (1 + B) * (1 + c)).
  { repeat apply Rmult_lt_0_compat; lra. }
  assert (Hq : 0 <= ((2 + A + B) * (1 + c) - 2 * ((1 + A) * (1 + B)))
                    / ((1 + A) * (1 + B) * (1 + c))).
  { apply Rmult_le_pos; [exact Hnum |]. left. by apply Rinv_0_lt_compat. }
  lra.
Qed.

(** X11: the shape of the Dolan bridge.  With a positive step height and
    steepness and [2·overlap_len < total_length], the bottom height of
    [create_dolan_bridge] lies strictly between 0 and [h_step] at every
    [x], is the same at [x] and [−x], and is least at [x = 0]; so every
    bottom vertex of the mesh is above the substrate, below [h_step] and
    not below the height in the middle of the gap, and every top vertex
    is [thickness] higher. *)
Theorem dolan_bridge_shape (L w h t ov k : R) (res_x : nat) :
  0 < h → 0 < k → 2 * ov < L →
  let z := sigmoid_z L h ov k in
  let m := create_dolan_bridge L w h t ov k res_x in
  (∀ x, 0 < z x < h ∧ z (- x) = z x ∧ z 0 <= z x) ∧
  (∀ i v1 v2, bot_rows m !! i = Some (v1, v2) →
     v1.2 = v2.2 ∧ 0 < v1.2 < h ∧ z 0 <= v1.2 ∧
     ∃ u1 u2, top_rows m !! i = Some (u1, u2) ∧
       u1.1 = v1.1 ∧ u2.1 = v2.1 ∧ u1.2 = v1.2 + t ∧ u2.2 = v2.2 + t).
Proof.
  intros Hh Hk Hov z m.
  assert (Hz : ∀ x, 0 < z x < h ∧ z (- x) = z x ∧ z 0 <= z x).
  { intros x. split_and!.
    - unfold z, sigmoid_z. cbv zeta.
      pose proof (logistic_pos (k * (x - (- L / 2 + ov)))).
      pose proof (logistic_pos (- k * (x - (L / 2 - ov)))). nra.
    - by apply sigmoid_z_below_spec.
    - apply sigmoid_z_even.
    - apply sigmoid_z_centre_least; lra. }
  split; [exact Hz |].
  intros i v1 v2 Hi.
  destruct (dolan_rows L w h t ov k res_x) as [Hb Ht]. fold m in Hb, Ht.
  rewrite Hb in Hi. rewrite Ht.
  rewrite list_lookup_fmap in Hi. rewrite list_lookup_fmap.
  destruct (linspace (- L / 2) (L / 2) res_x !! i) as [x |]; [| done].
  simpl in Hi. injection Hi as <- <-. cbn [fst snd].
  destruct (Hz x) as (Hlo & _ & Hmin). fold z.
  split_and!; [done | lra | lra | done |].
  eexists _, _. split; [reflexivity |]. done.
Qed.

Lemma dolan_bridge_shape_witness :
  0 < sigmoid_z 20 3 (3 / 2) 2 5 < 3 ∧
  sigmoid_z 20 3 (3 / 2) 2 0 <= sigmoid_z 20 3 (3 / 2) 2 5.
Proof.
  destruct (dolan_bridge_shape 20 4 3 1 (3 / 2) 2 3) as [Hz _]; [lra | lra | lra |].
  destruct (Hz 5) as (H1 & _ & H2). split; [exact H1 | exact H2].
Defined.

(** X12: the samples of the Dolan bridge.  With at least two samples, row
    [i] of the mesh is at [x = −L/2 + i·L/(res_x − 1)]: the first row is
    at [−L/2] and the last at [L/2]; and the mesh is its own mirror image
    in the plane [x = 0]: row [res_x − 1 − i] is at [−x] with the same
    bottom and top heights as row [i]. *)
Theorem dolan_bridge_mirror (L w h t ov k : R) (res_x i : nat) :
  (2 <= res_x)%nat → (i < res_x)%nat →
  let m := create_dolan_bridge L w h t ov k res_x in
  let x := sample (- L / 2) (L / 2) res_x i in
  let z := sigmoid_z L h ov k x in
  bot_rows m !! i = Some (row_at w x z) ∧
  top_rows m !! i = Some (row_at w x (z + t)) ∧
  bot_rows m !! (res_x - 1 - i)%nat = Some (row_at w (- x) z) ∧
  top_rows m !! (res_x - 1 - i)%nat = Some (row_at w (- x) (z + t)) ∧
  (i = 0%nat → x = - L / 2) ∧ (i = (res_x - 1)%nat → x = L / 2).
Proof.
  intros Hn Hi m x z.
  destruct (dolan_rows L w h t ov k res_x) as [Hb Ht]. fold m in Hb, Ht.
  rewrite Hb, Ht, !list_lookup_fmap.
  rewrite !linspace_lookup by lia. cbn [fmap option_fmap option_map].
  rewrite sample_mirror by lia. fold x.
  rewrite sigmoid_z_even. fold z.
  split_and!; try done.
  - intros ->. apply sample_first.
  - intros ->. by apply sample_last.
Qed.

Lemma dolan_bridge_mirror_witness :
  let m := create_dolan_bridge 20 4 3 1 (3 / 2) 2 3 in
  ∃ x z, bot_rows m !! 0%nat = Some (row_at 4 x z) ∧
         bot_rows m !! 2%nat = Some (row_at 4 (- x) z) ∧ x = - (20) / 2.
Proof.
  intros m.
  destruct (dolan_bridge_mirror 20 4 3 1 (3 / 2) 2 3 0)
    as (H1 & _ & H2 & _ & H3 & _); [lia | lia |].
  eexists _, _. split; [exact H1 |]. split; [exact H2 |]. by apply H3.
Defined.

End BridgeShape.

Section HalfBridgeTheorems.
Import Mesh3D.
Local Open Scope R_scope.

Lemma half_rows_fold (L w h t ov k : R) (xs : list R) (m0 : bridge_mesh) :
  foldl (λ m x,
    let zb := HalfBridge.sigmoid_z L h ov k x in
    let zt := zb + t in
    mk_bridge (bot_rows m ++ [((x, - (w / 2), zb), (x, w / 2, zb))])
              (top_rows m ++ [((x, - (w / 2), zt), (x, w / 2, zt))])) m0 xs
  = mk_bridge
      (bot_rows m0 ++ ((λ x, row_at w x (HalfBridge.sigmoid_z L h ov k x)) <$> xs))
      (top_rows m0 ++ ((λ x, row_at w x (HalfBridge.sigmoid_z L h ov k x + t)) <$> xs)).
Proof.
  revert m0. induction xs as [| x xs IH]; intros m0; simpl.
  - destruct m0. by rewrite !app_nil_r.
  - rewrite IH. simpl. by rewrite <- !app_assoc.
Qed.

Lemma half_sigmoid_increasing L h ov k x y :
  0 < h → 0 < k → x < y →
  HalfBridge.sigmoid_z L h ov k x < HalfBridge.sigmoid_z L h ov k y.
Proof.
  intros Hh Hk Hxy. unfold HalfBridge.sigmoid_z. cbv zeta.
  apply Rmult_lt_compat_l; [exact Hh |].
  apply logistic_decreasing. nra.
Qed.

(** X13: the profile of the half bridge.  With a positive step height and
    steepness, the bottom height of [create_half_bridge] lies strictly
    between 0 and [h_step], increases strictly with [x], is [h_step / 2]
    at [step_x = total_length/2 − overlap_len] and is point-symmetric
    about that point; on a mesh of positive length the bottom heights
    rise from each row to the next, and each top vertex is [thickness]
    above the bottom vertex of its row. *)
Theorem half_bridge_profile (L w h t ov k : R) (res_x : nat) :
  0 < h → 0 < k →
  let z := HalfBridge.sigmoid_z L h ov k in
  let step_x := L / 2 - ov in
  let m := HalfBridge.create_half_bridge L w h t ov k res_x in
  (∀ x, 0 < z x < h) ∧
  (∀ x y, x < y → z x < z y) ∧
  z step_x = h / 2 ∧
  (∀ d, z (step_x + d) + z (step_x - d) = h) ∧
  (∀ i, (i < res_x)%nat →
     bot_rows m !! i
     = Some (row_at w (sample (- L / 2) (L / 2) res_x i)
               (z (sample (- L / 2) (L / 2) res_x i))) ∧
     top_rows m !! i
     = Some (row_at w (sample (- L / 2) (L / 2) res_x i)
               (z (sample (- L / 2) (L / 2) res_x i) + t))) ∧
  (0 < L → ∀ i j, (i < j)%nat → (j < res_x)%nat →
     z (sample (- L / 2) (L / 2) res_x i) < z (sample (- L / 2) (L / 2) res_x j)).
Proof.
  intros Hh Hk z step_x m.
  assert (Hmono : ∀ x y, x < y → z x < z y).
  { intros x y Hxy. by apply half_sigmoid_increasing. }
  split_and!.
  - intros x. unfold z, HalfBridge.sigmoid_z. cbv zeta.
    pose proof (logistic_pos (- k * (x - (L / 2 - ov)))).
    pose proof (logistic_lt_1 (- k * (x - (L / 2 - ov)))). nra.
  - exact Hmono.
  - unfold z, HalfBridge.sigmoid_z, step_x. cbv zeta.
    replace (- k * (L / 2 - ov - (L / 2 - ov))) with 0 by lra.
    rewrite exp_0. lra.
  - intros d. unfold z, HalfBridge.sigmoid_z, step_x. cbv zeta.
    replace (- k * (L / 2 - ov + d - (L / 2 - ov))) with (- (k * d)) by lra.
    replace (- k * (L / 2 - ov - d - (L / 2 - ov))) with (k * d) by lra.
    rewrite <- (logistic_compl (k * d)). lra.
  - intros i Hi. unfold m, HalfBridge.create_half_bridge. cbv zeta.
    rewrite half_rows_fold. cbn [bot_rows top_rows app].
    rewrite !list_lookup_fmap, linspace_lookup by done. done.
  - intros HL i j Hij Hj. apply Hmono. apply sample_increasing; [lra | done | done].
Qed.

Lemma half_bridge_profile_witness :
  HalfBridge.sigmoid_z 23 (59 / 20) 6 2 (23 / 2 - 6) = 59 / 20 / 2 ∧
  HalfBridge.sigmoid_z 23 (59 / 20) 6 2 0 < HalfBridge.sigmoid_z 23 (59 / 20) 6 2 1.
Proof.
  destruct (half_bridge_profile 23 6 (59 / 20) 3 6 2 80)
    as (_ & Hmono & Hmid & _); [lra | lra |].
  split; [exact Hmid | apply Hmono; lra].
Defined.

End HalfBridgeTheorems.

Section MeshFacesFacts.
Import MeshFaces.
Local Open Scope nat_scope.

Lemma bind_bind {A B C} (f : A → list B) (g : B → list C) (l : list A) :
  (l ≫= f) ≫= g = l ≫= (λ x, f x ≫= g).
Proof.
  induction l as [| x l IH]; csimpl; [done |].
  by rewrite bind_app, IH.
Qed.

Lemma fmap_bind_list {A B C} (f : A → list B) (g : B → C) (l : list A) :
  g <$> (l ≫= f) = l ≫= (λ x, g <$> f x).
Proof.
  induction l as [| x l IH]; csimpl; [done |].
  by rewrite fmap_app, IH.
Qed.

Lemma foldl_app_bind {A B} (f : A → list B) (l : list A) (acc : list B) :
  foldl (λ acc x, acc ++ f x) acc l = acc ++ (l ≫= f).
Proof.
  revert acc. induction l as [| x l IH]; intros acc; csimpl.
  - by rewrite app_nil_r.
  - by rewrite IH, app_assoc.
Qed.

Lemma seqZ_nat (n : nat) : seqZ 0 (Z.of_nat n) = Z.of_nat <$> seq 0 n.
Proof.
  unfold seqZ. rewrite Nat2Z.id.
  apply list_fmap_ext. intros i x _. lia.
Qed.

Lemma length_strip_faces tr tl n :
  length (strip_faces tr tl n) = (4 * (n - 1) + 2)%nat.
Proof.
  unfold strip_faces. rewrite length_app.
  rewrite (length_bind_const _ 4) by done.
  rewrite length_seq. simpl. lia.
Qed.

Lemma path_rings_index (n i : nat) :
  i < n →
  py_index (path_rings n) (Z.of_nat i)
  = Ok (4 * i, 4 * i + 1, 4 * i + 2, 4 * i + 3).
Proof.
  intros Hi. apply py_index_nat. unfold path_rings.
  by rewrite list_lookup_fmap, lookup_seq_lt.
Qed.

Lemma path_rings_last (n : nat) :
  1 <= n →
  py_index (path_rings n) (-1)
  = Ok (4 * (n - 1), 4 * (n - 1) + 1, 4 * (n - 1) + 2, 4 * (n - 1) + 3).
Proof.
  intros Hn. apply (py_index_neg _ 1); unfold path_rings;
    rewrite length_fmap, length_seq; [lia |].
  by rewrite list_lookup_fmap, lookup_seq_lt by lia.
Qed.

Lemma stitch_loop (tr tl m : nat) :
  foldl (λ faces i, faces ++ strip_stitch tr tl (Z.to_nat i)) []
    (Z.of_nat <$> seq 0 m)
  = seq 0 m ≫= strip_stitch tr tl.
Proof.
  rewrite foldl_fmap,
    (foldl_app_bind (λ i, strip_stitch tr tl (Z.to_nat (Z.of_nat i)))).
  simpl. apply list_bind_ext; [| done]. intros i. by rewrite Nat2Z.id.
Qed.

Lemma path_faces_eq (n : nat) :
  1 <= n → path_faces (path_rings n) = Ok (strip_faces 2 3 n).
Proof.
  intros Hn. unfold path_faces.
  replace (length (path_rings n)) with n
    by (unfold path_rings; by rewrite length_fmap, length_seq).
  replace (Z.of_nat n - 1)%Z with (Z.of_nat (n - 1)) by lia.
  rewrite seqZ_nat.
  rewrite (foldM_ok _ (λ faces i, faces ++ strip_stitch 2 3 (Z.to_nat i))).
  - cbn [mbind result_bind].
    pose proof (path_rings_index n 0 ltac:(lia)) as H0.
    change (Z.of_nat 0) with 0%Z in H0. rewrite H0, path_rings_last by lia.
    cbn [mbind result_bind]. rewrite stitch_loop.
    unfold strip_faces, strip_caps. by rewrite <- app_assoc.
  - intros faces x Hx. apply list_elem_of_fmap in Hx as (i & -> & Hi).
    apply elem_of_seq in Hi.
    rewrite (path_rings_index n i) by lia. cbn [mbind result_bind].
    replace (Z.of_nat i + 1)%Z with (Z.of_nat (S i)) by lia.
    rewrite (path_rings_index n (S i)) by lia. cbn [mbind result_bind].
    by rewrite Nat2Z.id.
Qed.

Lemma bridge_rows_index (n i : nat) :
  i < n →
  py_index (bridge_rows n).1 (Z.of_nat i) = Ok (4 * i, 4 * i + 1) ∧
  py_index (bridge_rows n).2 (Z.of_nat i) = Ok (4 * i + 2, 4 * i + 3).
Proof.
  intros Hi. split; apply py_index_nat; unfold bridge_rows; cbn [fst snd];
    by rewrite list_lookup_fmap, lookup_seq_lt.
Qed.

Lemma bridge_rows_last (n : nat) :
  1 <= n →
  py_index (bridge_rows n).1 (-1) = Ok (4 * (n - 1), 4 * (n - 1) + 1) ∧
  py_index (bridge_rows n).2 (-1) = Ok (4 * (n - 1) + 2, 4 * (n - 1) + 3).
Proof.
  intros Hn. split; apply (py_index_neg _ 1); unfold bridge_rows; cbn [fst snd];
    rewrite length_fmap, length_seq; try lia;
    by rewrite list_lookup_fmap, lookup_seq_lt by lia.
Qed.

Lemma bridge_faces_eq (n : nat) :
  1 <= n →
  bridge_faces (bridge_rows n).1 (bridge_rows n).2 = Ok (strip_faces 3 2 n).
Proof.
  intros Hn. unfold bridge_faces.
  replace (length (bridge_rows n).1) with n
    by (unfold bridge_rows; cbn [fst]; by rewrite length_fmap, length_seq).
  replace (Z.of_nat n - 1)%Z with (Z.of_nat (n - 1)) by lia.
  rewrite seqZ_nat.
  rewrite (foldM_ok _ (λ faces i, faces ++ strip_stitch 3 2 (Z.to_nat i))).
  - cbn [mbind result_bind].
    destruct (bridge_rows_index n 0) as [Hb0 Ht0]; [lia |].
    change (Z.of_nat 0) with 0%Z in Hb0, Ht0. rewrite Hb0, Ht0.
    destruct (bridge_rows_last n) as [-> ->]; [lia |].
    cbn [mbind result_bind]. rewrite stitch_loop.
    unfold strip_faces, strip_caps. by rewrite <- app_assoc.
  - intros faces x Hx. apply list_elem_of_fmap in Hx as (i & -> & Hi).
    apply elem_of_seq in Hi.
    destruct (bridge_rows_index n i) as [-> ->]; [lia |].
    replace (Z.of_nat i + 1)%Z with (Z.of_nat (S i)) by lia.
    destruct (bridge_rows_index n (S i)) as [-> ->]; [lia |].
    cbn [mbind result_bind]. by rewrite Nat2Z.id.
Qed.

Lemma bridge_faces_empty : bridge_faces (bridge_rows 0).1 (bridge_rows 0).2 = Raise IndexError.
Proof. reflexivity. Qed.

End MeshFacesFacts.

Section MeshFacesTheorems.
Import MeshFaces.
Local Open Scope nat_scope.

Local Ltac split_ors :=
  repeat match goal with
         | H : _ ∨ _ |- _ => destruct H as [H | H]
         | H : False |- _ => destruct H
         end.

Local Ltac open_pairs :=
  repeat match goal with
         | H : (_, _) = (_, _) |- _ => injection H; clear H; intros
         end.

(** Decide a membership in an explicit list whose entries are equal up to
    linear arithmetic. *)
Local Ltac pick_entry :=
  rewrite ?elem_of_cons;
  solve [ repeat first [ left; apply pair_equal_spec; split; lia | right ] ].

Lemma stitch_edges tr tl i :
  strip_stitch tr tl i ≫= face_edges
  = [(4 * i, 4 * i + 1); (4 * i + 1, 4 * S i + 1);
     (4 * S i + 1, 4 * S i); (4 * S i, 4 * i);
     (4 * i + tl, 4 * S i + tl); (4 * S i + tl, 4 * S i + tr);
     (4 * S i + tr, 4 * i + tr); (4 * i + tr, 4 * i + tl);
     (4 * i, 4 * S i); (4 * S i, 4 * S i + tl);
     (4 * S i + tl, 4 * i + tl); (4 * i + tl, 4 * i);
     (4 * i + 1, 4 * i + tr); (4 * i + tr, 4 * S i + tr);
     (4 * S i + tr, 4 * S i + 1); (4 * S i + 1, 4 * i + 1)].
Proof. reflexivity. Qed.

Lemma cap_edges tr tl n :
  strip_caps tr tl n ≫= face_edges
  = [(0, 0 + tl); (0 + tl, 0 + tr); (0 + tr, 0 + 1); (0 + 1, 0);
     (4 * (n - 1), 4 * (n - 1) + 1); (4 * (n - 1) + 1, 4 * (n - 1) + tr);
     (4 * (n - 1) + tr, 4 * (n - 1) + tl); (4 * (n - 1) + tl, 4 * (n - 1))].
Proof. reflexivity. Qed.

Lemma stitch_verts tr tl i :
  face_verts <$> strip_stitch tr tl i
  = [ {[4 * i; 4 * i + 1; 4 * S i + 1; 4 * S i]};
      {[4 * i + tl; 4 * S i + tl; 4 * S i + tr; 4 * i + tr]};
      {[4 * i; 4 * S i; 4 * S i + tl; 4 * i + tl]};
      {[4 * i + 1; 4 * i + tr; 4 * S i + tr; 4 * S i + 1]} ].
Proof. reflexivity. Qed.

Lemma cap_verts tr tl n :
  face_verts <$> strip_caps tr tl n
  = [ {[0; 0 + tl; 0 + tr; 0 + 1]};
      {[4 * (n - 1); 4 * (n - 1) + 1; 4 * (n - 1) + tr; 4 * (n - 1) + tl]} ].
Proof. reflexivity. Qed.

Lemma mesh_edges_strip tr tl n :
  mesh_edges (strip_faces tr tl n)
  = (seq 0 (n - 1) ≫= (λ i, strip_stitch tr tl i ≫= face_edges))
    ++ (strip_caps tr tl n ≫= face_edges).
Proof. unfold mesh_edges, strip_faces. by rewrite bind_app, bind_bind. Qed.

Lemma face_verts_strip tr tl n :
  face_verts <$> strip_faces tr tl n
  = (seq 0 (n - 1) ≫= (λ i, face_verts <$> strip_stitch tr tl i))
    ++ (face_verts <$> strip_caps tr tl n).
Proof. unfold strip_faces. by rewrite fmap_app, fmap_bind_list. Qed.

Lemma elem_of_mesh_edges_strip tr tl n e :
  e ∈ mesh_edges (strip_faces tr tl n)
  ↔ (∃ i, i < n - 1 ∧ e ∈ strip_stitch tr tl i ≫= face_edges)
    ∨ e ∈ strip_caps tr tl n ≫= face_edges.
Proof.
  rewrite mesh_edges_strip, elem_of_app, list_elem_of_bind.
  split; (intros [(i & H1 & H2) | H]; [left | by right]).
  - exists i. apply elem_of_seq in H2. split; [lia | done].
  - exists i. split; [done |]. apply elem_of_seq. lia.
Qed.

Lemma quad_elem (x a b c d : nat) :
  x ∈ ({[a; b; c; d]} : gset nat) ↔ x = a ∨ x = b ∨ x = c ∨ x = d.
Proof. rewrite !elem_of_union, !elem_of_singleton. tauto. Qed.

(** Equal vertex sets have the same members. *)
Lemma quad_members (a b c d : nat) (S : gset nat) :
  {[a; b; c; d]} = S → a ∈ S ∧ b ∈ S ∧ c ∈ S ∧ d ∈ S.
Proof. intros <-. rewrite !quad_elem. tauto. Qed.

Local Ltac quad_clash :=
  match goal with
  | H : @eq (gset _) _ _ |- _ =>
      apply quad_members in H; rewrite !quad_elem in H; lia
  end.

Lemma strip_faces_vertices tr tl n f v :
  2 <= n → (tr = 2 ∧ tl = 3) ∨ (tr = 3 ∧ tl = 2) →
  f ∈ strip_faces tr tl n → v ∈ face_verts f → v < 4 * n.
Proof.
  intros Hn Hc Hf Hv. unfold strip_faces in Hf.
  apply elem_of_app in Hf as [Hf | Hf].
  - apply list_elem_of_bind in Hf as (i & Hf & Hi). apply elem_of_seq in Hi.
    unfold strip_stitch, stitch in Hf. rewrite !elem_of_cons, elem_of_nil in Hf.
    split_ors; subst f;
      unfold face_verts in Hv; rewrite quad_elem in Hv; lia.
  - unfold strip_caps in Hf. rewrite !elem_of_cons, elem_of_nil in Hf.
    split_ors; subst f;
      unfold face_verts in Hv; rewrite quad_elem in Hv; lia.
Qed.

Lemma strip_faces_distinct tr tl n :
  2 <= n → (tr = 2 ∧ tl = 3) ∨ (tr = 3 ∧ tl = 2) →
  NoDup (face_verts <$> strip_faces tr tl n).
Proof.
  intros Hn Hc. rewrite face_verts_strip. apply NoDup_app. split_and!.
  - apply NoDup_bind; [| | apply NoDup_seq].
    + intros i j S _ _ Hi Hj. rewrite stitch_verts in Hi, Hj.
      rewrite !elem_of_cons, elem_of_nil in Hi. rewrite !elem_of_cons, elem_of_nil in Hj.
      split_ors;
        subst S; quad_clash.
    + intros i _. rewrite stitch_verts.
      repeat (apply NoDup_cons; split;
              [rewrite ?elem_of_cons, elem_of_nil; intros H; split_ors; quad_clash |]).
      apply NoDup_nil_2.
  - intros S HS Hcap. apply list_elem_of_bind in HS as (i & HS & Hi).
    apply elem_of_seq in Hi. rewrite stitch_verts in HS. rewrite cap_verts in Hcap.
    rewrite !elem_of_cons, elem_of_nil in HS. rewrite !elem_of_cons, elem_of_nil in Hcap.
    split_ors;
      subst S; quad_clash.
  - rewrite cap_verts.
    repeat (apply NoDup_cons; split;
            [rewrite ?elem_of_cons, elem_of_nil; intros H; split_ors; quad_clash |]).
    apply NoDup_nil_2.
Qed.

Lemma strip_edges_NoDup tr tl n :
  2 <= n → (tr = 2 ∧ tl = 3) ∨ (tr = 3 ∧ tl = 2) →
  NoDup (mesh_edges (strip_faces tr tl n)).
Proof.
  intros Hn Hc. rewrite mesh_edges_strip. apply NoDup_app. split_and!.
  - apply NoDup_bind; [| | apply NoDup_seq].
    + intros i j e _ _ Hi Hj. rewrite stitch_edges in Hi, Hj.
      rewrite !elem_of_cons, elem_of_nil in Hi. rewrite !elem_of_cons, elem_of_nil in Hj.
      split_ors;
        subst e; open_pairs; lia.
    + intros i _. rewrite stitch_edges.
      repeat (apply NoDup_cons; split;
              [rewrite ?elem_of_cons, elem_of_nil; intros H; split_ors; open_pairs; lia |]).
      apply NoDup_nil_2.
  - intros e He Hcap. apply list_elem_of_bind in He as (i & He & Hi).
    apply elem_of_seq in Hi. rewrite stitch_edges in He. rewrite cap_edges in Hcap.
    rewrite !elem_of_cons, elem_of_nil in He. rewrite !elem_of_cons, elem_of_nil in Hcap.
    split_ors;
      subst e; open_pairs; lia.
  - rewrite cap_edges.
    repeat (apply NoDup_cons; split;
            [rewrite ?elem_of_cons, elem_of_nil; intros H; split_ors; open_pairs; lia |]).
    apply NoDup_nil_2.
Qed.

Lemma strip_edges_swap tr tl n a b :
  2 <= n → (tr = 2 ∧ tl = 3) ∨ (tr = 3 ∧ tl = 2) →
  (a, b) ∈ mesh_edges (strip_faces tr tl n) →
  (b, a) ∈ mesh_edges (strip_faces tr tl n).
Proof.
  intros Hn Hc. rewrite !elem_of_mesh_edges_strip.
  intros [(i & Hi & He) | He].
  - rewrite stitch_edges in He. rewrite !elem_of_cons, elem_of_nil in He.
    split_ors; open_pairs; subst a b;
      first [ left; exists i; split; [lia |]; rewrite stitch_edges; pick_entry
            | destruct (decide (i = 0));
              [ right; rewrite cap_edges; pick_entry
              | left; exists (i - 1); split; [lia |];
                rewrite stitch_edges; pick_entry ]
            | destruct (decide (S i = n - 1));
              [ right; rewrite cap_edges; pick_entry
              | left; exists (S i); split; [lia |];
                rewrite stitch_edges; pick_entry ] ].
  - rewrite cap_edges in He. rewrite !elem_of_cons, elem_of_nil in He.
    split_ors; open_pairs; subst a b;
      first [ left; exists 0; split; [lia |]; rewrite stitch_edges; pick_entry
            | left; exists (n - 2); split; [lia |]; rewrite stitch_edges; pick_entry ].
Qed.

Lemma strip_closed tr tl n :
  2 <= n → (tr = 2 ∧ tl = 3) ∨ (tr = 3 ∧ tl = 2) →
  closed_surface (4 * n) (strip_faces tr tl n).
Proof.
  intros Hn Hc. unfold closed_surface. split_and!.
  - intros f v. by apply strip_faces_vertices.
  - by apply strip_faces_distinct.
  - by apply strip_edges_NoDup.
  - intros a b. by apply strip_edges_swap.
Qed.

Lemma length_mesh_edges faces : length (mesh_edges faces) = 4 * length faces.
Proof.
  unfold mesh_edges. rewrite (length_bind_const _ 4); [lia |].
  by intros [[[a b] c] d].
Qed.

(** X14: the mesh of [create_extruded_path] is closed.  For a path of
    [n ≥ 2] points the stitching loop and the two end caps succeed and
    make [4·(n − 1) + 2] quads on the [4·n] vertices; no two faces are on
    the same vertices; no directed edge occurs twice and every one occurs
    once in the opposite direction, so each edge is shared by exactly two
    faces that traverse it in opposite directions; vertices, edges and
    faces satisfy [V − E + F = 2]. *)
Theorem extruded_path_closed (n : nat) :
  2 <= n →
  ∃ faces, path_faces (path_rings n) = Ok faces ∧
    length faces = 4 * (n - 1) + 2 ∧
    closed_surface (4 * n) faces ∧
    4 * n + length faces = length (mesh_edges faces) / 2 + 2.
Proof.
  intros Hn. exists (strip_faces 2 3 n). split_and!.
  - apply path_faces_eq. lia.
  - apply length_strip_faces.
  - apply strip_closed; [done | by left].
  - rewrite length_mesh_edges, length_strip_faces.
    replace (4 * (4 * (n - 1) + 2)) with ((2 * (4 * (n - 1) + 2)) * 2) by lia.
    rewrite Nat.div_mul by done. lia.
Qed.

Lemma extruded_path_closed_witness :
  ∃ faces, path_faces (path_rings 3) = Ok faces ∧ length faces = 10 ∧
    closed_surface 12 faces.
Proof.
  destruct (extruded_path_closed 3) as (faces & H1 & H2 & H3 & _); [lia |].
  by exists faces.
Defined.

(** X15: the meshes of [create_dolan_bridge] and [create_half_bridge].
    With [res_x = 0] the end caps index an empty list and raise
    [IndexError].  With [res_x ≥ 2] the faces are built without error,
    there are [4·(res_x − 1) + 2] of them on the [4·res_x] vertices, and
    they form a closed, consistently oriented surface: no two faces on the
    same vertices, no directed edge twice, every directed edge once in the
    opposite direction. *)
Theorem bridge_mesh_closed (res_x : nat) :
  (res_x = 0 →
   bridge_faces (bridge_rows res_x).1 (bridge_rows res_x).2 = Raise IndexError) ∧
  (2 <= res_x →
   ∃ faces,
     bridge_faces (bridge_rows res_x).1 (bridge_rows res_x).2 = Ok faces ∧
     length faces = 4 * (res_x - 1) + 2 ∧
     closed_surface (4 * res_x) faces).
Proof.
  split.
  - intros ->. reflexivity.
  - intros Hn. exists (strip_faces 3 2 res_x). split_and!.
    + apply bridge_faces_eq. lia.
    + apply length_strip_faces.
    + apply strip_closed; [done | by right].
Qed.

Lemma bridge_mesh_closed_witness :
  ∃ faces, bridge_faces (bridge_rows 120).1 (bridge_rows 120).2 = Ok faces ∧
    length faces = 478 ∧ closed_surface 480 faces.
Proof.
  destruct (bridge_mesh_closed 120) as [_ H].
  destruct H as (faces & H1 & H2 & H3); [lia |].
  by exists faces.
Defined.

End MeshFacesTheorems.

Section Numbering.
Import SquareLattice.
Local Open Scope Z_scope.

#[global] Instance site_key_le_trans : Transitive site_key_le.
Proof. intros a b c. unfold site_key_le. lia. Qed.

#[global] Instance site_key_le_total : Total site_key_le.
Proof. intros a b. unfold site_key_le. lia. Qed.

Lemma site_key_le_antisym a b : site_key_le a b → site_key_le b a → a = b.
Proof. destruct a, b. unfold site_key_le. simpl. intros ??. f_equal; lia. Qed.

#[global] Instance by_key_trans {K V} (R : relation K) `{!Transitive R} :
  Transitive (λ x y : K * V, R x.1 y.1).
Proof. intros x y z. apply transitivity. Qed.

#[global] Instance by_key_total {K V} (R : relation K) `{!Total R} :
  Total (λ x y : K * V, R x.1 y.1).
Proof. intros x y. apply (total R). Qed.

Lemma seqZ_sorted m n : StronglySorted Z.lt (seqZ m n).
Proof.
  destruct (decide (0 ≤ n)) as [Hn | Hn]; [| rewrite seqZ_nil by lia; constructor].
  rewrite <- (Z2Nat.id n) by done. generalize (Z.to_nat n) as k. clear n Hn.
  intros k. induction k as [| k IH]; [constructor |].
  rewrite seqZ_S. apply StronglySorted_app_2; [| exact IH | repeat constructor].
  intros x1 x2 H1 H2. apply elem_of_seqZ in H1.
  apply list_elem_of_singleton in H2. lia.
Qed.

Lemma grid_sorted R C : StronglySorted site_key_le (grid R C).
Proof.
  unfold grid. pose proof (seqZ_sorted 0 R) as Hs.
  induction Hs as [| r lr Hlr IH Hr]; csimpl; [constructor |].
  apply StronglySorted_app_2; [| | exact IH].
  - intros x1 x2 H1 H2.
    apply list_elem_of_fmap in H1 as (c1 & -> & _).
    apply list_elem_of_bind in H2 as (r2 & H2 & Hr2).
    apply list_elem_of_fmap in H2 as (c2 & -> & _).
    rewrite Forall_forall in Hr. specialize (Hr _ Hr2).
    left. simpl. lia.
  - apply (StronglySorted_fmap _ Z.lt); [| apply seqZ_sorted].
    intros c1 c2 Hc. right. simpl. lia.
Qed.

Lemma lookup_bind_const {A B} (f : A → list B) (n : nat) (l : list A) i j :
  (∀ x, length (f x) = n) → (j < n)%nat →
  (l ≫= f) !! (i * n + j)%nat = l !! i ≫= (λ x, f x !! j).
Proof.
  intros Hf Hj. revert i. induction l as [| x l IH]; intros i; csimpl.
  - by rewrite !lookup_nil.
  - destruct i as [| i]; simpl.
    + rewrite lookup_app_l by (rewrite Hf; lia). done.
    + rewrite lookup_app_r by (rewrite Hf; lia). rewrite Hf.
      replace (n + i * n + j - n)%nat with (i * n + j)%nat by lia. apply IH.
Qed.

Lemma lookup_grid R C r c :
  0 ≤ r < R → 0 ≤ c < C →
  grid R C !! Z.to_nat (r * C + c) = Some (r, c).
Proof.
  intros Hr Hc. unfold grid.
  replace (Z.to_nat (r * C + c))
    with (Z.to_nat r * Z.to_nat C + Z.to_nat c)%nat by nia.
  rewrite (lookup_bind_const _ (Z.to_nat C)).
  - rewrite lookup_seqZ_lt by lia. simpl.
    rewrite list_lookup_fmap, lookup_seqZ_lt by lia. simpl.
    do 2 f_equal; lia.
  - intros x. by rewrite length_fmap, length_seqZ.
  - lia.
Qed.

(** [sorted(self._site_positions.items())] is the list of the sites row by
    row. *)
Lemma sorted_sites_eq config fd cd self :
  init config fd cd = Ok self →
  sorted_sites self = site_items (cfg self).
Proof.
  intros Hinit. destruct (init_inv _ _ _ _ Hinit) as (_ & _ & _ & Hs & _).
  assert (Hnd : NoDup (site_items (cfg self)).*1).
  { replace (site_items (cfg self)).*1
      with (grid (LatticeConfig.rows (cfg self)) (LatticeConfig.cols (cfg self))).
    - apply NoDup_grid.
    - unfold site_items. generalize (grid (LatticeConfig.rows (cfg self))
                                          (LatticeConfig.cols (cfg self))).
      intros l. induction l as [| x l IH]; csimpl; [done | by rewrite <- IH]. }
  assert (Hperm : map_to_list (_site_positions self) ≡ₚ site_items (cfg self)).
  { rewrite Hs. rewrite map_to_list_to_map.
    - apply reverse_Permutation.
    - rewrite fmap_reverse. by apply NoDup_reverse. }
  unfold sorted_sites.
  apply (StronglySorted_unique_strong (λ x y, site_key_le x.1 y.1)).
  - intros [k1 v1] [k2 v2] H1 H2 Hle1 Hle2. simpl in *.
    assert (k1 = k2) as -> by (by apply site_key_le_antisym).
    f_equal.
    rewrite merge_sort_Permutation, Hperm in H1.
    rewrite <- Hperm in H1, H2.
    apply elem_of_map_to_list in H1, H2. congruence.
  - apply StronglySorted_merge_sort; apply _.
  - unfold site_items.
    apply (StronglySorted_fmap _ site_key_le); [| apply grid_sorted].
    intros x y Hxy. exact Hxy.
  - by rewrite merge_sort_Permutation.
Qed.

(** X16: how the data qubits are numbered.  On a constructed lattice the
    qubit on site [(r, c)] is drawn at [(c·pitch, r·pitch)] and has the
    number [r·cols + c], in the 3D scene and in the 2D drawing alike: the
    sites are visited row by row, and the label of the 2D drawing is
    ["D"] followed by this number, 40 below the qubit. *)
Theorem qubit_numbering (config : LatticeConfig.t)
    (fd : option FluxoniumDims.t) (cd : option TunableTransmonDims.t)
    (self : t) (r c : Z) :
  init (Some config) fd cd = Ok self →
  0 ≤ r < LatticeConfig.rows config → 0 ≤ c < LatticeConfig.cols config →
  let idx := Z.to_nat (r * LatticeConfig.cols config + c) in
  let p := LatticeConfig.pitch (cfg self) in
  let x := (inject_Z c * p)%Q in
  let y := (inject_Z r * p)%Q in
  sorted_sites self !! idx = Some ((r, c), (x, y)) ∧
  length (sorted_sites self)
  = Z.to_nat (LatticeConfig.rows config * LatticeConfig.cols config) ∧
  BlenderRenderer._draw_data_qubits self !! idx
  = Some (BlenderRenderer.PlaceFluxonium3D (x, y, 0%Q) 0 idx) ∧
  (∀ origin labels cp fc shade alpha cmds,
     place self origin labels cp fc shade alpha = Ok cmds →
     PlaceDataQubit (x + origin.1, y + origin.2)%Q ∈ cmds ∧
     (labels = true →
      Text (x + origin.1, y + origin.2 - 40)%Q "D" idx ∈ cmds)).
Proof.
  intros Hinit Hr Hc idx p x y.
  destruct (init_size _ _ _ _ Hinit) as [Hrows Hcols].
  assert (Hlk : sorted_sites self !! idx = Some ((r, c), (x, y))).
  { rewrite (sorted_sites_eq _ _ _ _ Hinit). unfold site_items.
    rewrite list_lookup_fmap. unfold idx. rewrite <- Hcols.
    rewrite lookup_grid by lia. done. }
  split_and!.
  - exact Hlk.
  - rewrite (sorted_sites_eq _ _ _ _ Hinit). unfold site_items.
    rewrite length_fmap, length_grid, Hrows, Hcols. nia.
  - unfold BlenderRenderer._draw_data_qubits.
    rewrite list_lookup_imap, Hlk. done.
  - intros [ox oy] labels cp fc shade alpha cmds Hplace.
    unfold place in Hplace.
    destruct (mapM _ _) as [couplers | e]; cbn [mbind result_bind] in Hplace;
      [| done].
    injection Hplace as <-. cbn [fst snd].
    split.
    + apply elem_of_app. right. apply elem_of_app. left.
      apply list_elem_of_join. eexists. split; [| apply list_elem_of_lookup_2 with idx;
        rewrite list_lookup_imap, Hlk; reflexivity].
      simpl. apply list_elem_of_here.
    + intros ->.
      apply elem_of_app. right. apply elem_of_app. left.
      apply list_elem_of_join. eexists. split; [| apply list_elem_of_lookup_2 with idx;
        rewrite list_lookup_imap, Hlk; reflexivity].
      simpl. apply list_elem_of_further, list_elem_of_here.
Qed.

Lemma qubit_numbering_witness :
  ∃ self, init (Some (LatticeConfig.mk 3 4 100 20)) None None = Ok self ∧
    sorted_sites self !! 6%nat = Some ((1, 2), (200, 100)%Q) ∧
    length (sorted_sites self) = 12%nat.
Proof.
  destruct (init_ok (Some (LatticeConfig.mk 3 4 100 20)) None None)
    as [self Hinit]; [by vm_compute | by left | by right |].
  exists self. split; [exact Hinit |].
  destruct (qubit_numbering _ _ _ _ 1 2 Hinit) as (H1 & H2 & _);
    [simpl; lia | simpl; lia |].
  destruct (init_inv _ _ _ _ Hinit) as (Hcfg & _).
  rewrite Hcfg in H1. split; [exact H1 | exact H2].
Defined.

End Numbering.

Section CouplerOrder.
Import SquareLattice.
Local Open Scope Z_scope.

Lemma edge_key_le_alt a1 a2 a3 a4 b1 b2 b3 b4 :
  edge_key_le ((a1, a2), (a3, a4)) ((b1, b2), (b3, b4))
  ↔ a1 < b1 ∨ (a1 = b1 ∧ (a2 < b2 ∨ (a2 = b2 ∧
      (a3 < b3 ∨ (a3 = b3 ∧ a4 ≤ b4))))).
Proof.
  unfold edge_key_le, site_key_le. cbn [fst snd].
  rewrite !pair_equal_spec. lia.
Qed.

#[global] Instance edge_key_le_trans : Transitive edge_key_le.
Proof.
  intros [[a1 a2] [a3 a4]] [[b1 b2] [b3 b4]] [[c1 c2] [c3 c4]].
  rewrite !edge_key_le_alt. lia.
Qed.

#[global] Instance edge_key_le_total : Total edge_key_le.
Proof.
  intros [[a1 a2] [a3 a4]] [[b1 b2] [b3 b4]].
  rewrite !edge_key_le_alt. lia.
Qed.







Lemma StronglySorted_NoDup {A} (R : relation A) (l : list A) :
  (∀ x, ¬ R x x) → StronglySorted R l → NoDup l.
Proof.
  intros Hirr Hl. induction Hl as [| x l Hl IH Hx]; constructor; [| exact IH].
  intros Hin. rewrite Forall_forall in Hx. by apply (Hirr x), Hx.
Qed.






End CouplerOrder.

Section PitchTheorems.
Import SquareLattice.
Local Open Scope Q_scope.

Lemma xmon_init_default_lengths d self :
  Xmon.init (Some d) None = Ok self →
  Xmon.arm_width self = Xmon.dims_arm_width d ∧
  Xmon.pad_head_size self = Xmon.dims_pad_head_size d ∧
  ∀ a, a ∈ [0; 90; 180; 270]%Z →
    Xmon._arm_lengths self !! a
    = Some (match d with
            | inl d => XmonDims.arm_len d
            | inr d => if decide (a = 0 ∨ a = 180)%Z
                       then CouplerXmonDims.long_arm_len d
                       else CouplerXmonDims.short_arm_len d
            end).
Proof.
  unfold Xmon.init. destruct (Xmon._generate _ _ _) as [patches | e];
    cbn [mbind result_bind]; [| done].
  intros [= <-]. cbn [Xmon.arm_width Xmon.pad_head_size Xmon._arm_lengths].
  split; [done |]. split; [done |].
  intros a Ha. rewrite !elem_of_cons, elem_of_nil in Ha.
  destruct d as [d | d];
    destruct Ha as [-> | [-> | [-> | [-> | []]]]];
    repeat (rewrite ?lookup_insert_eq; try rewrite lookup_insert_ne by done);
    try done.
Qed.

Lemma init_components config fd cd self :
  init config fd cd = Ok self →
  Xmon.init (Some (inl (FluxoniumDims.xmon (default FluxoniumDims.default fd)))) None
  = Ok (FluxoniumQubit._xmon (_data_qubit self)) ∧
  Xmon.init (Some (inr (TunableTransmonDims.xmon
                          (default TunableTransmonDims.default cd)))) None
  = Ok (TunableTransmonCoupler._xmon (_coupler self)) ∧
  cfg self = resolved_cfg config fd cd.
Proof.
  intros Hinit. rewrite init_eq in Hinit.
  destruct (FluxoniumQubit.init _) as [dq |] eqn:Hdq;
    cbn [mbind result_bind] in Hinit; [| done].
  destruct (TunableTransmonCoupler.init _) as [cp |] eqn:Hcp;
    cbn [mbind result_bind] in Hinit; [| done].
  injection Hinit as <-. cbn [_data_qubit _coupler cfg].
  split_and!; [| | done].
  - unfold FluxoniumQubit.init in Hdq.
    destruct (Xmon.init _ None) as [x1 |]; cbn [mbind result_bind] in Hdq; [| done].
    destruct (JJChain.init _) as [ch |]; cbn [mbind result_bind] in Hdq; [| done].
    by injection Hdq as <-.
  - unfold TunableTransmonCoupler.init in Hcp.
    destruct (Xmon.init _ None) as [x2 |]; cbn [mbind result_bind] in Hcp; [| done].
    destruct (getitem _ (TunableTransmonDims.squid_arm_index _)) as [sa |];
      cbn [mbind result_bind] in Hcp; [| done].
    destruct (getitem _ (TunableTransmonDims.resonator_arm_index _)) as [ra |];
      cbn [mbind result_bind] in Hcp; [| done].
    by injection Hcp as <-.
Qed.

(** X18: the automatic pitch leaves exactly [pad_gap] between facing
    pads.  On a constructed lattice whose configured pitch is not
    positive, half the pitch, which is the distance from a site to the
    coupler on an adjacent edge, exceeds the sum of the tip distance of a
    qubit arm and the tip distance of a long coupler arm by exactly
    [pad_gap].  A positive configured pitch is kept as given, whatever
    the size of the components. *)
Theorem auto_pitch_clearance (config : LatticeConfig.t)
    (fd : option FluxoniumDims.t) (cd : option TunableTransmonDims.t)
    (self : t) (a_q a_c : Z) :
  init (Some config) fd cd = Ok self →
  a_q ∈ [0; 90; 180; 270]%Z → a_c ∈ [0; 180]%Z →
  let xq := FluxoniumQubit._xmon (_data_qubit self) in
  let xc := TunableTransmonCoupler._xmon (_coupler self) in
  let p := LatticeConfig.pitch (cfg self) in
  ∃ lq lc,
    Xmon._arm_lengths xq !! a_q = Some lq ∧
    Xmon._arm_lengths xc !! a_c = Some lc ∧
    (∀ r c, (midpoint (site_xy p r c) (site_xy p r (c + 1))).1 - (site_xy p r c).1
            == p / 2 ∧
            (midpoint (site_xy p r c) (site_xy p (r + 1) c)).2 - (site_xy p r c).2
            == p / 2) ∧
    (LatticeConfig.pitch config <= 0 →
     p / 2 - XmonAnchors.arm_tip_dist xq lq - XmonAnchors.arm_tip_dist xc lc
     == LatticeConfig.pad_gap config) ∧
    (0 < LatticeConfig.pitch config → p = LatticeConfig.pitch config).
Proof.
  intros Hinit Haq Hac xq xc p.
  destruct (init_components _ _ _ _ Hinit) as (Hx1 & Hx2 & Hcfg).
  fold xq in Hx1. fold xc in Hx2.
  destruct (xmon_init_default_lengths _ _ Hx1) as (Hw1 & Hp1 & Hl1).
  destruct (xmon_init_default_lengths _ _ Hx2) as (Hw2 & Hp2 & Hl2).
  eexists _, _. split; [by apply Hl1 |]. split.
  { apply Hl2. rewrite !elem_of_cons, elem_of_nil in Hac.
    rewrite !elem_of_cons. tauto. }
  rewrite decide_True
    by (rewrite !elem_of_cons, elem_of_nil in Hac; tauto).
  split_and!.
  - intros r c. unfold midpoint, site_xy. cbn [fst snd].
    rewrite !inject_Z_plus. change (inject_Z 1) with 1. split; field.
  - intros Hle. unfold XmonAnchors.arm_tip_dist.
    rewrite Hw1, Hp1, Hw2, Hp2. subst p. rewrite Hcfg. unfold resolved_cfg.
    simpl (default LatticeConfig.default (Some config)).
    rewrite (proj2 (Qle_bool_iff _ _) Hle).
    cbn [LatticeConfig.pitch LatticeConfig.pad_gap].
    unfold _compute_min_pitch, Xmon.dims_arm_width, Xmon.dims_pad_head_size.
    field.
  - intros Hpos. subst p. rewrite Hcfg. unfold resolved_cfg.
    simpl (default LatticeConfig.default (Some config)).
    destruct (Qle_bool (LatticeConfig.pitch config) 0) eqn:Hb; [| done].
    apply Qle_bool_iff in Hb. lra.
Qed.

Lemma auto_pitch_clearance_witness :
  ∃ self lq lc, init (Some (LatticeConfig.mk 3 3 0 20)) None None = Ok self ∧
    LatticeConfig.pitch (cfg self) / 2
    - XmonAnchors.arm_tip_dist (FluxoniumQubit._xmon (_data_qubit self)) lq
    - XmonAnchors.arm_tip_dist (TunableTransmonCoupler._xmon (_coupler self)) lc
    == 20.
Proof.
  destruct (init_ok (Some (LatticeConfig.mk 3 3 0 20)) None None)
    as [self Hinit]; [by vm_compute | by left | by right |].
  destruct (auto_pitch_clearance _ _ _ _ 0 180 Hinit)
    as (lq & lc & _ & _ & _ & Hgap & _);
    [rewrite !elem_of_cons; tauto | rewrite !elem_of_cons; tauto |].
  exists self, lq, lc. split; [exact Hinit |]. apply Hgap. discriminate.
Defined.

End PitchTheorems.

Section RibbonTheorems.
Local Open Scope R_scope.

Lemma norm_scaled_unit (n : Vec.t) (k : R) :
  Vec.is_unit n → Vec.norm (Vec.scale n k) = Rabs k.
Proof.
  intros Hn. unfold Vec.norm, Vec.scale, Vec.is_unit in *. cbn [fst snd].
  replace (n.1 * k * (n.1 * k) + n.2 * k * (n.2 * k)) with (Rsqr k)
    by (unfold Rsqr; nra).
  apply sqrt_Rsqr_abs.
Qed.




(** X20: the cross-section of the extruded path.  At every point of a
    path of at least two points, degenerate tangents included, the ring
    is a rectangle around the point: the two bottom corners are at
    [z = −height/2] and the two top corners straight above them at
    [z = height/2], the point is midway between the left and the right
    corners, which are [|width|] apart, and the line between them is
    perpendicular to the unit tangent in use. *)
Theorem extruded_path_cross_section (pts : list Vec.t) (w h : R) :
  (2 <= length pts)%nat →
  ∃ rings, Mesh3D.create_extruded_path pts w h = Ok (Some rings) ∧
    length rings = length pts ∧
    ∀ i, (i < length pts)%nat →
      ∃ bl br tr tl p, rings !! i = Some (bl, br, tr, tl) ∧ pts !! i = Some p ∧
        bl.2 = - (h / 2) ∧ br.2 = - (h / 2) ∧ tr.2 = h / 2 ∧ tl.2 = h / 2 ∧
        tl.1 = bl.1 ∧ tr.1 = br.1 ∧
        Vec.add bl.1 br.1 = Vec.scale p 2 ∧
        Vec.norm (Vec.sub bl.1 br.1) = Rabs w ∧
        let t := Mesh3D.unit_tangent (tangent_at pts i) in
        (Vec.sub bl.1 br.1).1 * t.1 + (Vec.sub bl.1 br.1).2 * t.2 = 0.
Proof.
  intros Hlen. eexists. split; [by apply extruded_path_ok |].
  split; [by rewrite length_fmap, length_seq |].
  intros i Hi. rewrite list_lookup_fmap, lookup_seq_lt by done.
  cbn [fmap option_fmap option_map]. change (0 + i)%nat with i.
  unfold Mesh3D.ring_at.
  pose proof (unit_tangent_unit (tangent_at pts i)) as Hu.
  destruct (point_at pts i) as [px py] eqn:Hp.
  set (t := Mesh3D.unit_tangent (tangent_at pts i)) in *.
  destruct (Vec.ccw t) as [nx ny] eqn:Hn.
  assert (Hnu : Vec.is_unit (nx, ny)) by (rewrite <- Hn; by apply ccw_unit).
  eexists _, _, _, _, (px, py). split; [reflexivity |].
  split; [rewrite <- Hp; by apply lookup_point_at |].
  cbn [fst snd]. split_and!; try done.
  - unfold Vec.add, Vec.scale. cbn [fst snd]. f_equal; lra.
  - replace (Vec.sub (px + nx * (w / 2), py + ny * (w / 2))
                     (px - nx * (w / 2), py - ny * (w / 2)))
      with (Vec.scale (nx, ny) w)
      by (unfold Vec.sub, Vec.scale; cbn [fst snd]; f_equal; lra).
    by apply norm_scaled_unit.
  - unfold Vec.ccw in Hn. injection Hn as <- <-.
    unfold Vec.sub. cbn [fst snd]. lra.
Qed.

Lemma extruded_path_cross_section_witness :
  ∃ rings, Mesh3D.create_extruded_path [(0, 0); (0, 0); (1, 0)] 6 3 = Ok (Some rings) ∧
    length rings = 3%nat.
Proof.
  destruct (extruded_path_cross_section [(0, 0); (0, 0); (1, 0)] 6 3)
    as (rings & H1 & H2 & _); [simpl; lia |].
  by exists rings.
Defined.

End RibbonTheorems.

Section Components3D.
Local Open Scope Q_scope.

Lemma xmon3d_place_eq (d : XmonDims.t + CouplerXmonDims.t) :
  let w := Xmon.dims_arm_width d in
  let ph := Xmon.dims_pad_head_size d in
  let h := JJChain3D.LAYER_H in
  let l (a : Z) := match d with
                   | inl d => XmonDims.arm_len d
                   | inr d => if decide (a = 0 ∨ a = 180)%Z
                              then CouplerXmonDims.long_arm_len d
                              else CouplerXmonDims.short_arm_len d
                   end in
  let arm a := [Xmon3D.mk_cuboid (w / 2 + l a / 2) (l a / 2) (w / 2) (h / 2) a;
                Xmon3D.mk_cuboid (w / 2 + l a + ph / (3 # 2) / 2)
                  (ph / (3 # 2) / 2) (ph / 2) (h / 2) a] in
  Xmon3D.place (Xmon3D.init d)
  = Ok ((Xmon3D.mk_cuboid 0 (w / 2) (w / 2) (h / 2) 0 :: arm 0%Z)
        ++ arm 90%Z ++ arm 180%Z ++ arm 270%Z) ∧
  Xmon._generate w ph (Xmon3D._arm_lengths (Xmon3D.init d))
  = Ok (cross_patches w ph (l 0%Z) (l 90%Z) (l 180%Z) (l 270%Z)).
Proof.
  intros w ph h l arm.
  unfold Xmon3D.place, Xmon._generate, Xmon3D.init, getitem.
  destruct d as [d | d]; cbn [foldM Xmon3D._arm_lengths Xmon3D.dims];
    repeat (rewrite ?lookup_insert_eq; try rewrite lookup_insert_ne by done;
            cbn [mbind result_bind]);
    split; reflexivity.
Qed.

(** X21: the 3D cross is the 2D cross.  For every dimension set,
    [Xmon3D.place] makes as many cuboids as the 2D [Xmon] has patches,
    nine, in the same order; cuboid [i] is on the arm at the same angle as
    patch [i] and covers, in the frame of that arm, the same rectangle of
    the plane. *)
Theorem xmon3d_matches_2d (d : XmonDims.t + CouplerXmonDims.t) :
  ∃ x2 cuboids,
    Xmon.init (Some d) None = Ok x2 ∧
    Xmon3D.place (Xmon3D.init d) = Ok cuboids ∧
    length cuboids = 9%nat ∧ length (Xmon._patches x2) = 9%nat ∧
    Xmon3D._arm_lengths (Xmon3D.init d) = Xmon._arm_lengths x2 ∧
    ∀ i r a c, Xmon._patches x2 !! i = Some (r, a) → cuboids !! i = Some c →
      Xmon3D.angle c = a ∧ extent_eq (cuboid_extent c) (rect_extent r).
Proof.
  destruct (xmon3d_place_eq d) as [H3 H2]. cbv zeta in H3, H2.
  eexists _, _. split.
  { unfold Xmon.init. change (match d with inl d0 => _ | inr d0 => _ end)
      with (Xmon3D._arm_lengths (Xmon3D.init d)).
    rewrite H2. reflexivity. }
  split; [exact H3 |]. cbn [Xmon._patches Xmon._arm_lengths].
  split_and!; [done | done | done |].
  intros i r a c Hr Hc.
  do 9 (destruct i as [| i];
        [cbn in Hr, Hc; injection Hr as <- <-; injection Hc as <-;
         split; [reflexivity |];
         unfold extent_eq, cuboid_extent, rect_extent; cbn [fst snd
           Xmon3D.cx_local Xmon3D.half_x Xmon3D.half_y];
         split_and!; field |]).
  done.
Qed.

(** X22: where a half bridge meets its island.  In each leg of the 3D
    SQUID the island runs from the arm to [1.5] beyond the middle of the
    leg and the half bridge, turned by a half turn, from the middle of
    the leg to its far end, where the U-bar is centred; in the connector
    of the 3D fluxonium the island runs from [overlap] beyond the middle
    of the bar to one end and the half bridge from the other end to the
    middle.  In both the raised end of the half bridge is the end next to
    the island, the island ends exactly at the middle of the step of the
    bridge, and island and bridge overlap by the overlap length.  Island
    and bridge together cover the leg of the 2D SQUID, with the same
    width. *)
Theorem half_bridge_joints (ds : DCSqUIDDims.t) (df : FluxoniumDims.t) (sign : Q) :
  let leg := DCSqUID3D.place_leg ds sign in
  let mid := DCSqUIDDims.leg_length ds / 2 in
  let island_lo := DCSqUID3D.island_cx leg - DCSqUID3D.island_half_x leg in
  let island_hi := DCSqUID3D.island_cx leg + DCSqUID3D.island_half_x leg in
  let conn := Fluxonium3DConnector.place df in
  let ov := JJChainDims.overlap (FluxoniumDims.chain df) in
  let c_lo := Fluxonium3DConnector.island_centre conn
              - Fluxonium3DConnector.island_half_x conn in
  let c_hi := Fluxonium3DConnector.island_centre conn
              + Fluxonium3DConnector.island_half_x conn in
  (island_lo == 0 ∧ island_hi == mid + (3 # 2) ∧
   hb_high_end (DCSqUID3D.jj leg) == mid ∧
   hb_low_end (DCSqUID3D.jj leg) == DCSqUIDDims.leg_length ds ∧
   hb_step (DCSqUID3D.jj leg) == island_hi ∧
   (DCSqUID3D.place_u_bar ds).1.1 == hb_low_end (DCSqUID3D.jj leg) ∧
   2 * DCSqUID3D.island_half_y leg == DCSqUID3D.jj_width leg) ∧
  (c_lo == - ov ∧
   c_hi == Fluxonium3DConnector.bar_len conn / 2 ∧
   hb_low_end (Fluxonium3DConnector.bridge conn)
   == - (Fluxonium3DConnector.bar_len conn / 2) ∧
   hb_high_end (Fluxonium3DConnector.bridge conn) == 0 ∧
   hb_step (Fluxonium3DConnector.bridge conn) == c_lo ∧
   2 * Fluxonium3DConnector.island_half_y conn
   == Fluxonium3DConnector.bridge_w conn) ∧
  (∀ r, r ∈ (DCSqUID.place ds).1.1 →
     r.1.1.1 == island_lo ∧
     r.1.1.1 + r.1.2 == hb_low_end (DCSqUID3D.jj leg) ∧
     r.2 == DCSqUID3D.jj_width leg).
Proof.
  intros leg mid island_lo island_hi conn ov c_lo c_hi.
  unfold DCSqUID3D.place_leg, Fluxonium3DConnector.place, hb_high_end, hb_low_end,
    hb_step, DCSqUID3D.place_u_bar, JJChain3D.BRIDGE_W_FRAC in *.
  subst leg mid island_lo island_hi conn ov c_lo c_hi.
  cbn [DCSqUID3D.island_cx DCSqUID3D.island_half_x DCSqUID3D.island_half_y
       DCSqUID3D.jj DCSqUID3D.jj_width hb_turned hb_centre hb_total_length
       hb_overlap_len Fluxonium3DConnector.island_centre
       Fluxonium3DConnector.island_half_x Fluxonium3DConnector.island_half_y
       Fluxonium3DConnector.bridge Fluxonium3DConnector.bridge_w
       Fluxonium3DConnector.bar_len fst snd].
  split_and!; try field.
  intros r Hr. unfold DCSqUID.place in Hr. cbn [fst snd] in Hr.
  rewrite list_elem_of_fmap in Hr. destruct Hr as (s & -> & _).
  cbn [fst snd]. split_and!; field.
Qed.

End Components3D.

Section FluxoniumLayout.
Local Open Scope R_scope.

Lemma cos_sin_unit (x : R) : Vec.is_unit (cos x, sin x).
Proof.
  unfold Vec.is_unit. cbn [fst snd].
  pose proof (sin2_cos2 x) as H. unfold Rsqr in H. lra.
Qed.

(** X23: the layout of the fluxonium loop.  Whatever the position and
    the rotation of the qubit, the two chains start [chain_separation]
    apart on a line perpendicular to their direction and run parallel
    over [actual_len]; the connector bar is centred on the axis of the
    loop at distance [chain_start_dist + actual_len] from the centre of
    the qubit; rotated by a quarter turn more than the chains, it lies
    along the line through the two chain ends, which are half the
    separation from its centre on either side, so that the bar reaches
    [connector_bar_extra / 2] beyond each. *)
Theorem fluxonium_layout (d : FluxoniumDims.t) (actual_len : R) (xy : Vec.t)
    (angle : R) :
  let L := FluxoniumPlace.place d actual_len xy angle in
  let fwd := FluxoniumPlace.vec_fwd L in
  let perp := FluxoniumPlace.vec_perp L in
  let sep := Q2R (FluxoniumDims.chain_separation d) in
  Vec.is_unit fwd ∧ Vec.is_unit perp ∧ fwd.1 * perp.1 + fwd.2 * perp.2 = 0 ∧
  Vec.sub (FluxoniumPlace.start_A L) (FluxoniumPlace.start_B L) = Vec.scale perp sep ∧
  Vec.norm (Vec.sub (FluxoniumPlace.start_A L) (FluxoniumPlace.start_B L)) = Rabs sep ∧
  Vec.sub (FluxoniumPlace.end_A L) (FluxoniumPlace.start_A L)
  = Vec.sub (FluxoniumPlace.end_B L) (FluxoniumPlace.start_B L) ∧
  Vec.norm (Vec.sub (FluxoniumPlace.end_A L) (FluxoniumPlace.start_A L))
  = Rabs actual_len ∧
  FluxoniumPlace.bar_center L
  = Vec.add xy (Vec.scale fwd (Q2R (FluxoniumDims.chain_start_dist d) + actual_len)) ∧
  (cos (FluxoniumPlace.radians (FluxoniumPlace.bar_angle L)),
   sin (FluxoniumPlace.radians (FluxoniumPlace.bar_angle L))) = perp ∧
  FluxoniumPlace.end_A L = Vec.add (FluxoniumPlace.bar_center L) (Vec.scale perp (sep / 2)) ∧
  FluxoniumPlace.end_B L = Vec.sub (FluxoniumPlace.bar_center L) (Vec.scale perp (sep / 2)) ∧
  FluxoniumPlace.bar_len L / 2 - sep / 2
  = Q2R (FluxoniumDims.connector_bar_extra d) / 2.
Proof.
  intros L fwd perp sep.
  set (rad := FluxoniumPlace.radians (angle + Q2R (FluxoniumDims.chain_angle d))).
  assert (Hf : fwd = (cos rad, sin rad)) by reflexivity.
  assert (Hp : perp = (- sin rad, cos rad)) by reflexivity.
  pose proof (cos_sin_unit rad) as Hu.
  assert (Hpu : Vec.is_unit perp).
  { rewrite Hp. unfold Vec.is_unit in *. cbn [fst snd] in *. lra. }
  split_and!.
  - by rewrite Hf.
  - exact Hpu.
  - rewrite Hf, Hp. cbn [fst snd]. lra.
  - unfold L, FluxoniumPlace.place. cbn [FluxoniumPlace.start_A FluxoniumPlace.start_B].
    fold rad. rewrite Hp. unfold Vec.sub, Vec.add, Vec.scale. cbn [fst snd].
    fold sep. f_equal; lra.
  - replace (Vec.sub (FluxoniumPlace.start_A L) (FluxoniumPlace.start_B L))
      with (Vec.scale perp sep).
    + by apply norm_scaled_unit.
    + unfold L, FluxoniumPlace.place.
      cbn [FluxoniumPlace.start_A FluxoniumPlace.start_B].
      fold rad. rewrite Hp. unfold Vec.sub, Vec.add, Vec.scale. cbn [fst snd].
      fold sep. f_equal; lra.
  - unfold L, FluxoniumPlace.place.
    cbn [FluxoniumPlace.start_A FluxoniumPlace.start_B FluxoniumPlace.end_A
         FluxoniumPlace.end_B].
    unfold Vec.sub, Vec.add, Vec.scale. cbn [fst snd]. f_equal; lra.
  - replace (Vec.sub (FluxoniumPlace.end_A L) (FluxoniumPlace.start_A L))
      with (Vec.scale fwd actual_len).
    + apply norm_scaled_unit. by rewrite Hf.
    + unfold L, FluxoniumPlace.place.
      cbn [FluxoniumPlace.start_A FluxoniumPlace.end_A].
      fold rad. rewrite Hf. unfold Vec.sub, Vec.add, Vec.scale. cbn [fst snd].
      f_equal; lra.
  - unfold L, FluxoniumPlace.place. cbn [FluxoniumPlace.bar_center].
    fold rad. rewrite Hf.
    unfold Vec.sub, Vec.add, Vec.scale, Vec.div. cbn [fst snd]. f_equal; lra.
  - rewrite Hp. unfold L, FluxoniumPlace.place. cbn [FluxoniumPlace.bar_angle].
    replace (FluxoniumPlace.radians (angle + Q2R (FluxoniumDims.chain_angle d) + 90))
      with (rad + PI / 2) by (unfold rad, FluxoniumPlace.radians; lra).
    rewrite cos_plus, sin_plus, cos_PI2, sin_PI2. f_equal; lra.
  - unfold L, FluxoniumPlace.place.
    cbn [FluxoniumPlace.bar_center FluxoniumPlace.end_A].
    fold rad. rewrite Hp. fold sep.
    unfold Vec.sub, Vec.add, Vec.scale, Vec.div. cbn [fst snd]. f_equal; lra.
  - unfold L, FluxoniumPlace.place.
    cbn [FluxoniumPlace.bar_center FluxoniumPlace.end_B].
    fold rad. rewrite Hp. fold sep.
    unfold Vec.sub, Vec.add, Vec.scale, Vec.div. cbn [fst snd]. f_equal; lra.
  - unfold L, FluxoniumPlace.place. cbn [FluxoniumPlace.bar_len]. fold sep. lra.
Qed.

End FluxoniumLayout.

Section RenderTheorems.
Import SquareLattice.
Local Open Scope Z_scope.






End RenderTheorems.
